(** * Video-encoder bot: the streaming pipeline and its helpers

    A shallow embedding of
      - [src/bot/utils/stream_processor.py] (class [VideoStreamProcessor]
        and [process_video_stream]),
      - [src/bot/utils/progress_tracker.py] ([ProgressTracker.update_progress]),
      - [src/bot/utils/ffmpeg_stream.py] ([calculate_video_dimensions]),
      - [src/bot/utils/ffmpeg_utils.py] ([estimate_output_size]).

    The asyncio code is written in a small monad over an explicit task
    state: a computation returns, raises a Python exception, or stays
    suspended on an await that never completes.  Everything outside the
    repository (Telegram, the child process, the progress observer, the
    file system) is an oracle handed to the code as data; of asyncio's
    subprocess transport the model keeps what decides the outcome of
    [process.wait()] and [process.kill()]. *)

From Stdlib Require Import ZArith NArith List String Ascii Bool Lia.
From Stdlib Require Import Strings.Byte.
From Stdlib Require Import Floats.SpecFloat.
From Stdlib Require Import DecimalString DecimalZ.
Import ListNotations.

Set Implicit Arguments.

(** ** Python values *)

Definition bytes := list byte.

Definition len (b : bytes) : Z := Z.of_nat (List.length b).

(** Python's [str] values are kept as their UTF-8 text. *)
Definition cat (a b : string) : string := String.append a b.
Infix "+++" := cat (at level 60, right associativity).

Inductive exc_class :=
| ValueError
| RuntimeError
| TimeoutError        (* asyncio.TimeoutError *)
| OverflowError
| ZeroDivisionError
| UnicodeDecodeError
| OSError
| ProcessLookupError  (* a subclass of OSError *)
| GeneratorExit.      (* a BaseException that is not an Exception *)

Record exc := mkExc { klass : exc_class; str : string }.

(** [except Exception] catches everything but [GeneratorExit]. *)
Definition is_Exception (e : exc) : bool :=
  match klass e with GeneratorExit => false | _ => true end.

(** [except asyncio.TimeoutError]. *)
Definition is_TimeoutError (e : exc) : bool :=
  match klass e with TimeoutError => true | _ => false end.

(** ** Awaited operations of the outside world

    What an awaited call of a collaborator does: it completes after [dt]
    seconds with a value, raises after [dt] seconds, or never completes. *)
Inductive awaited (A : Type) :=
| Returns (dt : N) (a : A)
| Raises (dt : N) (e : exc)
| Never.
Arguments Raises {A} dt e.
Arguments Never {A}.

(** ** Events *)

Inductive event :=
| EvSizeCheck (file_size : Z)            (* [file_size > self.max_file_size] evaluated *)
| EvStdinWrite (chunk : bytes)           (* [process.stdin.write(chunk)] *)
| EvStdinClose                           (* [process.stdin.close()] *)
| EvProgress (input_bytes output_bytes : option Z)  (* [progress_callback(..)] called *)
| EvSpawn (cmd : list string)            (* [asyncio.create_subprocess_exec] succeeded *)
| EvCreateTask                           (* [asyncio.create_task(feed_input())] *)
| EvStdoutRead (chunk : bytes)           (* [process.stdout.read] returned *)
| EvYield (chunk : bytes)                (* [yield chunk] *)
| EvKill                                 (* [process.kill()] returned *)
| EvTmpWrite (chunk : bytes)             (* [temp_file.write(chunk)] *)
| EvReply                                (* [message.reply_video] returned *)
| EvUnlink                               (* [os.unlink(temp_path)] *)
| EvEditText.                            (* [progress_message.edit_text(text)] called *)

(** ** The task monad *)

Inductive res (S A : Type) :=
| Ok (a : A) (s : S)          (* the coroutine returned [a] *)
| Exc (e : exc) (s : S)       (* the coroutine raised [e] *)
| Hang (s : S).               (* suspended forever on an await *)
Arguments Ok {S A} a s.
Arguments Exc {S A} e s.
Arguments Hang {S A} s.

Definition M (S A : Type) := S -> res S A.

Definition ret {S A} (a : A) : M S A := fun s => Ok a s.

Definition bind {S A B} (m : M S A) (k : A -> M S B) : M S B :=
  fun s => match m s with
           | Ok a s' => k a s'
           | Exc e s' => Exc e s'
           | Hang s' => Hang s'
           end.

Definition raise {S A} (e : exc) : M S A := fun s => Exc e s.

(** [try: m  except <catches> as e: handler e]. *)
Definition try_except {S A} (m : M S A) (catches : exc -> bool)
           (handler : exc -> M S A) : M S A :=
  fun s => match m s with
           | Exc e s' => if catches e then handler e s' else Exc e s'
           | r => r
           end.

Declare Scope task_scope.
Delimit Scope task_scope with task.
Notation "x <- m ;; k" := (bind m (fun x => k))
  (at level 61, m at next level, right associativity) : task_scope.
Notation "m ;; k" := (bind m (fun _ => k))
  (at level 61, right associativity) : task_scope.
Local Open Scope task_scope.

(** A task state has a wall clock and an event log. *)
Class Task (S : Type) := {
  clock : S -> N;
  set_clock : N -> S -> S;
  record : (N * event) -> S -> S
}.

Definition emit {S} `{Task S} (ev : event) : M S unit :=
  fun s => Ok tt (record (clock s, ev) s).

(** [await op]: the only place where time passes. *)
Definition await {S A} `{Task S} (op : awaited A) : M S A :=
  fun s => match op with
           | Returns dt a => Ok a (set_clock (clock s + dt)%N s)
           | Raises dt e => Exc e (set_clock (clock s + dt)%N s)
           | Never => Hang s
           end.

(** ** [VideoStreamProcessor.__init__] *)

Definition chunk_size : Z := 1024 * 1024.
Definition max_file_size : Z := 2 * 1024 * 1024 * 1024.
Definition processing_timeout : N := 300.

(** ** The feed task *)

(** State of the task that runs [feed_input]: its clock, its log, and what
    it has done to [process.stdin]. *)
Record feeder := mkFeeder {
  f_now : N;
  f_trace : list (N * event);
  f_stdin : list bytes;      (* chunks handed to [process.stdin.write], oldest first *)
  f_closed : bool            (* [process.stdin.close()] was called *)
}.

#[export] Instance feeder_task : Task feeder := {
  clock := f_now;
  set_clock t s := mkFeeder t (f_trace s) (f_stdin s) (f_closed s);
  record ev s := mkFeeder (f_now s) (f_trace s ++ [ev]) (f_stdin s) (f_closed s)
}.

(** Telegram as seen by [stream_from_telegram]: [message.video.file_size]
    and the successive outcomes of iterating [client.stream_media(message)];
    when the list is used up the iterator stops. *)
Record telegram := mkTelegram {
  file_size : Z;
  media : list (awaited bytes)
}.

(** The async generator object returned by [stream_from_telegram]: creating
    it runs nothing; the body starts at the first [__anext__]. *)
Inductive tg_state :=
| TgCreated                                   (* body not entered yet *)
| TgStreaming (rest : list (awaited bytes))   (* suspended at [yield chunk] *)
| TgClosed.

Definition stream_from_telegram (tg : telegram) : tg_state := TgCreated.

Definition file_too_large : exc :=
  (* f"File too large. Maximum size: {self.max_file_size / (1024**3):.1f}GB" *)
  mkExc ValueError "File too large. Maximum size: 2.0GB".

Definition telegram_failed (e : exc) : exc :=
  mkExc RuntimeError ("Failed to stream video from Telegram: " +++ str e).

(** [async for chunk in client.stream_media(message): yield chunk] *)
Definition stream_media_next (rest : list (awaited bytes))
  : M feeder (option bytes * tg_state) :=
  match rest with
  | [] => ret (None, TgClosed)
  | op :: rest' => chunk <- await op ;; ret (Some chunk, TgStreaming rest')
  end.

(** One [__anext__] of the generator of [stream_from_telegram]. *)
Definition stream_from_telegram_next (tg : telegram) (st : tg_state)
  : M feeder (option bytes * tg_state) :=
  try_except
    match st with
    | TgCreated =>
        emit (EvSizeCheck (file_size tg)) ;;
        if (file_size tg >? max_file_size)%Z
        then raise file_too_large
        else stream_media_next (media tg)
    | TgStreaming rest => stream_media_next rest
    | TgClosed => ret (None, TgClosed)
    end
    is_Exception
    (fun e => raise (telegram_failed e)).

(** How many more chunks the generator can still yield. *)
Definition tg_remaining (tg : telegram) (st : tg_state) : nat :=
  match st with
  | TgCreated => List.length (media tg)
  | TgStreaming rest => List.length rest
  | TgClosed => 0
  end.

(** The progress observer: [None] when no [progress_callback] was passed,
    otherwise what awaiting the call with the given arguments does. *)
Definition observer := option (option Z -> option Z -> awaited unit).

(** [if progress_callback: await progress_callback(a, b)] *)
Definition call_progress {S} `{Task S} (cb : observer) (a b : option Z) : M S unit :=
  match cb with
  | None => ret tt
  | Some f => emit (EvProgress a b) ;; await (f a b)
  end.

(** [process.stdin.write(chunk)]: a plain call on the [StreamWriter]; the
    chunk is queued and the call returns. *)
Definition stdin_write (chunk : bytes) : M feeder unit :=
  fun s => Ok tt (mkFeeder (f_now s) (f_trace s ++ [(f_now s, EvStdinWrite chunk)])
                           (f_stdin s ++ [chunk]) (f_closed s)).

Definition stdin_close : M feeder unit :=
  fun s => Ok tt (mkFeeder (f_now s) (f_trace s ++ [(f_now s, EvStdinClose)])
                           (f_stdin s) true).

(** The loop of [feed_input].  [process.stdin] is a [StreamWriter] because
    the child is spawned with [stdin=PIPE], so [if process.stdin:] holds.
    The fuel bounds the number of [__anext__] calls. *)
Fixpoint feed_loop (fuel : nat) (tg : telegram) (cb : observer)
         (st : tg_state) (total_bytes : Z) : M feeder unit :=
  match fuel with
  | O => fun s => Hang s
  | S fuel' =>
      r <- stream_from_telegram_next tg st ;;
      match r with
      | (None, _) => ret tt
      | (Some chunk, st') =>
          stdin_write chunk ;;
          let total_bytes := (total_bytes + len chunk)%Z in
          call_progress cb (Some total_bytes) None ;;
          feed_loop fuel' tg cb st' total_bytes
      end
  end.

Definition feed_input (tg : telegram) (input_stream : tg_state) (cb : observer)
  : M feeder unit :=
  feed_loop (S (tg_remaining tg input_stream)) tg cb input_stream 0 ;;
  stdin_close.

(** ** The child process *)

Inductive proc_state :=
| NotSpawned                 (* [process] is [None] *)
| Running                    (* spawned; not killed, and no exit status known *)
| Exited (returncode : Z)    (* [process.returncode] is set *)
| Killed.

(** One run of the child: the successive results of
    [process.stdout.read(self.chunk_size)] (when the list is used up the
    read returns [b""], end of stream), the time from spawn to exit with the
    return code ([None]: it never exits by itself), and what it writes to
    stderr. *)
Record child := mkChild {
  c_stdout : list (awaited bytes);
  c_exit : option (N * Z);
  c_stderr : bytes
}.

(** The program that is spawned: what the child does, given the chunks the
    feed task writes to its stdin and whether stdin gets closed. *)
Definition program := list bytes -> bool -> child.

(** The operating system: what [asyncio.create_subprocess_exec] on the command
    does. *)
Definition os := list string -> awaited program.

(** The feed task as the drainer holds it: the result of running
    [feed_input] from the moment of [asyncio.create_task]. *)
Definition feed_task := res feeder unit.

Definition feeder_of (t : feed_task) : feeder :=
  match t with Ok _ f => f | Exc _ f => f | Hang f => f end.

Record running := mkRunning {
  r_feed : feed_task;
  r_child : child;
  r_spawned_at : N
}.

(** The async generator object returned by [process_with_ffmpeg]: its
    frame.  From the spawn on the frame holds [process] with its feed
    task, what [process.stdout] has still to deliver, and [output_bytes];
    between two [__anext__] calls the generator is suspended at
    [yield chunk]. *)
Inductive pwf_state :=
| PwfCreated                 (* body not entered yet *)
| PwfAtYield (p : running) (outs : list (awaited bytes)) (output_bytes : Z)
| PwfClosed.

(** State of the task that runs [process_video_stream]: clock, log, the
    child, the generator object [output_stream], the temporary file, and
    the tasks the event loop runs besides this one. *)
Record world := mkWorld {
  now : N;
  trace : list (N * event);
  proc : proc_state;
  gen : pwf_state;
  tmp_file : option (list bytes);   (* chunks written, [None]: no file *)
  tasks : list feed_task
}.

Definition set_now (t : N) (w : world) : world :=
  mkWorld t (trace w) (proc w) (gen w) (tmp_file w) (tasks w).
Definition log (ev : N * event) (w : world) : world :=
  mkWorld (now w) (trace w ++ [ev]) (proc w) (gen w) (tmp_file w) (tasks w).
Definition set_proc (p : proc_state) (w : world) : world :=
  mkWorld (now w) (trace w) p (gen w) (tmp_file w) (tasks w).
Definition set_gen (g : pwf_state) (w : world) : world :=
  mkWorld (now w) (trace w) (proc w) g (tmp_file w) (tasks w).
Definition set_tmp (f : option (list bytes)) (w : world) : world :=
  mkWorld (now w) (trace w) (proc w) (gen w) f (tasks w).
Definition add_task (t : feed_task) (w : world) : world :=
  mkWorld (now w) (trace w) (proc w) (gen w) (tmp_file w) (tasks w ++ [t]).

#[export] Instance world_task : Task world := {
  clock := now;
  set_clock := set_now;
  record := log
}.

Definition initial_world : world := mkWorld 0 [] NotSpawned PwfClosed None [].

(** [try: m  except asyncio.TimeoutError: h1  except Exception as e: h2 e]:
    the first clause that matches handles the exception; what a handler
    raises is not handled by the clauses after it. *)
Definition try_except2 {S A} (m : M S A)
           (catches1 : exc -> bool) (h1 : exc -> M S A)
           (catches2 : exc -> bool) (h2 : exc -> M S A) : M S A :=
  fun s => match m s with
           | Exc e s' =>
               if catches1 e then h1 e s'
               else if catches2 e then h2 e s'
               else Exc e s'
           | r => r
           end.

(** [await asyncio.create_subprocess_exec], stdin, stdout and stderr piped *)
Definition create_subprocess_exec (sys : os) (cmd : list string) : M world program :=
  prog <- await (sys cmd) ;;
  fun w => Ok prog (log (now w, EvSpawn cmd) (set_proc Running w)).

(** [asyncio.create_task(feed_input())]: the task starts at the current
    time with nothing written. *)
Definition create_task (body : M feeder unit) : M world feed_task :=
  fun w => let t := body (mkFeeder (now w) [] [] false) in
           Ok t (add_task t (log (now w, EvCreateTask) w)).

(** [await feed_task] *)
Definition await_task (t : feed_task) : M world unit :=
  fun w => match t with
           | Ok _ f => Ok tt (set_now (N.max (now w) (f_now f)) w)
           | Exc e f => Exc e (set_now (N.max (now w) (f_now f)) w)
           | Hang _ => Hang w
           end.

(** [chunk = await process.stdout.read(self.chunk_size)] *)
Definition stdout_read (outs : list (awaited bytes))
  : M world (bytes * list (awaited bytes)) :=
  match outs with
  | [] => ret ([], [])
  | op :: outs' => chunk <- await op ;; emit (EvStdoutRead chunk) ;; ret (chunk, outs')
  end.

(** ** The subprocess transport of asyncio

    [process.stdout] and [process.stderr] are [StreamReader]s with the
    default limit of 64 KiB.  The event loop reads a pipe into its reader
    whether or not the code awaits a read, until the reader holds more
    than twice its limit; a pipe is disconnected when the loop has read
    its end.  The transport is closed (its [_proc] is [None]) once the exit
    status has been collected and stdin, stdout and stderr are
    disconnected: a [process.wait()] issued before the status was
    collected returns only then, and [process.kill()] raises
    [ProcessLookupError] from then on. *)

Definition stream_limit : Z := 2 ^ 16.   (* asyncio.streams._DEFAULT_LIMIT *)

(** A reader nobody reads from takes in [n] bytes and the end of the
    stream behind them. *)
Definition fits (n : Z) : bool := (n <=? 2 * stream_limit)%Z.

(** The same for what a script of reads has still to deliver, with [held]
    bytes taken in already.  A read that raises is a pipe that failed,
    which disconnects it; a read that never returns is a pipe the child
    keeps open. *)
Fixpoint drains (held : Z) (outs : list (awaited bytes)) : bool :=
  match outs with
  | [] => true
  | Returns _ c :: outs' =>
      match c with
      | [] => true
      | _ => fits (held + len c) && drains (held + len c) outs'
      end
  | Raises _ _ :: _ => true
  | Never :: _ => false
  end.

(** The return code of a child that exited before the current time: its
    exit status has been collected. *)
Definition exited_before (p : running) (w : world) : option Z :=
  match c_exit (r_child p) with
  | Some (d, rc) => if (r_spawned_at p + d <? now w)%N then Some rc else None
  | None => None
  end.

(** [await asyncio.wait_for(process.wait(), timeout=self.processing_timeout)],
    called when the read loop has seen the end of stdout and the feed task
    is done.  The child exits [d] seconds after the spawn.  When that
    moment has passed, the return code is known and the wait returns at
    once.  Otherwise it returns when the transport is closed: at the exit
    when the stderr reader, which nobody reads before line 89, has taken in
    all of stderr, and never when it has not; [asyncio.TimeoutError] is
    raised when the wait has not returned at the timeout. *)
Definition wait_for_process (p : running) : M world unit :=
  fun w =>
    let timed_out :=
      Exc (mkExc TimeoutError "") (set_now (now w + processing_timeout)%N w) in
    match c_exit (r_child p) with
    | Some (d, rc) =>
        let t_exit := (r_spawned_at p + d)%N in
        if (t_exit <? now w)%N
           || (fits (len (c_stderr (r_child p)))
               && (t_exit <? now w + processing_timeout)%N)
        then Ok tt (set_proc (Exited rc) (set_now (N.max (now w) t_exit) w))
        else timed_out
    | None => timed_out
    end.

(** [process.returncode] *)
Definition returncode (w : world) : option Z :=
  match proc w with Exited rc => Some rc | _ => None end.

Definition lookup_error : exc := mkExc ProcessLookupError "".

(** [process.kill()] on the process [p] whose stdout has still [outs] to
    deliver.  Once [wait()] has returned and line 89 has read stderr to
    its end the transport is closed, and so it is when the child exited
    before now and both readers have taken in what was left: the call
    raises.  A child that exited with a pipe still connected is not
    signalled; any other child is killed. *)
Definition kill (p : running) (outs : list (awaited bytes)) : M world unit :=
  fun w =>
    match proc w with
    | Exited _ => Exc lookup_error w
    | _ =>
        match exited_before p w with
        | Some rc =>
            if fits (len (c_stderr (r_child p))) && drains 0 outs
            then Exc lookup_error (set_proc (Exited rc) w)
            else Ok tt (log (now w, EvKill) (set_proc (Exited rc) w))
        | None => Ok tt (log (now w, EvKill) (set_proc Killed w))
        end
    end.

(** [if process: process.kill()]: the handlers find [process] in the
    frame of the generator. *)
Definition kill_if_process : M world unit :=
  fun w => match gen w with
           | PwfAtYield p outs _ => kill p outs w
           | _ => Ok tt w
           end.

(** ** [bytes.decode()] *)

Definition in_range (lo hi : N) (b : byte) : bool :=
  ((lo <=? Byte.to_N b) && (Byte.to_N b <=? hi))%N.

Definition continuation (b : byte) : bool := in_range 128 191 b.

(** Well-formed UTF-8 (the strict error handler of the default codec). *)
Fixpoint utf8_valid (b : bytes) : bool :=
  match b with
  | [] => true
  | b0 :: r0 =>
      if in_range 0 127 b0 then utf8_valid r0
      else match r0 with
      | [] => false
      | b1 :: r1 =>
          if in_range 194 223 b0 then continuation b1 && utf8_valid r1
          else match r1 with
          | [] => false
          | b2 :: r2 =>
              if in_range 224 224 b0 then in_range 160 191 b1 && continuation b2 && utf8_valid r2
              else if in_range 225 236 b0 || in_range 238 239 b0
                   then continuation b1 && continuation b2 && utf8_valid r2
              else if in_range 237 237 b0 then in_range 128 159 b1 && continuation b2 && utf8_valid r2
              else match r2 with
              | [] => false
              | b3 :: r3 =>
                  if in_range 240 240 b0
                  then in_range 144 191 b1 && continuation b2 && continuation b3 && utf8_valid r3
                  else if in_range 241 243 b0
                  then continuation b1 && continuation b2 && continuation b3 && utf8_valid r3
                  else if in_range 244 244 b0
                  then in_range 128 143 b1 && continuation b2 && continuation b3 && utf8_valid r3
                  else false
              end
          end
      end
  end.

(** [b.decode()]: the text of well-formed UTF-8, [UnicodeDecodeError]
    otherwise (Python's message also names the offending byte and its
    position). *)
Definition decode {S} (b : bytes) : M S string :=
  if utf8_valid b then ret (string_of_list_byte b)
  else raise (mkExc UnicodeDecodeError "'utf-8' codec can't decode bytes").

(** ** [VideoStreamProcessor.process_with_ffmpeg] *)

(** Arguments of the generator and the operating system it runs on. *)
Record pwf_args := mkArgs {
  a_os : os;
  a_telegram : telegram;
  a_input_stream : tg_state;
  a_ffmpeg_cmd : list string;
  a_progress_callback : observer
}.

(** Where one pass of [while True] stops. *)
Inductive drained :=
| Break                                        (* [if not chunk: break] *)
| Yielded (chunk : bytes) (outs : list (awaited bytes)) (output_bytes : Z).

(** Lines 71-75: read, test for end of stream, count. *)
Definition read_chunk (outs : list (awaited bytes)) (output_bytes : Z) : M world drained :=
  r <- stdout_read outs ;;
  match fst r with
  | [] => ret Break
  | _ => ret (Yielded (fst r) (snd r) (output_bytes + len (fst r))%Z)
  end.

Definition read_failed (e : exc) : exc :=
  mkExc RuntimeError ("Failed to read FFmpeg output: " +++ str e).

(** The inner [try .. except Exception as e] around the read loop. *)
Definition inner_try {A} (m : M world A) : M world A :=
  try_except m is_Exception (fun e => raise (read_failed e)).

Definition timed_out : exc :=
  (* f"Processing timed out after {self.processing_timeout} seconds" *)
  mkExc RuntimeError "Processing timed out after 300 seconds".

Definition processing_failed (e : exc) : exc :=
  mkExc RuntimeError ("Video processing failed: " +++ str e).

(** The outer [try] with its two [except] clauses. *)
Definition outer_try {A} (m : M world A) : M world A :=
  try_except2 m
    is_TimeoutError (fun _ => kill_if_process ;; raise timed_out)
    is_Exception (fun e => kill_if_process ;; raise (processing_failed e)).

(** Lines 45-68: spawn the child, start the feed task; the frame holds
    [process] from here on. *)
Definition start (a : pwf_args) : M world running :=
  prog <- create_subprocess_exec (a_os a) (a_ffmpeg_cmd a) ;;
  feed <- create_task (feed_input (a_telegram a) (a_input_stream a) (a_progress_callback a)) ;;
  fun w =>
    let f := feeder_of feed in
    let p := mkRunning feed (prog (f_stdin f) (f_closed f)) (now w) in
    Ok p (set_gen (PwfAtYield p (c_stdout (r_child p)) 0) w).

Definition ffmpeg_failed (error_msg : string) : exc :=
  mkExc RuntimeError ("FFmpeg processing failed: " +++ error_msg).

(** Lines 82-92: after the read loop.  [process.stderr.read()] returns
    all of stderr. *)
Definition finish (p : running) : M world unit :=
  await_task (r_feed p) ;;
  wait_for_process p ;;
  let stderr_output := c_stderr (r_child p) in
  rc <- (fun w => Ok (returncode w) w) ;;
  match rc with
  | Some 0%Z => ret tt
  | _ =>
      error_msg <- match stderr_output with
                   | [] => ret "Unknown FFmpeg error"%string
                   | _ => decode stderr_output
                   end ;;
      raise (ffmpeg_failed error_msg)
  end.

(** After a pass of the loop: leave the loop and finish, or suspend at
    [yield chunk]. *)
Definition resume (p : running) (d : drained) : M world (option bytes * pwf_state) :=
  match d with
  | Break => finish p ;; ret (None, PwfClosed)
  | Yielded chunk outs output_bytes =>
      emit (EvYield chunk) ;; ret (Some chunk, PwfAtYield p outs output_bytes)
  end.

(** The generator body from a given state up to its next suspension. *)
Definition pwf_body (a : pwf_args) (st : pwf_state) : M world (option bytes * pwf_state) :=
  match st with
  | PwfCreated =>
      outer_try (p <- start a ;;
                 d <- inner_try (read_chunk (c_stdout (r_child p)) 0) ;;
                 resume p d)
  | PwfAtYield p outs output_bytes =>
      outer_try (d <- inner_try (call_progress (a_progress_callback a) None (Some output_bytes) ;;
                                 read_chunk outs output_bytes) ;;
                 resume p d)
  | PwfClosed => ret (None, PwfClosed)
  end.

(** [output_stream.__anext__()] on the generator object held in the world. *)
Definition anext (a : pwf_args) : M world (option bytes) :=
  fun w => match pwf_body a (gen w) w with
           | Ok (o, st) w' => Ok o (set_gen st w')
           | Exc e w' => Exc e (set_gen PwfClosed w')
           | Hang w' => Hang w'
           end.

(** [output_stream.aclose()], which the event loop runs when a generator
    that was not exhausted is finalised: [GeneratorExit] is raised at the
    [yield]. *)
Definition aclose : M world unit :=
  fun w => match gen w with
           | PwfAtYield _ _ _ =>
               match outer_try (inner_try (raise (mkExc GeneratorExit "") : M world unit)) w with
               | Ok _ w' => Ok tt (set_gen PwfClosed w')
               | Exc e w' => if is_Exception e then Exc e (set_gen PwfClosed w')
                             else Ok tt (set_gen PwfClosed w')
               | Hang w' => Hang w'
               end
           | _ => Ok tt (set_gen PwfClosed w)
           end.

Definition gen_remaining (w : world) : nat :=
  match gen w with
  | PwfAtYield _ outs _ => List.length outs
  | _ => 0
  end.

(** [async for chunk in output_stream: body chunk] *)
Fixpoint for_rest (fuel : nat) (a : pwf_args) (body : bytes -> M world unit) : M world unit :=
  match fuel with
  | O => fun w => Hang w
  | S fuel' =>
      o <- anext a ;;
      match o with
      | None => ret tt
      | Some chunk => body chunk ;; for_rest fuel' a body
      end
  end.

Definition async_for (a : pwf_args) (body : bytes -> M world unit) : M world unit :=
  o <- anext a ;;
  match o with
  | None => ret tt
  | Some chunk =>
      body chunk ;;
      fun w => for_rest (S (gen_remaining w)) a body w
  end.

(** ** [VideoStreamProcessor.send_processed_video] *)

(** The file system and the chat as seen by [send_processed_video]:
    whether [temp_file.write(chunk)] raises, given the chunks the file
    already holds, and what [message.reply_video] does with the file. *)
Record sink := mkSink {
  tmp_write : list bytes -> bytes -> option exc;
  reply_video : list bytes -> awaited unit
}.

Definition send_failed (e : exc) : exc :=
  mkExc RuntimeError ("Failed to send processed video: " +++ str e).

(** [temp_file.write(chunk)] *)
Definition temp_file_write (k : sink) (chunk : bytes) : M world unit :=
  fun w =>
    let content := match tmp_file w with Some c => c | None => [] end in
    match tmp_write k content chunk with
    | Some e => Exc e w
    | None => Ok tt (log (now w, EvTmpWrite chunk) (set_tmp (Some (content ++ [chunk])) w))
    end.

(** [os.unlink(temp_path)] *)
Definition unlink : M world unit :=
  fun w => Ok tt (log (now w, EvUnlink) (set_tmp None w)).

Definition send_processed_video (a : pwf_args) (k : sink) : M world unit :=
  try_except
    ((* with tempfile.NamedTemporaryFile(suffix='.mp4', delete=False) *)
     (fun w => Ok tt (set_tmp (Some []) w)) ;;
     async_for a (temp_file_write k) ;;
     content <- (fun w => Ok (match tmp_file w with Some c => c | None => [] end) w) ;;
     await (reply_video k content) ;;
     emit EvReply ;;
     unlink)
    is_Exception
    (fun e =>
       (* if 'temp_path' in locals(): os.unlink(temp_path) *)
       (fun w => match tmp_file w with Some _ => unlink w | None => Ok tt w end) ;;
       raise (send_failed e)).

(** ** [process_video_stream] *)

Definition process_video_stream (sys : os) (tg : telegram) (ffmpeg_cmd : list string)
           (progress_callback : observer) (k : sink) : M world unit :=
  let input_stream := stream_from_telegram tg in
  let a := mkArgs sys tg input_stream ffmpeg_cmd progress_callback in
  (* output_stream = video_processor.process_with_ffmpeg(..): a new generator object *)
  (fun w => Ok tt (set_gen PwfCreated w)) ;;
  send_processed_video a k.

(** ** Python numbers

    A Python [float] is an IEEE 754 binary64 value; its arithmetic is the
    Standard Library's executable specification [SpecFloat] at precision 53
    and [emax] 1024, rounding to nearest, ties to even. *)

Definition prec : Z := 53.
Definition emax : Z := 1024.
Definition float := spec_float.

Definition float_mul (x y : float) : float := SFmul prec emax x y.

(** [float(n)] for an [int]: correctly rounded; a result beyond the range
    raises. *)
Definition float_of_int (n : Z) : exc + float :=
  match binary_normalize prec emax n 0 false with
  | S754_infinity _ => inl (mkExc OverflowError "int too large to convert to float")
  | f => inr f
  end.

(** [a / b] on two [int]s: the correctly rounded quotient. *)
Definition int_true_divide (a b : Z) : exc + float :=
  if (b =? 0)%Z then inl (mkExc ZeroDivisionError "division by zero")
  else if (a =? 0)%Z then inr (S754_zero (b <? 0)%Z)
  else
    let '(mz, ez, lz) := SFdiv_core_binary prec emax (Z.abs a) 0 (Z.abs b) 0 in
    match binary_round_aux prec emax (xorb (a <? 0)%Z (b <? 0)%Z) mz ez lz with
    | S754_infinity _ =>
        inl (mkExc OverflowError "integer division result too large for a float")
    | f => inr f
    end.

(** [n * x] with [n] an [int] and [x] a [float]: [n] is converted first. *)
Definition int_mul_float (n : Z) (x : float) : exc + float :=
  match float_of_int n with
  | inl e => inl e
  | inr f => inr (float_mul f x)
  end.

(** [int(x)]: truncation toward zero. *)
Definition int_of_float (x : float) : exc + Z :=
  match x with
  | S754_zero _ => inr 0%Z
  | S754_finite s m e =>
      inr (cond_Zopp s (match e with
                        | Zneg p => Zpos m / 2 ^ Zpos p
                        | _ => Zpos m * 2 ^ e
                        end))%Z
  | S754_infinity _ => inl (mkExc OverflowError "cannot convert float infinity to integer")
  | S754_nan => inl (mkExc ValueError "cannot convert float NaN to integer")
  end.

(** The float literals of [estimate_output_size]. *)
Definition f_0_6 : float := S754_finite false 5404319552844595 (-53).
Definition f_0_4 : float := S754_finite false 7205759403792794 (-54).
Definition f_0_25 : float := S754_finite false 4503599627370496 (-54).
Definition f_0_1 : float := S754_finite false 7205759403792794 (-56).
Definition f_1_1 : float := S754_finite false 4953959590107546 (-52).

(** What a numeric expression evaluates to. *)
Inductive number :=
| Int (n : Z)
| Float (x : float).

(** ** [calculate_video_dimensions] ([ffmpeg_stream.py]) *)

Definition target_heights : list (string * Z) :=
  [("720p"%string, 720%Z); ("480p"%string, 480%Z); ("360p"%string, 360%Z)].

Fixpoint lookup (key : string) (d : list (string * Z)) : option Z :=
  match d with
  | [] => None
  | (k, v) :: d' => if String.eqb key k then Some v else lookup key d'
  end.

Definition bind_exc {A B} (r : exc + A) (k : A -> exc + B) : exc + B :=
  match r with inl e => inl e | inr a => k a end.

Definition calculate_video_dimensions (original_width original_height : Z)
           (target_resolution : string) : exc + (Z * Z) :=
  match lookup target_resolution target_heights with
  | None => inl (mkExc ValueError ("Unsupported resolution: " +++ target_resolution))
  | Some target_height =>
      bind_exc (int_true_divide original_width original_height) (fun aspect_ratio =>
      bind_exc (int_mul_float target_height aspect_ratio) (fun scaled =>
      bind_exc (int_of_float scaled) (fun target_width =>
        let target_width :=
          if negb (target_width mod 2 =? 0)%Z then (target_width + 1)%Z else target_width in
        let target_height :=
          if negb (target_height mod 2 =? 0)%Z then (target_height + 1)%Z else target_height in
        inr (target_width, target_height))))
  end.

(** ** [estimate_output_size] ([ffmpeg_utils.py]) *)

Definition times (input_size : Z) (factor : float) : exc + number :=
  bind_exc (int_mul_float input_size factor) (fun x => inr (Float x)).

Definition estimate_output_size (input_size : Z) (operation : string)
           (resolution : option string) : exc + number :=
  let default := inr (Int input_size) in
  if String.eqb operation "encode" then
    match resolution with
    | Some r =>
        if String.eqb r "720p" then times input_size f_0_6
        else if String.eqb r "480p" then times input_size f_0_4
        else if String.eqb r "360p" then times input_size f_0_25
        else default
    | None => default
    end
  else if String.eqb operation "extract_audio" then times input_size f_0_1
  else if String.eqb operation "add_audio" || String.eqb operation "embed_subtitles"
  then times input_size f_1_1
  else default.

(** ** [ProgressTracker.update_progress] ([progress_tracker.py])

    The fields of the tracker that decide what [update_progress] awaits.
    The text of the message is not modelled: it is only passed to
    [edit_text]. *)
Record tracker := mkTracker {
  t_now : N;                       (* [time.time()] *)
  t_log : list (N * event);
  start_time : N;
  total_input_bytes : Z;
  total_output_bytes : Z;
  last_update_time : N;
  update_interval : N
}.

#[export] Instance tracker_task : Task tracker := {
  clock := t_now;
  set_clock t s := mkTracker t (t_log s) (start_time s) (total_input_bytes s)
                             (total_output_bytes s) (last_update_time s) (update_interval s);
  record ev s := mkTracker (t_now s) (t_log s ++ [ev]) (start_time s) (total_input_bytes s)
                           (total_output_bytes s) (last_update_time s) (update_interval s)
}.

(** Truth value of an [Optional[int]]. *)
Definition truthy (o : option Z) : bool :=
  match o with
  | Some n => negb (n =? 0)%Z
  | None => false
  end.

Definition store_totals (input_bytes output_bytes : option Z) : M tracker unit :=
  fun s => Ok tt (mkTracker (t_now s) (t_log s) (start_time s)
                            (match input_bytes with Some n => n | None => total_input_bytes s end)
                            (match output_bytes with Some n => n | None => total_output_bytes s end)
                            (last_update_time s) (update_interval s)).

Definition set_last_update_time (t : N) : M tracker unit :=
  fun s => Ok tt (mkTracker (t_now s) (t_log s) (start_time s) (total_input_bytes s)
                            (total_output_bytes s) t (update_interval s)).

(** [edit_text] is what awaiting [self.progress_message.edit_text(text)]
    does. *)
Definition update_progress (edit_text : awaited unit)
           (input_bytes output_bytes : option Z) : M tracker unit :=
  store_totals input_bytes output_bytes ;;
  current_time <- (fun s => Ok (t_now s) s) ;;
  last <- (fun s => Ok (last_update_time s) s) ;;
  interval <- (fun s => Ok (update_interval s) s) ;;
  (* time_since_last_update < self.update_interval *)
  if (current_time <? last + interval)%N && negb (truthy input_bytes || truthy output_bytes)
  then ret tt
  else
    try_except
      (emit EvEditText ;;
       await edit_text ;;
       set_last_update_time current_time)
      is_Exception
      (fun _ => ret tt).

(** ** Observations on a log *)

(** The chunks yielded, oldest first. *)
Fixpoint yielded (tr : list (N * event)) : list bytes :=
  match tr with
  | [] => []
  | (_, EvYield c) :: tr' => c :: yielded tr'
  | _ :: tr' => yielded tr'
  end.

(** The non-empty results of [process.stdout.read], oldest first: what the
    child wrote to its standard output, as the reader delivered it. *)
Fixpoint read_from_stdout (tr : list (N * event)) : list bytes :=
  match tr with
  | [] => []
  | (_, EvStdoutRead (b :: c)) :: tr' => (b :: c) :: read_from_stdout tr'
  | _ :: tr' => read_from_stdout tr'
  end.

(** Whether a call of [process.kill()] returned. *)
Fixpoint killed (tr : list (N * event)) : bool :=
  match tr with
  | [] => false
  | (_, EvKill) :: _ => true
  | _ :: tr' => killed tr'
  end.

(** The times at which [process.stdin.write] was called. *)
Fixpoint write_times (tr : list (N * event)) : list N :=
  match tr with
  | [] => []
  | (t, EvStdinWrite _) :: tr' => t :: write_times tr'
  | _ :: tr' => write_times tr'
  end.

(** The times at which [process.stdout.read] returned. *)
Fixpoint read_times (tr : list (N * event)) : list N :=
  match tr with
  | [] => []
  | (t, EvStdoutRead _) :: tr' => t :: read_times tr'
  | _ :: tr' => read_times tr'
  end.

(** The state a computation ends in. *)
Definition state_of {S A} (r : res S A) : S :=
  match r with Ok _ s => s | Exc _ s => s | Hang s => s end.

(** The data of a script of awaited results, when all of them return. *)
Fixpoint returned (ops : list (awaited bytes)) : option (list bytes) :=
  match ops with
  | [] => Some []
  | Returns _ c :: ops' => option_map (cons c) (returned ops')
  | _ :: _ => None
  end.

(** The seconds a script of awaited results takes. *)
Fixpoint duration {A} (ops : list (awaited A)) : N :=
  match ops with
  | [] => 0
  | Returns dt _ :: ops' => dt + duration ops'
  | Raises dt _ :: _ => dt
  | Never :: _ => 0
  end.

(** The bytes of a list of chunks. *)
Definition joined (chunks : list bytes) : bytes := List.concat chunks.

(** ** Oracles used in the examples *)

Definition b (s : string) : bytes := list_byte_of_string s.

(** A child that echoes its input and closes its output once its input is
    closed (a passthrough such as [cat]). *)
Definition passthrough : program :=
  fun written closed =>
    mkChild (map (fun c => Returns 1 c) written ++ (if closed then [] else [Never]))
            (if closed then Some (0%N, 0%Z) else None) [].

(** A child that neither reads its input nor writes anything. *)
Definition stalled : program := fun _ _ => mkChild [Never] None [].

(** A child that ignores its input, writes nothing and exits at once. *)
Definition exits_at_once : program := fun _ _ => mkChild [] (Some (0%N, 0%Z)) [].

(** A child that writes [out] in one piece after [dt] seconds, then exits
    with [rc], leaving [err] on stderr. *)
Definition one_shot (dt : N) (out : bytes) (rc : Z) (err : bytes) : program :=
  fun _ _ => mkChild [Returns dt out] (Some (dt, rc)) err.

Definition spawns (prog : program) : os := fun _ => Returns 0 prog.

Definition ffmpeg : list string := ["ffmpeg"%string; "-i"%string; "pipe:0"%string; "pipe:1"%string].

(** A file system with room and a chat that answers in two seconds. *)
Definition accepting : sink := mkSink (fun _ _ => None) (fun _ => Returns 2 tt).

(** A file system that is full. *)
Definition disk_full : sink :=
  mkSink (fun _ _ => Some (mkExc OSError "[Errno 28] No space left on device"))
         (fun _ => Returns 2 tt).

(** A six-byte video delivered in three chunks, one per second. *)
Definition small_video : telegram :=
  mkTelegram 6 [Returns 1 (b "ab"); Returns 1 (b "cd"); Returns 1 (b "ef")].

(** The same chunks, all available at once. *)
Definition ready_video : telegram :=
  mkTelegram 6 [Returns 0 (b "ab"); Returns 0 (b "cd"); Returns 0 (b "ef")].

(** A video one byte above the limit. *)
Definition oversize_video : telegram :=
  mkTelegram (max_file_size + 1) [Returns 1 (b "ab")].


(** An observer that takes [dt] seconds per call, and one that never
    returns. *)
Definition slow_observer (dt : N) : observer := Some (fun _ _ => Returns dt tt).
Definition stuck_observer : observer := Some (fun _ _ => Never).

(** A child whose two output chunks are ready at once. *)
Definition two_chunks : program :=
  fun _ _ => mkChild [Returns 0 (b "xx"); Returns 0 (b "yy")] (Some (0%N, 0%Z)) [].

(** ** Notions used in the statements *)

(** What the reader delivers from a script before its first end of stream
    or failing read: the bytes the child wrote to its standard output. *)
Fixpoint written (outs : list (awaited bytes)) : list bytes :=
  match outs with
  | Returns _ (x :: c) :: outs' => (x :: c) :: written outs'
  | _ => []
  end.

(** ** Relations between the states of a run *)

(** [grows w w']: the log was only extended, no task was added, and a child
    that had been spawned is still there. *)
Definition grows (w w' : world) : Prop :=
  (exists tr, trace w' = trace w ++ tr) /\
  tasks w' = tasks w /\
  (proc w <> NotSpawned -> proc w' <> NotSpawned).

(** [calm w w']: moreover nothing was read or yielded and the generator
    object was not touched. *)
Definition calm (w w' : world) : Prop :=
  grows w w' /\
  yielded (trace w') = yielded (trace w) /\
  read_from_stdout (trace w') = read_from_stdout (trace w) /\
  gen w' = gen w.

(** [still w w']: as [calm], but the generator object may have changed. *)
Definition still (w w' : world) : Prop :=
  grows w w' /\
  yielded (trace w') = yielded (trace w) /\
  read_from_stdout (trace w') = read_from_stdout (trace w).

(** The generator's frame holds a process. *)
Definition has_process (w : world) : Prop :=
  exists p outs ob, gen w = PwfAtYield p outs ob.

(** The error a handler of the outer [try] raises for [e] when
    [process.kill()] lets it. *)
Definition handled (e : exc) : exc :=
  if is_TimeoutError e then timed_out else processing_failed e.



(** An observer that always returns. *)
Definition observer_returns (cb : observer) : Prop :=
  match cb with
  | None => True
  | Some f => forall a b, exists dt, f a b = Returns dt tt
  end.

(** What one pass of the read loop, run from [w] on the script [outs], may
    end in: the next chunk of the script read and yielded, or nothing read
    or yielded. *)
Definition pass_post (p : running) (outs : list (awaited bytes)) (ob : Z) (w : world)
           (r : res world (option bytes * pwf_state)) : Prop :=
  match r with
  | Ok (Some c, st) w' =>
      exists d outs', outs = Returns d c :: outs' /\ c <> [] /\
        st = PwfAtYield p outs' (ob + len c)%Z /\ grows w w' /\
        yielded (trace w') = yielded (trace w) ++ [c] /\
        read_from_stdout (trace w') = read_from_stdout (trace w) ++ [c]
  | Ok (None, st) w' =>
      still w w' /\ written outs = [] /\ st = PwfClosed /\ proc w' = Exited 0 /\
      exists f, r_feed p = Ok tt f
  | Exc _ w' => still w w' /\ gen w' = PwfAtYield p outs ob
  | Hang w' => still w w'
  end.

(** The same for [anext], which also stores the generator state. *)
Definition anext_post (p : running) (outs : list (awaited bytes)) (ob : Z) (w : world)
           (r : res world (option bytes)) : Prop :=
  match r with
  | Ok (Some c) w' =>
      exists d outs', outs = Returns d c :: outs' /\ c <> [] /\
        gen w' = PwfAtYield p outs' (ob + len c)%Z /\
        grows w w' /\
        yielded (trace w') = yielded (trace w) ++ [c] /\
        read_from_stdout (trace w') = read_from_stdout (trace w) ++ [c]
  | Ok None w' =>
      still w w' /\ written outs = [] /\ gen w' = PwfClosed /\ proc w' = Exited 0 /\
      exists f, r_feed p = Ok tt f
  | Exc e w' => still w w' /\ gen w' = PwfClosed /\ (is_Exception e = true -> proc w' <> Running)
  | Hang w' => still w w'
  end.

(** The state right after [start]: child spawned at [t0], feed task
    created. *)
Definition feed_of (a : pwf_args) (t0 : N) : feed_task :=
  feed_input (a_telegram a) (a_input_stream a) (a_progress_callback a)
             (mkFeeder t0 [] [] false).

Definition child_of (a : pwf_args) (prog : program) (t0 : N) : child :=
  prog (f_stdin (feeder_of (feed_of a t0))) (f_closed (feeder_of (feed_of a t0))).

Definition started (a : pwf_args) (t0 : N) (w : world) : world :=
  add_task (feed_of a t0)
    (log (t0, EvCreateTask)
       (log (t0, EvSpawn (a_ffmpeg_cmd a)) (set_proc Running (set_now t0 w)))).

(** The frame the generator has from the spawn on. *)
Definition frame_of (a : pwf_args) (prog : program) (t0 : N) : pwf_state :=
  PwfAtYield (mkRunning (feed_of a t0) (child_of a prog t0) t0)
             (c_stdout (child_of a prog t0)) 0.

(** The generator is suspended at [yield], and what it has yielded so far
    followed by what its script still holds is [W]. *)
Definition on_track (W : list bytes) (w : world) : Prop :=
  exists p outs ob, gen w = PwfAtYield p outs ob /\
                    yielded (trace w) ++ written outs = W /\
                    read_from_stdout (trace w) = yielded (trace w).

(** What was yielded is what was read, a prefix of [W], and all of [W]
    when the computation returned. *)
Definition delivers {A} (W : list bytes) (r : res world A) : Prop :=
  read_from_stdout (trace (state_of r)) = yielded (trace (state_of r)) /\
  (exists rest, yielded (trace (state_of r)) ++ rest = W) /\
  (forall x w', r = Ok x w' -> yielded (trace w') = W).

(** The computation extended the state [w] and did not return. *)
Definition stopped_after {A} (w : world) (r : res world A) : Prop :=
  grows w (state_of r) /\ forall x w', r <> Ok x w'.

(** The state after a chunk was read at [t] and yielded. *)
Definition after_yield (st : pwf_state) (t : N) (c : bytes) (w : world) : world :=
  set_gen st (log (t, EvYield c) (log (t, EvStdoutRead c) (set_now t w))).

(** The exception a computation raised, if it did. *)
Definition raised {S A} (r : res S A) : option exc :=
  match r with Exc e _ => Some e | _ => None end.

(** A diagnostic output one byte longer than 64 KiB. *)
Definition long_stderr : bytes := List.repeat "x"%byte (N.to_nat 65537).


(** A float that is zero or positive, finite and below [2 ^ B]. *)
Definition below (B : Z) (x : float) : Prop :=
  match x with
  | S754_zero false => True
  | S754_finite false m e => (Zdigits2 (Z.pos m) + e <= B /\ e <= 971)%Z
  | _ => False
  end.

(** ** The order on numbers, and rounding to 53 digits *)

Section Numbers.
Local Open Scope Z_scope.

(** The exact value of a number: an infinity, not a number, or
    [m * 2 ^ e]. *)
Inductive xval :=
| NegInf
| Fin (m e : Z)
| PosInf
| NaN.

Definition value_of (a : number) : xval :=
  match a with
  | Int n => Fin n 0
  | Float (S754_zero _) => Fin 0 0
  | Float (S754_finite s m e) => Fin (cond_Zopp s (Z.pos m)) e
  | Float (S754_infinity s) => if s then NegInf else PosInf
  | Float S754_nan => NaN
  end.

Definition fin_leb (m1 e1 m2 e2 : Z) : bool :=
  let e := Z.min e1 e2 in m1 * 2 ^ (e1 - e) <=? m2 * 2 ^ (e2 - e).

(** [a <= b] on two numbers, as Python compares an [int] or a [float]
    with another: by their exact values, without converting the [int]. *)
Definition num_leb (a b : number) : bool :=
  match value_of a, value_of b with
  | NaN, _ | _, NaN => false
  | NegInf, _ | _, PosInf => true
  | Fin m1 e1, Fin m2 e2 => fin_leb m1 e1 m2 e2
  | _, _ => false
  end.

(** [a > p / q] for a positive [q], in exact arithmetic. *)
Definition exceeds (a : number) (p q : Z) : bool :=
  match value_of a with
  | Fin m e => if 0 <=? e then p <? q * m * 2 ^ e else p * 2 ^ (- e) <? q * m
  | PosInf => true
  | _ => false
  end.

(** [m / 2 ^ k] rounded to the nearest integer, ties to even. *)
Definition rne (m k : Z) : Z :=
  let q := m / 2 ^ k in
  match 2 * (m mod 2 ^ k) ?= 2 ^ k with
  | Lt => q
  | Eq => if Z.even q then q else q + 1
  | Gt => q + 1
  end.

(** A positive integer rounded to 53 significant digits. *)
Definition rnd (n : Z) : Z :=
  let k := Z.max 0 (Zdigits2 n - 53) in rne n k * 2 ^ k.

(** What [shr_1] has kept of [m] after [n] shifts: the quotient, the
    digit shifted out last, and whether anything below it was set. *)
Definition shifted (m : Z) (n : Z) (mrs : shr_record) : Prop :=
  shr_m mrs = m / 2 ^ n /\
  exists t, m mod 2 ^ n = (if shr_r mrs then 2 ^ n / 2 else 0) + t /\
            0 <= t /\ 2 * t < 2 ^ n /\
            shr_s mrs = negb (t =? 0) /\
            (shr_r mrs = true -> 1 <= n).

(** [f] has the sign [s] and the magnitude [n * 2 ^ e]; it is an infinity
    exactly when that magnitude is beyond the range of a float. *)
Definition is_scaled (f : float) (s : bool) (n e : Z) : Prop :=
  match f with
  | S754_finite s' m' e' =>
      s' = s /\ e <= e' /\ Z.pos m' * 2 ^ (e' - e) = n /\ Zdigits2 n + e <= 1024
  | S754_infinity s' => s' = s /\ 1024 < Zdigits2 n + e
  | _ => False
  end.

(** The literals of [estimate_output_size]: a 53-digit mantissa, and a
    value that is at most the literal [1.1]. *)
Definition is_factor (mc : positive) (ec : Z) : Prop :=
  2 ^ 52 <= Z.pos mc < 2 ^ 53 /\ -56 <= ec <= -52 /\
  Z.pos mc <= 4953959590107546 * 2 ^ (-52 - ec).

End Numbers.

(** ** The end of the generator body *)

(** The moment [wait_for] starts: the read loop is over and the feed task
    is done. *)
Definition wait_start (w : world) (f : feeder) : N := N.max (now w) (f_now f).

(** The wait that starts at [t] finds the exit of the child, [d] seconds
    after the spawn: the exit came before [t], or it comes before the
    timeout and the stderr reader takes in all of stderr. *)
Definition exit_found (p : running) (t d : N) : Prop :=
  (r_spawned_at p + d < t)%N \/
  ((len (c_stderr (r_child p)) <= 2 * stream_limit)%Z /\
   (r_spawned_at p + d < t + processing_timeout)%N).

(** The state after the child was seen to have exited with [rc]. *)
Definition exited (p : running) (d : N) (rc : Z) (w : world) (f : feeder) : world :=
  set_proc (Exited rc)
    (set_now (N.max (wait_start w f) (r_spawned_at p + d)) (set_now (wait_start w f) w)).

(** ** Observations on the feed task *)

(** The chunks a script of awaited results hands over before its first
    failure or stall. *)
Fixpoint delivered (ops : list (awaited bytes)) : list bytes :=
  match ops with
  | Returns _ c :: ops' => c :: delivered ops'
  | _ => []
  end.

(** The input totals passed to [progress_callback], oldest first. *)
Fixpoint progress_inputs (tr : list (N * event)) : list Z :=
  match tr with
  | [] => []
  | (_, EvProgress (Some n) _) :: tr' => n :: progress_inputs tr'
  | _ :: tr' => progress_inputs tr'
  end.

(** The byte counts after each chunk of a list, counting from [total]. *)
Fixpoint running_totals (total : Z) (chunks : list bytes) : list Z :=
  match chunks with
  | [] => []
  | c :: chunks' => (total + len c)%Z :: running_totals (total + len c)%Z chunks'
  end.

(** What the feed loop, run from [s] on the script [rest] with [total]
    bytes counted so far, has done when it stops, however it stops: the
    chunks written are a prefix of what the script delivers (all of it
    when the loop returned), stdin was not closed, and the observer was
    told the running total after each write. *)
Definition fed (cb : observer) (rest : list (awaited bytes)) (total : Z) (s : feeder)
           (r : res feeder unit) : Prop :=
  exists pre,
    f_stdin (state_of r) = f_stdin s ++ pre /\
    (exists post, pre ++ post = delivered rest) /\
    f_closed (state_of r) = f_closed s /\
    progress_inputs (f_trace (state_of r)) =
      progress_inputs (f_trace s) ++
      match cb with Some _ => running_totals total pre | None => [] end /\
    (forall s', r = Ok tt s' -> returned rest = Some pre).

(** [same_tmp w w']: the temporary file was not touched. *)
Definition same_tmp (w w' : world) : Prop := tmp_file w' = tmp_file w.

(** ** Python strings, lists and dicts used by the command builders *)

Section Strings.
Local Open Scope string_scope.

(** [str(n)] of an [int]: its decimal digits, with a minus sign when
    negative. *)
Definition str_of_int (n : Z) : string := NilZero.string_of_int (Z.to_int n).

Definition is_digit (c : ascii) : bool :=
  (48 <=? nat_of_ascii c)%nat && (nat_of_ascii c <=? 57)%nat.

Fixpoint all_digits (s : string) : bool :=
  match s with
  | "" => true
  | String c s' => is_digit c && all_digits s'
  end.

(** [int(s)] of a non-empty string of ASCII digits; every other string
    raises [ValueError] here.  (Python's [int] also accepts a sign,
    surrounding white space and underscores between digits; no caller in
    these files passes such a string.) *)
Definition int_of_str (s : string) : exc + Z :=
  match (if all_digits s then NilZero.int_of_string s else None) with
  | Some d => inr (Z.of_int d)
  | None => inl (mkExc ValueError ("invalid literal for int() with base 10: '" +++ s +++ "'"))
  end.

(** [s[:-1]] *)
Fixpoint drop_last (s : string) : string :=
  match s with
  | "" => ""
  | String c "" => ""
  | String c s' => String c (drop_last s')
  end.

(** [d.get(key)] on a dict with [str] keys, in insertion order. *)
Fixpoint dict_get {V} (key : string) (d : list (string * V)) : option V :=
  match d with
  | [] => None
  | (k, v) :: d' => if String.eqb key k then Some v else dict_get key d'
  end.

(** [x in l] on a list of [str]. *)
Definition str_in (x : string) (l : list string) : bool := existsb (String.eqb x) l.

(** [a or b] on an optional [str]: [None] and the empty string are
    false. *)
Definition str_or (a : option string) (b : string) : string :=
  match a with
  | Some (String c s) => String c s
  | _ => b
  end.

(** An exception of a pure function, raised in a task. *)
Definition lift_exc {S A} (r : exc + A) : M S A :=
  match r with
  | inl e => raise e
  | inr a => ret a
  end.

End Strings.

(** ** The command builders ([ffmpeg_stream.py]) *)

Section Commands.
Local Open Scope string_scope.

Record resolution_setting := mkResolution {
  rs_width : Z;
  rs_height : Z;
  rs_bitrate : string
}.

Definition resolution_settings : list (string * resolution_setting) :=
  [("720p", mkResolution 1280 720 "2000k");
   ("480p", mkResolution 854 480 "1000k");
   ("360p", mkResolution 640 360 "500k")].

Definition get_resolution_encode_cmd (resolution : string) : exc + list string :=
  match dict_get resolution resolution_settings with
  | None =>
      inl (mkExc ValueError ("Unsupported resolution: " +++ resolution +++
                             ". Use '720p', '480p', or '360p'"))
  | Some settings =>
      bind_exc (int_of_str (drop_last (rs_bitrate settings))) (fun maxrate =>
      inr ["ffmpeg"; "-i"; "pipe:0";
           "-vf"; "scale=" +++ str_of_int (rs_width settings) +++ ":" +++
                  str_of_int (rs_height settings);
           "-c:v"; "libx264";
           "-preset"; "medium";
           "-crf"; "23";
           "-maxrate"; rs_bitrate settings;
           "-bufsize"; str_of_int (maxrate * 2) +++ "k";
           "-pix_fmt"; "yuv420p";
           "-c:a"; "aac";
           "-b:a"; "128k";
           "-ar"; "44100";
           "-f"; "mp4";
           "-movflags"; "faststart";
           "pipe:1"])
  end.

Record format_setting := mkFormat {
  fs_codec : string;
  fs_extension : string
}.

Definition format_settings : list (string * format_setting) :=
  [("mp3", mkFormat "libmp3lame" "mp3");
   ("ogg", mkFormat "libvorbis" "ogg");
   ("wav", mkFormat "pcm_s16le" "wav")].

Definition get_audio_extract_cmd (format bitrate : string) : exc + list string :=
  match dict_get format format_settings with
  | None =>
      inl (mkExc ValueError ("Unsupported audio format: " +++ format +++
                             ". Use 'mp3', 'ogg', or 'wav'"))
  | Some settings =>
      inr ["ffmpeg"; "-i"; "pipe:0";
           "-vn";
           "-c:a"; fs_codec settings;
           "-b:a"; bitrate;
           "-ar"; "44100";
           "-ac"; "2";
           "-f"; format;
           "pipe:1"]
  end.

Definition get_subtitle_extract_cmd (track_index : Z) : list string :=
  ["ffmpeg"; "-i"; "pipe:0";
   "-map"; "0:s:" +++ str_of_int track_index;
   "-c:s"; "srt";
   "-f"; "srt";
   "pipe:1"].

Definition default_style : string :=
  "FontSize=20," +++ "PrimaryColour=&Hffffff," +++ "SecondaryColour=&Hffffff," +++
  "OutlineColour=&H0," +++ "BackColour=&H80000000," +++ "Bold=0," +++ "Italic=0," +++
  "Underline=0," +++ "StrikeOut=0," +++ "Spacing=0," +++ "Angle=0," +++ "BorderStyle=1," +++
  "Outline=1," +++ "Shadow=0," +++ "Alignment=2," +++ "MarginL=0," +++ "MarginR=0," +++
  "MarginV=0".

Definition get_subtitle_embed_cmd (subtitle_file_path : string)
           (subtitle_style : option string) : list string :=
  let style := str_or subtitle_style default_style in
  ["ffmpeg"; "-i"; "pipe:0";
   "-i"; subtitle_file_path;
   "-c:v"; "copy";
   "-c:a"; "copy";
   "-c:s"; "mov_text";
   "-disposition:s:0"; "default";
   "-metadata:s:s:0"; "language=eng";
   "-f"; "mp4";
   "pipe:1"].

Definition get_video_info_cmd : list string :=
  ["ffprobe"; "-v"; "quiet"; "-print_format"; "json"; "-show_format"; "-show_streams";
   "pipe:0"].

Definition has_subtitles_cmd : list string :=
  ["ffprobe"; "-v"; "error"; "-select_streams"; "s";
   "-show_entries"; "stream=codec_name";
   "-of"; "default=noprint_wrappers=1:nokey=1";
   "pipe:0"].

End Commands.

(** ** The helpers and wrappers of [ffmpeg_utils.py] *)

Section Wrappers.
Local Open Scope string_scope.

Definition get_supported_resolutions : list string := ["720p"; "480p"; "360p"].

Definition get_supported_audio_formats : list string := ["mp3"; "ogg"; "wav"].

Definition get_supported_subtitle_formats : list string := ["srt"].

Definition validate_resolution (resolution : string) : bool :=
  str_in resolution get_supported_resolutions.

Definition validate_audio_format (format : string) : bool :=
  str_in format get_supported_audio_formats.

Definition validate_subtitle_format (format : string) : bool :=
  str_in format get_supported_subtitle_formats.

(** [s.upper()] on ASCII text.  The wrappers apply it to the format only
    after [get_audio_extract_cmd] has accepted it, so to a key of
    [format_settings]. *)
Definition upper_char (c : ascii) : ascii :=
  let n := nat_of_ascii c in
  if (97 <=? n)%nat && (n <=? 122)%nat then ascii_of_nat (n - 32) else c.

Fixpoint upper (s : string) : string :=
  match s with
  | "" => ""
  | String c s' => String (upper_char c) (upper s')
  end.

(** The chat and the file system as the wrappers see them: what
    [send_processed_video] meets, given the caption it is called with. *)
Definition captioned := string -> sink.

(** [encode_video_stream(client, message, resolution, caption)] *)
Definition encode_video_stream (sys : os) (tg : telegram) (resolution : string)
           (caption : option string) (k : captioned) : M world unit :=
  cmd <- lift_exc (get_resolution_encode_cmd resolution) ;;
  let final_caption := str_or caption ("Video encoded to " +++ resolution) in
  process_video_stream sys tg cmd None (k final_caption).

(** [extract_audio_stream(client, message, format, bitrate, caption)] *)
Definition extract_audio_stream (sys : os) (tg : telegram) (format bitrate : string)
           (caption : option string) (k : captioned) : M world unit :=
  cmd <- lift_exc (get_audio_extract_cmd format bitrate) ;;
  let final_caption := str_or caption ("Audio extracted as " +++ upper format) in
  process_video_stream sys tg cmd None (k final_caption).

(** [extract_subtitles_stream(client, message, track_index, caption)] *)
Definition extract_subtitles_stream (sys : os) (tg : telegram) (track_index : Z)
           (caption : option string) (k : captioned) : M world unit :=
  let cmd := get_subtitle_extract_cmd track_index in
  let final_caption :=
    str_or caption ("Subtitles extracted from track " +++ str_of_int track_index) in
  process_video_stream sys tg cmd None (k final_caption).

(** [embed_subtitles_stream(client, message, subtitle_file_path, caption)] *)
Definition embed_subtitles_stream (sys : os) (tg : telegram) (subtitle_file_path : string)
           (caption : option string) (k : captioned) : M world unit :=
  let cmd := get_subtitle_embed_cmd subtitle_file_path None in
  let final_caption := str_or caption "Subtitles embedded into video" in
  process_video_stream sys tg cmd None (k final_caption).

End Wrappers.

(** ** [merge_videos] ([ffmpeg_utils.py]) *)

Section Merge.
Local Open Scope string_scope.

(** The files of the working directory, by name, with their text. *)
Definition files := list (string * string).

Definition file_exists (name : string) (fs : files) : bool :=
  match dict_get name fs with
  | Some _ => true
  | None => false
  end.

Fixpoint remove_file (name : string) (fs : files) : files :=
  match fs with
  | [] => []
  | (n, c) :: fs' =>
      if String.eqb name n then remove_file name fs' else (n, c) :: remove_file name fs'
  end.

(** [open(name, "w")], the writes and the close: the file is created or
    replaced.  The working directory is taken to be writable. *)
Definition write_file (name content : string) (fs : files) : files :=
  (name, content) :: remove_file name fs.

(** What [subprocess.run(cmd, check=True)] meets: the program cannot be
    started, or it runs, leaves the directory in some state and exits
    with a return code. *)
Inductive run_result :=
| NotStarted (e : exc)
| Completed (returncode : Z) (after : files).

Definition shell := list string -> files -> run_result.

Inductive merge_error :=
| CalledProcessError (returncode : Z) (cmd : list string)
| Raised (e : exc).

Definition newline : string := String (ascii_of_nat 10) "".

(** [f"file '{fpath}'\n"] *)
Definition concat_entry (fpath : string) : string := "file '" +++ fpath +++ "'" +++ newline.

Definition merge_cmd (output_path : string) : list string :=
  ["ffmpeg"; "-y"; "-f"; "concat"; "-safe"; "0"; "-i"; "inputs.txt"; "-c"; "copy"; output_path].

(** The error raised, if any, and the files left. *)
Definition merge_videos (sh : shell) (input_files : list string) (output_path : string)
           (fs : files) : option merge_error * files :=
  let fs1 := write_file "inputs.txt" (String.concat "" (map concat_entry input_files)) fs in
  match sh (merge_cmd output_path) fs1 with
  | NotStarted e => (Some (Raised e), fs1)
  | Completed returncode fs2 =>
      if (returncode =? 0)%Z
      then (None, if file_exists "inputs.txt" fs2 then remove_file "inputs.txt" fs2 else fs2)
      else (Some (CalledProcessError returncode (merge_cmd output_path)), fs2)
  end.

End Merge.

(** ** Notions used in the statements about commands *)

Section CommandNotions.
Local Open Scope string_scope.

(** A command that reads its input from stdin and writes its output to
    stdout, as [process_with_ffmpeg] needs it. *)
Definition piped (cmd : list string) : Prop :=
  firstn 3 cmd = ["ffmpeg"; "-i"; "pipe:0"] /\ last cmd "" = "pipe:1".

(** The argument that follows the first occurrence of [flag]. *)
Fixpoint arg_after (flag : string) (cmd : list string) : option string :=
  match cmd with
  | [] => None
  | a :: rest =>
      if String.eqb a flag then hd_error rest else arg_after flag rest
  end.

End CommandNotions.

(** ** The encode handlers ([encode.py]) and [show_error] ([progress_tracker.py]) *)

Section Handlers.
Local Open Scope string_scope.

(** [s.replace(old, new)]: every occurrence of [old], found from the
    left without overlap, is replaced; an empty [old] matches between
    the characters. *)
Fixpoint replace_from (old new : string) (skip : nat) (s : string) : string :=
  match s with
  | "" => ""
  | String c s' =>
      match skip with
      | S n => replace_from old new n s'
      | O =>
          if prefix old s
          then new +++ replace_from old new (String.length old - 1) s'
          else String c (replace_from old new 0 s')
      end
  end.

Fixpoint interleave (new s : string) : string :=
  match s with
  | "" => new
  | String c s' => new +++ String c (interleave new s')
  end.

Definition replace (s old new : string) : string :=
  match old with
  | "" => interleave new s
  | _ => replace_from old new 0 s
  end.

(** The text [show_error] sends with [message.reply_text]. *)
Definition show_error (operation error : string) : string :=
  "❌ " +++ operation +++ " failed!" +++ newline +++ newline +++
  "🔍 Error: " +++ error +++ newline +++ newline +++
  "💡 Please try again or contact support if the issue persists".

(** An entry of [user_encoding_states]. *)
Record encoding_state := mkEncodingState {
  es_resolution : string;
  es_stage : string
}.

(** [user_encoding_states]: a dict keyed by user id, in insertion order. *)
Definition encoding_states := list (Z * encoding_state).

Fixpoint states_get (user_id : Z) (d : encoding_states) : option encoding_state :=
  match d with
  | [] => None
  | (k, v) :: d' => if (user_id =? k)%Z then Some v else states_get user_id d'
  end.

(** [d[user_id] = v] *)
Fixpoint states_set (user_id : Z) (v : encoding_state) (d : encoding_states)
  : encoding_states :=
  match d with
  | [] => [(user_id, v)]
  | (k, x) :: d' =>
      if (user_id =? k)%Z then (k, v) :: d' else (k, x) :: states_set user_id v d'
  end.

(** [d.pop(user_id, None)] *)
Fixpoint states_pop (user_id : Z) (d : encoding_states) : encoding_states :=
  match d with
  | [] => []
  | (k, x) :: d' => if (user_id =? k)%Z then d' else (k, x) :: states_pop user_id d'
  end.

(** How a handler ends: with the text it passes to [message.reply_text],
    its last action, or with a [KeyError]. *)
Inductive reply :=
| Reply (text : string)
| KeyError (key : string).

Definition resolution_names : list (string * string) :=
  [("720p", "720p (HD)"); ("480p", "480p (SD)"); ("360p", "360p (Mobile)")].

(** [encode_resolution_command], registered for the commands
    [encode720], [encode480] and [encode360]: [command] is
    [message.command[0]], [user_id] is [message.from_user.id].  The
    result is the dict it leaves and how it ends. *)
Definition encode_resolution_command (user_id : Z) (command : string)
           (user_encoding_states : encoding_states) : encoding_states * reply :=
  let resolution := replace command "encode" "" in
  if negb (validate_resolution resolution)
  then (user_encoding_states,
        Reply (show_error "Invalid resolution"
                          ("Resolution " +++ resolution +++ " is not supported")))
  else
    let user_encoding_states :=
      states_set user_id (mkEncodingState resolution "waiting_for_video")
                 user_encoding_states in
    match dict_get resolution resolution_names with
    | None => (user_encoding_states, KeyError resolution)
    | Some name =>
        (user_encoding_states,
         Reply ("🎯 Selected resolution: " +++ name +++ newline +++ newline +++
                "📹 Now send me the video file you want to encode." +++ newline +++ newline +++
                "💡 Supported formats: MP4, AVI, MOV, MKV"))
    end.

(** [cancel_encoding] *)
Definition cancel_encoding (user_id : Z) (user_encoding_states : encoding_states)
  : encoding_states * reply :=
  match states_get user_id user_encoding_states with
  | Some _ =>
      (states_pop user_id user_encoding_states, Reply "❌ Encoding operation cancelled")
  | None => (user_encoding_states, Reply "No active encoding operation to cancel")
  end.

(** The commands [encode_resolution_command] is registered for. *)
Definition encode_commands : list string := ["encode720"; "encode480"; "encode360"].

(** The updates the two handlers receive. *)
Inductive update :=
| EncodeResolution (user_id : Z) (command : string)
| CancelEncoding (user_id : Z).

Definition handle (u : update) (states : encoding_states) : encoding_states * reply :=
  match u with
  | EncodeResolution user_id command => encode_resolution_command user_id command states
  | CancelEncoding user_id => cancel_encoding user_id states
  end.

(** The handlers run on a sequence of updates: the dict that is left and
    the replies, oldest first. *)
Fixpoint handle_all (us : list update) (states : encoding_states)
  : encoding_states * list reply :=
  match us with
  | [] => (states, [])
  | u :: us' =>
      let (states1, r) := handle u states in
      let (states2, rs) := handle_all us' states1 in
      (states2, r :: rs)
  end.

(** An update the handlers can receive: the command is one of those the
    handler is registered for. *)
Definition registered (u : update) : Prop :=
  match u with
  | EncodeResolution _ command => In command encode_commands
  | CancelEncoding _ => True
  end.

End Handlers.

(** * Properties *)

Unset Implicit Arguments.

(** ** Running the monad *)

Ltac task_unfold :=
  unfold bind, ret, raise, try_except, try_except2, emit, await,
    call_progress, stdin_write, stdin_close in *.

Lemma bind_ok {S A B} (m : M S A) (k : A -> M S B) s a s' :
  m s = Ok a s' -> bind m k s = k a s'.
Proof. unfold bind; intros ->; reflexivity. Qed.

Lemma bind_exc_left {S A B} (m : M S A) (k : A -> M S B) s e s' :
  m s = Exc e s' -> bind m k s = Exc e s'.
Proof. unfold bind; intros ->; reflexivity. Qed.

Lemma bind_hang {S A B} (m : M S A) (k : A -> M S B) s s' :
  m s = Hang s' -> bind m k s = Hang s'.
Proof. unfold bind; intros ->; reflexivity. Qed.

(** ** The feed task *)

Lemma call_progress_returns (cb : observer) a b (s : feeder) :
  observer_returns cb ->
  exists s', call_progress cb a b s = Ok tt s' /\
             f_stdin s' = f_stdin s /\ f_closed s' = f_closed s /\
             (f_now s <= f_now s')%N /\ (cb = None -> s' = s).
Proof.
  destruct cb as [f|]; simpl; intros H.
  - destruct (H a b) as [dt Hdt]. task_unfold. rewrite Hdt. simpl.
    eexists; repeat split; simpl; try reflexivity; try lia. discriminate.
  - exists s. repeat split; try reflexivity; lia.
Qed.

(** Entering the generator body costs the size check and nothing else. *)
Lemma feed_loop_created fuel tg cb total s :
  (file_size tg <= max_file_size)%Z ->
  feed_loop (S fuel) tg cb TgCreated total s =
  feed_loop (S fuel) tg cb (TgStreaming (media tg)) total
            (record (f_now s, EvSizeCheck (file_size tg)) s).
Proof.
  intros Hsz.
  assert (Hgt : (file_size tg >? max_file_size)%Z = false).
  { rewrite Z.gtb_ltb. apply Z.ltb_ge. lia. }
  simpl. unfold stream_from_telegram_next. task_unfold. rewrite Hgt. reflexivity.
Qed.

Lemma feed_loop_returns rest :
  forall chunks cb tg fuel total s,
    returned rest = Some chunks ->
    observer_returns cb ->
    (List.length rest < fuel)%nat ->
    exists s', feed_loop fuel tg cb (TgStreaming rest) total s = Ok tt s' /\
               f_stdin s' = f_stdin s ++ chunks /\
               f_closed s' = f_closed s /\
               (f_now s + duration rest <= f_now s')%N /\
               (cb = None -> f_now s' = (f_now s + duration rest)%N).
Proof.
  induction rest as [|op rest IH]; intros chunks cb tg fuel total s Hret Hcb Hfuel.
  - destruct fuel as [|fuel]; [simpl in Hfuel; lia|].
    injection Hret as <-. exists s. simpl. unfold stream_from_telegram_next. task_unfold. simpl.
    rewrite app_nil_r. repeat split; try reflexivity; lia.
  - destruct fuel as [|fuel]; [simpl in Hfuel; lia|].
    destruct op as [dt c| |]; simpl in Hret; try discriminate.
    destruct (returned rest) as [cs|] eqn:Hrest; simpl in Hret; try discriminate.
    injection Hret as <-.
    set (s1 := mkFeeder (f_now s + dt) (f_trace s ++ [((f_now s + dt)%N, EvStdinWrite c)])
                        (f_stdin s ++ [c]) (f_closed s)).
    destruct (call_progress_returns cb (Some (total + len c)%Z) None s1 Hcb)
      as (s2 & Hcall & Hin2 & Hcl2 & Hnow2 & Hnone2).
    destruct (IH cs cb tg fuel (total + len c)%Z s2 eq_refl Hcb) as (s3 & Hrun & Hin3 & Hcl3 & Hnow3 & Hnone3).
    { simpl in Hfuel. lia. }
    exists s3. split.
    + cbn [feed_loop].
      erewrite bind_ok by (unfold stream_from_telegram_next; task_unfold; reflexivity).
      cbv iota. erewrite bind_ok by (unfold stdin_write; reflexivity).
      erewrite bind_ok by exact Hcall. exact Hrun.
    + simpl duration. repeat split.
      * rewrite Hin3, Hin2. subst s1; simpl. rewrite <- app_assoc. reflexivity.
      * rewrite Hcl3, Hcl2. reflexivity.
      * subst s1; simpl in *. lia.
      * intros Hn. rewrite (Hnone3 Hn). rewrite (Hnone2 Hn). subst s1; simpl. lia.
Qed.

(** C4 (amended).  [process.stdin.write] is a plain call that queues the
    chunk: with a source that delivers [chunks] and an observer that
    returns, [feed_input] runs to completion with every chunk queued on the
    child's stdin, in order, and stdin closed, whatever the child has
    consumed (the feed task has no access to that); without an observer the
    task takes exactly the time the source takes, so no time is spent
    suspended in a write. *)
Theorem feed_input_queues_everything tg cb s chunks :
  (file_size tg <= max_file_size)%Z ->
  returned (media tg) = Some chunks ->
  observer_returns cb ->
  exists s', feed_input tg (stream_from_telegram tg) cb s = Ok tt s' /\
             f_stdin s' = f_stdin s ++ chunks /\
             f_closed s' = true /\
             (cb = None -> f_now s' = (f_now s + duration (media tg))%N).
Proof.
  intros Hsz Hret Hcb. unfold feed_input, stream_from_telegram.
  cbn [tg_remaining].
  destruct (feed_loop_returns (media tg) chunks cb tg (S (List.length (media tg))) 0%Z
              (record (f_now s, EvSizeCheck (file_size tg)) s) Hret Hcb)
    as (s1 & Hrun & Hin & Hcl & Hnow & Hnone); [lia|].
  erewrite bind_ok by (rewrite feed_loop_created by exact Hsz; exact Hrun).
  unfold stdin_close.
  eexists; split; [reflexivity|]. simpl. repeat split.
  - exact Hin.
  - intros Hn. rewrite (Hnone Hn). reflexivity.
Qed.

Lemma feed_input_queues_everything_witness :
  (file_size small_video <= max_file_size)%Z /\
  returned (media small_video) = Some [b "ab"; b "cd"; b "ef"] /\
  observer_returns None /\
  exists s', feed_input small_video (stream_from_telegram small_video) None
                        (mkFeeder 0 [] [] false) = Ok tt s' /\
             f_stdin s' = [] ++ [b "ab"; b "cd"; b "ef"] /\
             f_closed s' = true /\
             (@None (option Z -> option Z -> awaited unit) = None ->
              f_now s' = (0 + duration (media small_video))%N).
Proof.
  assert (H1 : (file_size small_video <= max_file_size)%Z) by (vm_compute; discriminate).
  assert (H2 : returned (media small_video) = Some [b "ab"; b "cd"; b "ef"]) by reflexivity.
  assert (H3 : observer_returns None) by exact I.
  exact (conj H1 (conj H2 (conj H3
    (feed_input_queues_everything small_video None (mkFeeder 0 [] [] false) _ H1 H2 H3)))).
Defined.

(** C4 as stated fails: the child neither reads its input nor produces
    output, so the run is suspended forever in the first read; the feed
    task is not suspended: it has finished at time 0 with all six bytes
    queued on stdin. *)
Lemma write_does_not_wait_for_the_child :
  let r := process_video_stream (spawns stalled) ready_video ffmpeg None accepting
                                initial_world in
  r = Hang (state_of r) /\
  tasks (state_of r) =
    [Ok tt (mkFeeder 0 [(0%N, EvSizeCheck 6); (0%N, EvStdinWrite (b "ab"));
                        (0%N, EvStdinWrite (b "cd")); (0%N, EvStdinWrite (b "ef"));
                        (0%N, EvStdinClose)]
                     [b "ab"; b "cd"; b "ef"] true)].
Proof. vm_compute. split; reflexivity. Qed.

(** ** Observations distribute over the log *)

Lemma yielded_app tr1 tr2 : yielded (tr1 ++ tr2) = yielded tr1 ++ yielded tr2.
Proof.
  induction tr1 as [|[t ev] tr1 IH]; simpl; [reflexivity|].
  destruct ev; simpl; rewrite ?IH; reflexivity.
Qed.

Lemma read_from_stdout_app tr1 tr2 :
  read_from_stdout (tr1 ++ tr2) = read_from_stdout tr1 ++ read_from_stdout tr2.
Proof.
  induction tr1 as [|[t ev] tr1 IH]; simpl; [reflexivity|].
  destruct ev; simpl; rewrite ?IH; try reflexivity.
  destruct chunk; simpl; rewrite ?IH; reflexivity.
Qed.

Lemma read_times_app tr1 tr2 : read_times (tr1 ++ tr2) = read_times tr1 ++ read_times tr2.
Proof.
  induction tr1 as [|[t ev] tr1 IH]; simpl; [reflexivity|].
  destruct ev; simpl; rewrite ?IH; reflexivity.
Qed.

Lemma killed_app tr1 tr2 : killed (tr1 ++ tr2) = killed tr1 || killed tr2.
Proof.
  induction tr1 as [|[t ev] tr1 IH]; simpl; [reflexivity|].
  destruct ev; simpl; rewrite ?IH; reflexivity.
Qed.

(** ** The observer *)

(** [update_progress] called with a non-zero byte count skips the
    throttle and awaits [edit_text]: it does not return before [edit_text]
    does. *)
Lemma update_progress_awaits_edit_text input_bytes output_bytes s :
  truthy input_bytes || truthy output_bytes = true ->
  update_progress Never input_bytes output_bytes s =
  Hang (record (t_now s, EvEditText)
               (state_of (store_totals input_bytes output_bytes s))).
Proof.
  intros Ht. unfold update_progress. task_unfold. simpl.
  rewrite Ht, andb_false_r. reflexivity.
Qed.

(** C5 (amended).  The observer is awaited on the data path: after a chunk
    has been written to stdin, and after a chunk has been yielded, the
    code awaits [progress_callback]; when that call never returns, the
    feed task writes no further chunk and the generator reads no further
    output. *)
Theorem observer_is_awaited a w p outs ob f tg rest dt c total s fuel :
  a_progress_callback a = Some f ->
  gen w = PwfAtYield p outs ob ->
  f None (Some ob) = Never ->
  f (Some (total + len c)%Z) None = Never ->
  (exists s', feed_loop (S fuel) tg (Some f) (TgStreaming (Returns dt c :: rest)) total s
              = Hang s' /\
              f_stdin s' = f_stdin s ++ [c]) /\
  (exists w', anext a w = Hang w' /\
              read_times (trace w') = read_times (trace w) /\
              yielded (trace w') = yielded (trace w)).
Proof.
  intros Hcb Hgen Hout Hin. split.
  - cbn [feed_loop].
    erewrite bind_ok by (unfold stream_from_telegram_next; task_unfold; reflexivity).
    cbv iota. erewrite bind_ok by (unfold stdin_write; reflexivity).
    unfold call_progress, bind, emit, await. rewrite Hin.
    eexists; split; [reflexivity|reflexivity].
  - unfold anext. rewrite Hgen. unfold pwf_body. rewrite Hcb.
    unfold outer_try, inner_try, try_except2, try_except, call_progress, bind, emit, await.
    rewrite Hout. eexists; split; [reflexivity|].
    simpl. rewrite read_times_app, yielded_app. simpl. rewrite !app_nil_r.
    split; reflexivity.
Qed.

Lemma observer_is_awaited_witness :
  let a := mkArgs (spawns two_chunks) ready_video TgCreated ffmpeg stuck_observer in
  let p := mkRunning (Ok tt (mkFeeder 0 [] [] true)) (two_chunks [] true) 0 in
  let w := mkWorld 0 [] Running (PwfAtYield p [Returns 0 (b "yy")] 2) None [] in
  let f : option Z -> option Z -> awaited unit := fun _ _ => Never in
  a_progress_callback a = Some f /\
  gen w = PwfAtYield p [Returns 0 (b "yy")] 2 /\
  f None (Some 2%Z) = Never /\
  f (Some (0 + len (b "ab"))%Z) None = Never /\
  (exists s', feed_loop 1 ready_video (Some f)
                        (TgStreaming (Returns 0 (b "ab") :: [Returns 0 (b "cd")])) 0
                        (mkFeeder 0 [] [] false) = Hang s' /\
              f_stdin s' = [] ++ [b "ab"]) /\
  (exists w', anext a w = Hang w' /\
              read_times (trace w') = read_times (trace w) /\
              yielded (trace w') = yielded (trace w)).
Proof.
  intros a p w f.
  assert (H1 : a_progress_callback a = Some f) by reflexivity.
  assert (H2 : gen w = PwfAtYield p [Returns 0 (b "yy")] 2) by reflexivity.
  assert (H3 : f None (Some 2%Z) = Never) by reflexivity.
  assert (H4 : f (Some (0 + len (b "ab"))%Z) None = Never) by reflexivity.
  exact (conj H1 (conj H2 (conj H3 (conj H4
    (observer_is_awaited a w p [Returns 0 (b "yy")] 2%Z f ready_video
       [Returns 0 (b "cd")] 0%N (b "ab") 0%Z (mkFeeder 0 [] [] false) 0%nat H1 H2 H3 H4))))).
Defined.

(** C5 as stated fails: with an observer that takes 1000 seconds per call
    the feed task writes its chunks at 0, 1000 and 2000 seconds instead of
    at once, and the second read of the child's output, ready at once,
    returns at 1000 seconds. *)
Lemma slow_observer_delays_the_data_path :
  write_times (f_trace (state_of
    (feed_input ready_video (stream_from_telegram ready_video) (slow_observer 1000)
                (mkFeeder 0 [] [] false)))) = [0; 1000; 2000]%N /\
  write_times (f_trace (state_of
    (feed_input ready_video (stream_from_telegram ready_video) None
                (mkFeeder 0 [] [] false)))) = [0; 0; 0]%N /\
  read_times (trace (state_of
    (process_video_stream (spawns two_chunks) ready_video ffmpeg (slow_observer 1000)
                          accepting initial_world))) = [0; 1000]%N /\
  read_times (trace (state_of
    (process_video_stream (spawns two_chunks) ready_video ffmpeg None
                          accepting initial_world))) = [0; 0]%N.
Proof. vm_compute. repeat split; reflexivity. Qed.

(** ** Relations kept by every step of a computation *)

Section Keeps.
Variable R : world -> world -> Prop.
Hypothesis R_refl : forall w, R w w.
Hypothesis R_trans : forall w1 w2 w3, R w1 w2 -> R w2 w3 -> R w1 w3.

(** [m] takes every state to a state related to it, however it ends. *)
Definition keeps {A} (m : M world A) : Prop := forall w, R w (state_of (m w)).

Lemma keeps_ret {A} (a : A) : keeps (ret a).
Proof. intros w; apply R_refl. Qed.

Lemma keeps_raise {A} (e : exc) : keeps (raise e : M world A).
Proof. intros w; apply R_refl. Qed.

Lemma keeps_bind {A B} (m : M world A) (k : A -> M world B) :
  keeps m -> (forall a, keeps (k a)) -> keeps (bind m k).
Proof.
  intros Hm Hk w. unfold bind. specialize (Hm w).
  destruct (m w) as [x w1|e w1|w1]; simpl in *; auto.
  eapply R_trans; [exact Hm | apply Hk].
Qed.

Lemma keeps_try_except {A} (m : M world A) c h :
  keeps m -> (forall e, keeps (h e)) -> keeps (try_except m c h).
Proof.
  intros Hm Hh w. unfold try_except. specialize (Hm w).
  destruct (m w) as [x w1|e w1|w1]; simpl in *; auto.
  destruct (c e); simpl; auto. eapply R_trans; [exact Hm | apply Hh].
Qed.

Lemma keeps_try_except2 {A} (m : M world A) c1 h1 c2 h2 :
  keeps m -> (forall e, keeps (h1 e)) -> (forall e, keeps (h2 e)) ->
  keeps (try_except2 m c1 h1 c2 h2).
Proof.
  intros Hm H1 H2 w. unfold try_except2. specialize (Hm w).
  destruct (m w) as [x w1|e w1|w1]; simpl in *; auto.
  destruct (c1 e); simpl; [eapply R_trans; [exact Hm | apply H1]|].
  destruct (c2 e); simpl; auto. eapply R_trans; [exact Hm | apply H2].
Qed.

Lemma keeps_update {A} (x : world -> A) (f : world -> world) :
  (forall w, R w (f w)) -> keeps (fun w => Ok (x w) (f w)).
Proof. intros H w; apply H. Qed.

Hypothesis R_now : forall w t, R w (set_now t w).

Lemma keeps_await {A} (op : awaited A) : keeps (await op).
Proof. intros w. unfold await. destruct op; simpl; auto. Qed.

Lemma keeps_await_task t : keeps (await_task t).
Proof. intros w. unfold await_task. destruct t; simpl; auto. Qed.

Hypothesis R_quiet_event :
  forall w t ev,
    match ev with EvYield _ | EvStdoutRead _ | EvSpawn _ | EvCreateTask => False | _ => True end ->
    R w (log (t, ev) w).

Lemma keeps_call_progress cb x y : keeps (call_progress cb x y).
Proof.
  destruct cb as [f|]; simpl; [|apply keeps_ret].
  apply keeps_bind; [|intros _; apply keeps_await].
  intros w. apply R_quiet_event. exact I.
Qed.

Hypothesis R_proc : forall w p, p <> NotSpawned -> R w (set_proc p w).

Lemma keeps_wait_for_process p : keeps (wait_for_process p).
Proof.
  intros w. unfold wait_for_process.
  destruct (c_exit (r_child p)) as [[d rc]|]; simpl; auto.
  destruct (_ || _); simpl; auto.
  eapply R_trans; [apply R_now | apply R_proc; discriminate].
Qed.

Lemma keeps_kill p outs : keeps (kill p outs).
Proof.
  intros w. unfold kill.
  assert (H : R w (state_of
                     match exited_before p w with
                     | Some rc =>
                         if fits (len (c_stderr (r_child p))) && drains 0 outs
                         then Exc lookup_error (set_proc (Exited rc) w)
                         else Ok tt (log (now w, EvKill) (set_proc (Exited rc) w))
                     | None => Ok tt (log (now w, EvKill) (set_proc Killed w))
                     end)).
  { destruct (exited_before p w) as [rc|]; [destruct (_ && _)|]; simpl.
    - apply R_proc; discriminate.
    - eapply R_trans; [apply (R_proc _ (Exited rc)); discriminate|].
      apply (R_quiet_event _ (now w) EvKill); exact I.
    - eapply R_trans; [apply (R_proc _ Killed); discriminate|].
      apply (R_quiet_event _ (now w) EvKill); exact I. }
  destruct (proc w); try exact H. simpl. apply R_refl.
Qed.

Lemma keeps_kill_if_process : keeps kill_if_process.
Proof.
  intros w. unfold kill_if_process. destruct (gen w); simpl; try apply R_refl.
  apply keeps_kill.
Qed.

Lemma keeps_decode b : keeps (decode b).
Proof. unfold decode. destruct (utf8_valid b); [apply keeps_ret | apply keeps_raise]. Qed.

Lemma keeps_finish p : keeps (finish p).
Proof.
  unfold finish.
  apply keeps_bind; [apply keeps_await_task | intros _].
  apply keeps_bind; [apply keeps_wait_for_process | intros _].
  apply keeps_bind; [apply keeps_update; auto | intros rc].
  assert (Hfail : keeps (error_msg <- match c_stderr (r_child p) with
                                      | [] => ret "Unknown FFmpeg error"%string
                                      | _ => decode (c_stderr (r_child p))
                                      end ;;
                         raise (ffmpeg_failed error_msg) : M world unit)).
  { apply keeps_bind; [|intros; apply keeps_raise].
    destruct (c_stderr (r_child p)); [apply keeps_ret | apply keeps_decode]. }
  destruct rc as [[|?|?]|]; [apply keeps_ret | exact Hfail ..].
Qed.

Lemma keeps_outer_try {A} (m : M world A) : keeps m -> keeps (outer_try m).
Proof.
  intros Hm. unfold outer_try. apply keeps_try_except2; [exact Hm | |];
    intros e; (apply keeps_bind; [apply keeps_kill_if_process | intros; apply keeps_raise]).
Qed.

Lemma keeps_inner_try {A} (m : M world A) : keeps m -> keeps (inner_try m).
Proof.
  intros Hm. unfold inner_try. apply keeps_try_except; [exact Hm|]. intros; apply keeps_raise.
Qed.

Hypothesis R_tmp : forall w f, R w (set_tmp f w).

Lemma keeps_temp_file_write k chunk : keeps (temp_file_write k chunk).
Proof.
  intros w. unfold temp_file_write. destruct (tmp_write k _ chunk); simpl; auto.
  eapply R_trans; [| apply R_quiet_event; exact I]. apply R_tmp.
Qed.

Lemma keeps_unlink : keeps unlink.
Proof.
  intros w. unfold unlink. simpl.
  eapply R_trans; [| apply R_quiet_event; exact I]. apply R_tmp.
Qed.
End Keeps.

Lemma grows_refl w : grows w w.
Proof. repeat split; auto. exists []. symmetry; apply app_nil_r. Qed.

Lemma grows_trans w1 w2 w3 : grows w1 w2 -> grows w2 w3 -> grows w1 w3.
Proof.
  intros ([t1 H1] & T1 & P1) ([t2 H2] & T2 & P2). repeat split.
  - exists (t1 ++ t2). rewrite H2, H1, app_assoc. reflexivity.
  - congruence.
  - auto.
Qed.

Lemma grows_now w t : grows w (set_now t w).
Proof. repeat split; auto. exists []. symmetry; apply app_nil_r. Qed.

Lemma grows_log w ev : grows w (log ev w).
Proof. repeat split; auto. exists [ev]. reflexivity. Qed.

Lemma grows_proc w p : p <> NotSpawned -> grows w (set_proc p w).
Proof. intros Hp. repeat split; simpl; auto. exists []. symmetry; apply app_nil_r. Qed.

Lemma grows_tmp w f : grows w (set_tmp f w).
Proof. repeat split; auto. exists []. symmetry; apply app_nil_r. Qed.

Lemma grows_gen w g : grows w (set_gen g w).
Proof. repeat split; auto. exists []. symmetry; apply app_nil_r. Qed.

Lemma calm_refl w : calm w w.
Proof. repeat split; auto. exists []. symmetry; apply app_nil_r. Qed.

Lemma calm_trans w1 w2 w3 : calm w1 w2 -> calm w2 w3 -> calm w1 w3.
Proof.
  intros (G1 & Y1 & R1 & S1) (G2 & Y2 & R2 & S2). split; [eapply grows_trans; eauto|].
  repeat split; congruence.
Qed.

Lemma calm_now w t : calm w (set_now t w).
Proof. split; [apply grows_now|]. repeat split. Qed.

Lemma calm_event w t ev :
  match ev with EvYield _ | EvStdoutRead _ | EvSpawn _ | EvCreateTask => False | _ => True end ->
  calm w (log (t, ev) w).
Proof.
  intros Hev. split; [apply grows_log|]. simpl.
  rewrite yielded_app, read_from_stdout_app.
  destruct ev; try contradiction; simpl; rewrite !app_nil_r; repeat split.
Qed.

Lemma calm_proc w p : p <> NotSpawned -> calm w (set_proc p w).
Proof. intros Hp. split; [apply grows_proc; exact Hp|]. repeat split. Qed.

Lemma calm_tmp w f : calm w (set_tmp f w).
Proof. split; [apply grows_tmp|]. repeat split. Qed.

Lemma calm_grows w w' : calm w w' -> grows w w'.
Proof. intros [G _]; exact G. Qed.

Ltac calm_side :=
  first [ exact calm_refl | exact calm_trans | exact calm_now
        | exact calm_event | exact calm_proc | exact calm_tmp ].

(** What is calm: the observer, the end of the generator body, the
    handlers, the writes to the temporary file. *)
Lemma calm_call_progress cb x y : keeps calm (call_progress cb x y).
Proof. apply keeps_call_progress; calm_side. Qed.

Lemma calm_finish p : keeps calm (finish p).
Proof. apply keeps_finish; calm_side. Qed.

Lemma calm_kill : keeps calm kill_if_process.
Proof. apply keeps_kill_if_process; calm_side. Qed.

Lemma calm_outer_try {A} (m : M world A) : keeps calm m -> keeps calm (outer_try m).
Proof. apply keeps_outer_try; calm_side. Qed.

Lemma calm_inner_try {A} (m : M world A) : keeps calm m -> keeps calm (inner_try m).
Proof. apply keeps_inner_try; calm_side. Qed.

Lemma calm_temp_file_write k chunk : keeps calm (temp_file_write k chunk).
Proof. apply keeps_temp_file_write; calm_side. Qed.

Lemma calm_unlink : keeps calm unlink.
Proof. apply keeps_unlink; calm_side. Qed.

Lemma calm_still w w' : calm w w' -> still w w'.
Proof. intros (G & Y & R & _). repeat split; auto; apply G. Qed.

Lemma still_refl w : still w w.
Proof. apply calm_still, calm_refl. Qed.

Lemma still_trans w1 w2 w3 : still w1 w2 -> still w2 w3 -> still w1 w3.
Proof.
  intros (G1 & Y1 & R1) (G2 & Y2 & R2). split; [eapply grows_trans; eauto|].
  split; congruence.
Qed.

Lemma still_gen w g : still w (set_gen g w).
Proof. split; [apply grows_gen|]. split; reflexivity. Qed.

(** A read that returns no data leaves an event but nothing to yield. *)
Lemma still_empty_read w t : still w (log (t, EvStdoutRead []) w).
Proof.
  split; [apply grows_log|]. simpl. rewrite yielded_app, read_from_stdout_app. simpl.
  rewrite !app_nil_r. split; reflexivity.
Qed.

(** ** The handlers *)

(** What [process.kill()] makes of the child: it raises
    [ProcessLookupError] or it returns; the child is not running
    afterwards. *)
Lemma kill_spec p outs w :
  match kill p outs w with
  | Ok _ w' => calm w w' /\ proc w' <> Running /\ killed (trace w') = true
  | Exc e w' => e = lookup_error /\ calm w w' /\ (exists rc, proc w' = Exited rc) /\
                killed (trace w') = killed (trace w)
  | Hang _ => False
  end.
Proof.
  unfold kill.
  assert (H : match
                match exited_before p w with
                | Some rc =>
                    if fits (len (c_stderr (r_child p))) && drains 0 outs
                    then Exc lookup_error (set_proc (Exited rc) w)
                    else Ok tt (log (now w, EvKill) (set_proc (Exited rc) w))
                | None => Ok tt (log (now w, EvKill) (set_proc Killed w))
                end
              with
              | Ok _ w' => calm w w' /\ proc w' <> Running /\ killed (trace w') = true
              | Exc e w' => e = lookup_error /\ calm w w' /\ (exists rc, proc w' = Exited rc) /\
                            killed (trace w') = killed (trace w)
              | Hang _ => False
              end).
  { destruct (exited_before p w) as [rc|]; [destruct (_ && _)|].
    - split; [reflexivity|]. split; [apply calm_proc; discriminate|].
      split; [exists rc; reflexivity | reflexivity].
    - split; [|split].
      + eapply calm_trans; [apply (calm_proc w (Exited rc)); discriminate|].
        apply (calm_event _ (now w) EvKill). exact I.
      + cbn. discriminate.
      + cbn. rewrite killed_app. cbn. apply orb_true_r.
    - split; [|split].
      + eapply calm_trans; [apply (calm_proc w Killed); discriminate|].
        apply (calm_event _ (now w) EvKill). exact I.
      + cbn. discriminate.
      + cbn. rewrite killed_app. cbn. apply orb_true_r. }
  destruct (proc w) eqn:Hp; try exact H.
  split; [reflexivity|]. split; [apply calm_refl|]. split; [eexists; exact Hp | reflexivity].
Qed.

Lemma kill_if_process_spec w :
  match kill_if_process w with
  | Ok _ w' => calm w w' /\ (has_process w -> proc w' <> Running /\ killed (trace w') = true) /\
               (~ has_process w -> w' = w)
  | Exc e w' => e = lookup_error /\ calm w w' /\ has_process w /\
                (exists rc, proc w' = Exited rc) /\ killed (trace w') = killed (trace w)
  | Hang _ => False
  end.
Proof.
  unfold kill_if_process, has_process. destruct (gen w) as [|p outs ob|] eqn:Hg.
  - split; [apply calm_refl|]. split; [intros (p & outs & ob & H); discriminate | reflexivity].
  - pose proof (kill_spec p outs w) as H.
    destruct (kill p outs w) as [[] w'|e w'|w']; [| |exact H].
    + destruct H as (Hc & Hp & Hk). split; [exact Hc|]. split; [intros _; split; assumption|].
      intros Hn. exfalso. apply Hn. eauto.
    + destruct H as (He & Hc & Hp & Hk). split; [exact He|]. split; [exact Hc|].
      split; [exists p, outs, ob; reflexivity|]. split; assumption.
  - split; [apply calm_refl|]. split; [intros (p & outs & ob & H); discriminate | reflexivity].
Qed.

(** What the outer [try] makes of the result of its body. *)
Lemma outer_try_spec {A} (m : M world A) w :
  match m w with
  | Ok x w1 => outer_try m w = Ok x w1
  | Hang w1 => outer_try m w = Hang w1
  | Exc e w1 =>
      if is_Exception e
      then exists e' w2, outer_try m w = Exc e' w2 /\ calm w1 w2 /\
                         (e' = handled e \/ e' = lookup_error /\ has_process w1) /\
                         (has_process w1 -> proc w2 <> Running) /\
                         (~ has_process w1 -> w2 = w1 /\ e' = handled e)
      else outer_try m w = Exc e w1
  end.
Proof.
  unfold outer_try, try_except2. destruct (m w) as [x w1|e w1|w1]; try reflexivity.
  pose proof (kill_if_process_spec w1) as Hk.
  assert (H : is_Exception e = true ->
              exists e' w2,
                (kill_if_process ;; raise (handled e) : M world A) w1 = Exc e' w2 /\ calm w1 w2 /\
                (e' = handled e \/ e' = lookup_error /\ has_process w1) /\
                (has_process w1 -> proc w2 <> Running) /\
                (~ has_process w1 -> w2 = w1 /\ e' = handled e)).
  { intros _. unfold bind, raise.
    destruct (kill_if_process w1) as [[] w2|e2 w2|w2]; [| |contradiction].
    - destruct Hk as (Hc & Hp & Hn). exists (handled e), w2.
      split; [reflexivity|]. split; [exact Hc|]. split; [left; reflexivity|].
      split; [intros Hh; apply Hp; exact Hh|]. intros Hh. split; [apply Hn; exact Hh | reflexivity].
    - destruct Hk as (-> & Hc & Hh & [rc Hp] & _). exists lookup_error, w2.
      split; [reflexivity|]. split; [exact Hc|]. split; [right; split; [reflexivity | exact Hh]|].
      split; [intros _; rewrite Hp; discriminate|]. intros Hn. contradiction. }
  unfold handled in *.
  destruct (is_Exception e) eqn:He.
  - destruct (is_TimeoutError e) eqn:Ht; exact (H eq_refl).
  - assert (Ht : is_TimeoutError e = false).
    { destruct e as [k msg]. destruct k; try discriminate; reflexivity. }
    rewrite Ht. reflexivity.
Qed.

Lemma inner_try_spec {A} (m : M world A) w :
  inner_try m w =
  match m w with
  | Exc e w1 => if is_Exception e then Exc (read_failed e) w1 else Exc e w1
  | r => r
  end.
Proof. unfold inner_try, try_except, raise. destruct (m w); reflexivity. Qed.

(** ** The end of the generator body *)

Lemma finish_ok p w w' :
  finish p w = Ok tt w' ->
  calm w w' /\ proc w' = Exited 0 /\ killed (trace w') = killed (trace w) /\
  tmp_file w' = tmp_file w /\
  exists f d, r_feed p = Ok tt f /\ c_exit (r_child p) = Some (d, 0%Z) /\
              (r_spawned_at p + d < N.max (now w) (f_now f) + processing_timeout)%N /\
              now w' = N.max (N.max (now w) (f_now f)) (r_spawned_at p + d).
Proof.
  intros H. split; [pose proof (calm_finish p w) as Hc; rewrite H in Hc; exact Hc|].
  revert H. unfold finish, await_task, wait_for_process, returncode, decode, bind, ret, raise.
  destruct (r_feed p) as [[] f|e f|f]; try discriminate.
  destruct (c_exit (r_child p)) as [[d rc]|]; try discriminate.
  simpl. destruct (_ || _) eqn:Hlt; try discriminate. simpl.
  destruct rc as [|rc|rc].
  - intros [= <-]. simpl. repeat split; auto. exists f, d. repeat split; auto.
    apply orb_true_iff in Hlt. destruct Hlt as [Hlt|Hlt].
    + apply N.ltb_lt in Hlt. lia.
    + apply andb_true_iff in Hlt. destruct Hlt as [_ Hlt]. apply N.ltb_lt. exact Hlt.
  - destruct (c_stderr (r_child p)); try discriminate. destruct (utf8_valid _); discriminate.
  - destruct (c_stderr (r_child p)); try discriminate. destruct (utf8_valid _); discriminate.
Qed.

(** ** One resumption of the generator *)

(** What [read_chunk] does to the log. *)
Lemma read_chunk_spec outs ob w :
  match read_chunk outs ob w with
  | Ok (Yielded c outs' ob') w' =>
      exists d, outs = Returns d c :: outs' /\ c <> [] /\ ob' = (ob + len c)%Z /\
                w' = log ((now w + d)%N, EvStdoutRead c) (set_now (now w + d) w)
  | Ok Break w' => still w w' /\ written outs = [] /\ gen w' = gen w /\ proc w' = proc w /\
                   killed (trace w') = killed (trace w)
  | Exc _ w' | Hang w' => calm w w' /\ proc w' = proc w /\ killed (trace w') = killed (trace w)
  end.
Proof.
  unfold read_chunk, stdout_read. destruct outs as [|[d c|d e|] outs']; simpl.
  - split; [apply still_refl|]. repeat split; reflexivity.
  - unfold bind, await, emit, ret. simpl. destruct c as [|x c]; simpl.
    + split; [|repeat split; auto].
      * eapply still_trans; [apply calm_still, calm_now | apply still_empty_read].
      * rewrite killed_app. simpl. apply orb_false_r.
    + exists d. repeat split. discriminate.
  - unfold bind, await. simpl. split; [apply calm_now | split; reflexivity].
  - unfold bind, await. simpl. split; [apply calm_refl | split; reflexivity].
Qed.

Ltac still_chain :=
  repeat first
    [ eassumption
    | apply still_refl
    | apply still_gen
    | apply calm_still; eassumption
    | eapply still_trans; [solve [eassumption | apply calm_still; eassumption]|] ].

(** One pass of the read loop, after something calm. *)
Lemma pass_spec p outs ob (pre : M world unit) w :
  keeps calm pre ->
  gen w = PwfAtYield p outs ob ->
  pass_post p outs ob w
    (bind (inner_try (bind pre (fun _ => read_chunk outs ob))) (resume p) w).
Proof.
  intros Hpre Hg. unfold pass_post, bind at 1. rewrite inner_try_spec. unfold bind at 1.
  pose proof (Hpre w) as Hcp.
  destruct (pre w) as [[] w1|e w1|w1]; simpl in Hcp.
  - assert (Hg1 : gen w1 = PwfAtYield p outs ob) by (destruct Hcp as (_ & _ & _ & ->); exact Hg).
    pose proof (read_chunk_spec outs ob w1) as Hrc.
    destruct (read_chunk outs ob w1) as [[|c outs' ob'] w2|e w2|w2].
    + destruct Hrc as (Hs & Hw & Hg2 & _). unfold resume, bind.
      pose proof (calm_finish p w2) as Hf. pose proof (finish_ok p w2) as Hfo.
      destruct (finish p w2) as [[] w3|e w3|w3]; simpl in Hf; simpl.
      * destruct (Hfo w3 eq_refl) as (_ & Hp3 & _ & _ & f & _ & Hfeed & _).
        split; [still_chain|]. split; [exact Hw|]. split; [reflexivity|].
        split; [exact Hp3 | exists f; exact Hfeed].
      * split; [still_chain|]. destruct Hf as (_ & _ & _ & ->). congruence.
      * still_chain.
    + destruct Hrc as (d & -> & Hne & -> & ->). unfold resume, bind, emit, ret. simpl.
      destruct Hcp as (([tr Htr] & Ht & Hp) & Hy & Hr & _).
      exists d, outs'. split; [reflexivity|]. split; [exact Hne|]. split; [reflexivity|].
      split; [|split].
      * split; [|split; [exact Ht | exact Hp]].
        exists (tr ++ [((now w1 + d)%N, EvStdoutRead c); ((now w1 + d)%N, EvYield c)]).
        simpl. rewrite Htr, <- !app_assoc. reflexivity.
      * simpl. rewrite !yielded_app, Hy. simpl. rewrite app_nil_r. reflexivity.
      * simpl. rewrite !read_from_stdout_app, Hr. destruct c; [contradiction|].
        simpl. rewrite app_nil_r. reflexivity.
    + destruct Hrc as (Hrc & _).
      assert (Hg2 : gen w2 = PwfAtYield p outs ob) by (destruct Hrc as (_ & _ & _ & ->); exact Hg1).
      destruct (is_Exception e); simpl; (split; [still_chain | exact Hg2]).
    + destruct Hrc as (Hrc & _). simpl. still_chain.
  - assert (Hg1 : gen w1 = PwfAtYield p outs ob) by (destruct Hcp as (_ & _ & _ & ->); exact Hg).
    destruct (is_Exception e); simpl; (split; [still_chain | exact Hg1]).
  - simpl. still_chain.
Qed.

(** From a pass to [anext]: the outer handlers and the stored state. *)
Lemma anext_of_pass p outs ob w0 (body : M world (option bytes * pwf_state)) w :
  pass_post p outs ob w0 (body w) ->
  anext_post p outs ob w0
    (match outer_try body w with
     | Ok (o, st) w' => Ok o (set_gen st w')
     | Exc e w' => Exc e (set_gen PwfClosed w')
     | Hang w' => Hang w'
     end).
Proof.
  intros Hbody. pose proof (outer_try_spec body w) as Hout.
  unfold pass_post in Hbody. unfold anext_post.
  destruct (body w) as [[[c|] st] w1|e w1|w1].
  - rewrite Hout. destruct Hbody as (d & outs' & -> & Hne & -> & Hgr & Hy & Hr).
    exists d, outs'. simpl. split; [reflexivity|]. split; [exact Hne|]. split; [reflexivity|].
    split; [|split; assumption].
    eapply grows_trans; [exact Hgr | apply grows_gen].
  - rewrite Hout. destruct Hbody as (Hs & Hw & -> & Hp & Hfeed). simpl.
    split; [still_chain|]. split; [exact Hw|]. split; [reflexivity|].
    split; [exact Hp | exact Hfeed].
  - destruct Hbody as [Hs Hg1].
    destruct (is_Exception e) eqn:He.
    + destruct Hout as (e' & w2 & -> & Hc & _ & Hp & _). split; [still_chain|].
      split; [reflexivity|]. intros _. apply Hp. exists p, outs, ob. exact Hg1.
    + rewrite Hout. split; [still_chain|]. split; [reflexivity|].
      rewrite He. discriminate.
  - rewrite Hout. exact Hbody.
Qed.

(** [anext] on a generator suspended at [yield]: either the next chunk of
    the script is read and yielded, or nothing is read or yielded and the
    generator is done, failed or suspended for good. *)
Lemma anext_resumed a w p outs ob :
  gen w = PwfAtYield p outs ob ->
  anext_post p outs ob w (anext a w).
Proof.
  intros Hg. unfold anext. rewrite Hg. unfold pwf_body.
  apply anext_of_pass. apply pass_spec; [apply calm_call_progress | exact Hg].
Qed.

Lemma start_ok a w dt prog :
  a_os a (a_ffmpeg_cmd a) = Returns dt prog ->
  start a w = Ok (mkRunning (feed_of a (now w + dt)) (child_of a prog (now w + dt)) (now w + dt))
                 (set_gen (frame_of a prog (now w + dt)) (started a (now w + dt) w)).
Proof.
  intros Hos. unfold start, create_subprocess_exec, create_task, bind, await. rewrite Hos.
  reflexivity.
Qed.

(** A state differs from another in its generator object only. *)
Lemma pass_post_gen p outs ob g w r :
  pass_post p outs ob (set_gen g w) r -> pass_post p outs ob w r.
Proof. intros H. exact H. Qed.

(** The first [anext]: the child is spawned, the feed task is created, and
    then the first pass of the read loop runs. *)
Lemma anext_created a w dt prog :
  gen w = PwfCreated ->
  a_os a (a_ffmpeg_cmd a) = Returns dt prog ->
  anext_post (mkRunning (feed_of a (now w + dt)) (child_of a prog (now w + dt)) (now w + dt))
             (c_stdout (child_of a prog (now w + dt))) 0
             (started a (now w + dt) w) (anext a w).
Proof.
  intros Hg Hos. unfold anext. rewrite Hg. unfold pwf_body.
  apply anext_of_pass. unfold bind at 1. rewrite (start_ok a w dt prog Hos).
  apply (pass_post_gen _ _ _ (frame_of a prog (now w + dt))).
  apply (pass_spec _ _ 0%Z (ret tt)); [intros w'; apply calm_refl | reflexivity].
Qed.

(** ** The consumer loop *)




Lemma for_rest_delivers fuel a body W :
  (forall c, keeps calm (body c)) ->
  forall w, on_track W w -> delivers W (for_rest fuel a body w).
Proof.
  intros Hbody. induction fuel as [|fuel IH]; intros w (p & outs & ob & Hg & HW & Hrd).
  - simpl. split; [exact Hrd|]. split; [eexists; exact HW | discriminate].
  - cbn [for_rest]. unfold bind at 1.
    pose proof (anext_resumed a w p outs ob Hg) as Hstep. unfold anext_post in Hstep.
    destruct (anext a w) as [[c|] w1|e w1|w1].
    + destruct Hstep as (d & outs' & -> & Hne & Hg1 & _ & Hy1 & Hr1).
      assert (Hw : written (Returns d c :: outs') = c :: written outs').
      { destruct c; [contradiction | reflexivity]. }
      unfold bind at 1. pose proof (Hbody c w1) as Hc.
      destruct (body c w1) as [[] w2|e w2|w2]; simpl in Hc;
        destruct Hc as (_ & Hy2 & Hr2 & Hg2).
      * apply IH. exists p, outs', (ob + len c)%Z.
        rewrite Hg2, Hy2, Hr2, Hy1, Hr1, Hrd, <- HW, Hw, <- app_assoc. auto.
      * split; simpl; [congruence|]. split; [|discriminate].
        exists (written outs'). rewrite Hy2, Hy1, <- HW, Hw, <- app_assoc. reflexivity.
      * split; simpl; [congruence|]. split; [|discriminate].
        exists (written outs'). rewrite Hy2, Hy1, <- HW, Hw, <- app_assoc. reflexivity.
    + destruct Hstep as ((_ & Hy1 & Hr1) & Hw & _). rewrite Hw, app_nil_r in HW.
      split; simpl; [congruence|]. split.
      * exists []. rewrite app_nil_r. congruence.
      * intros x w' [= <-]. congruence.
    + destruct Hstep as ((_ & Hy1 & Hr1) & _).
      split; simpl; [congruence|]. split; [|discriminate].
      exists (written outs). congruence.
    + destruct Hstep as (_ & Hy1 & Hr1).
      split; simpl; [congruence|]. split; [|discriminate].
      exists (written outs). congruence.
Qed.

Lemma started_calm_trace a t0 w :
  yielded (trace (started a t0 w)) = yielded (trace w) /\
  read_from_stdout (trace (started a t0 w)) = read_from_stdout (trace w).
Proof.
  unfold started. simpl. rewrite <- app_assoc, yielded_app, read_from_stdout_app. simpl.
  rewrite !app_nil_r. split; reflexivity.
Qed.

Lemma async_for_delivers a body w dt prog :
  (forall c, keeps calm (body c)) ->
  gen w = PwfCreated ->
  a_os a (a_ffmpeg_cmd a) = Returns dt prog ->
  yielded (trace w) = [] ->
  read_from_stdout (trace w) = [] ->
  delivers (written (c_stdout (child_of a prog (now w + dt)))) (async_for a body w).
Proof.
  intros Hbody Hg Hos Hy0 Hr0. unfold async_for, bind at 1.
  pose proof (anext_created a w dt prog Hg Hos) as Hstep. unfold anext_post in Hstep.
  destruct (started_calm_trace a (now w + dt) w) as [Hys Hrs]. rewrite Hy0 in Hys. rewrite Hr0 in Hrs.
  set (W := written (c_stdout (child_of a prog (now w + dt)))).
  destruct (anext a w) as [[c|] w1|e w1|w1].
  - destruct Hstep as (d & outs' & Hout & Hne & Hg1 & _ & Hy1 & Hr1).
    assert (HW : W = c :: written outs').
    { unfold W. rewrite Hout. destruct c; [contradiction | reflexivity]. }
    rewrite Hys in Hy1. rewrite Hrs in Hr1. simpl in Hy1, Hr1.
    unfold bind at 1. pose proof (Hbody c w1) as Hc.
    destruct (body c w1) as [[] w2|e w2|w2]; simpl in Hc;
      destruct Hc as (_ & Hy2 & Hr2 & Hg2).
    + apply for_rest_delivers; [exact Hbody|].
      eexists _, outs', _. rewrite Hg2, Hy2, Hr2, Hy1, Hr1, HW. split; [exact Hg1|]. auto.
    + split; simpl; [congruence|]. split; [|discriminate].
      exists (written outs'). rewrite Hy2, Hy1, HW. reflexivity.
    + split; simpl; [congruence|]. split; [|discriminate].
      exists (written outs'). rewrite Hy2, Hy1, HW. reflexivity.
  - destruct Hstep as ((_ & Hy1 & Hr1) & Hw & _). fold W in Hw.
    split; simpl; [congruence|]. split.
    + exists []. rewrite app_nil_r. congruence.
    + intros x w' [= <-]. congruence.
  - destruct Hstep as ((_ & Hy1 & Hr1) & _).
    split; simpl; [congruence|]. split; [|discriminate].
    exists W. rewrite Hy1, Hys. reflexivity.
  - destruct Hstep as (_ & Hy1 & Hr1).
    split; simpl; [congruence|]. split; [|discriminate].
    exists W. rewrite Hy1, Hys. reflexivity.
Qed.




(** ** A file above the size limit *)

(** The size check is the first thing the generator of
    [stream_from_telegram] does, once the feed task pulls from it. *)
Lemma feed_input_oversize tg cb s :
  (file_size tg > max_file_size)%Z ->
  feed_input tg (stream_from_telegram tg) cb s =
  Exc (telegram_failed file_too_large) (record (f_now s, EvSizeCheck (file_size tg)) s).
Proof.
  intros Hsz. unfold feed_input, stream_from_telegram. cbn [tg_remaining feed_loop].
  unfold stream_from_telegram_next. task_unfold.
  assert (Hgt : (file_size tg >? max_file_size)%Z = true) by (apply Z.gtb_lt; lia).
  rewrite Hgt. reflexivity.
Qed.

(** With a feed task that did not return, the consumer loop cannot return:
    the end of the output leads to [await feed_task]. *)
Lemma for_rest_without_feed a body :
  (forall c, keeps calm (body c)) ->
  forall fuel w p outs ob,
    gen w = PwfAtYield p outs ob ->
    (forall f, r_feed p <> Ok tt f) ->
    stopped_after w (for_rest fuel a body w).
Proof.
  intros Hbody. induction fuel as [|fuel IH]; intros w p outs ob Hg Hfeed.
  - simpl. split; [apply grows_refl | discriminate].
  - cbn [for_rest]. unfold bind at 1.
    pose proof (anext_resumed a w p outs ob Hg) as Hstep. unfold anext_post in Hstep.
    destruct (anext a w) as [[c|] w1|e w1|w1].
    + destruct Hstep as (d & outs' & -> & Hne & Hg1 & Hgr & _).
      unfold bind at 1. pose proof (Hbody c w1) as Hc.
      destruct (body c w1) as [[] w2|e w2|w2]; simpl in Hc.
      * destruct Hc as (Hgr2 & _ & _ & Hg2). rewrite <- Hg2 in Hg1.
        destruct (IH w2 p outs' _ Hg1 Hfeed) as [Hgr3 Hno].
        split; [|exact Hno].
        eapply grows_trans; [exact Hgr|]. eapply grows_trans; [exact Hgr2 | exact Hgr3].
      * split; [|discriminate]. simpl. eapply grows_trans; [exact Hgr | apply Hc].
      * split; [|discriminate]. simpl. eapply grows_trans; [exact Hgr | apply Hc].
    + destruct Hstep as (_ & _ & _ & _ & f & Hf). exfalso. exact (Hfeed f Hf).
    + split; [|discriminate]. simpl. apply Hstep.
    + split; [|discriminate]. simpl. apply Hstep.
Qed.

Lemma async_for_without_feed a body w dt prog :
  (forall c, keeps calm (body c)) ->
  gen w = PwfCreated ->
  a_os a (a_ffmpeg_cmd a) = Returns dt prog ->
  (forall f, feed_of a (now w + dt) <> Ok tt f) ->
  stopped_after (started a (now w + dt) w) (async_for a body w).
Proof.
  intros Hbody Hg Hos Hfeed. unfold async_for, bind at 1.
  pose proof (anext_created a w dt prog Hg Hos) as Hstep. unfold anext_post in Hstep.
  destruct (anext a w) as [[c|] w1|e w1|w1].
  - destruct Hstep as (d & outs' & _ & Hne & Hg1 & Hgr & _).
    unfold bind at 1. pose proof (Hbody c w1) as Hc.
    destruct (body c w1) as [[] w2|e w2|w2]; simpl in Hc.
    + destruct Hc as (Hgr2 & _ & _ & Hg2). rewrite <- Hg2 in Hg1.
      destruct (for_rest_without_feed a body Hbody (S (gen_remaining w2)) w2 _ outs' _ Hg1 Hfeed)
        as [Hgr3 Hno].
      split; [|exact Hno].
      eapply grows_trans; [exact Hgr|]. eapply grows_trans; [exact Hgr2 | exact Hgr3].
    + split; [|discriminate]. simpl. eapply grows_trans; [exact Hgr | apply Hc].
    + split; [|discriminate]. simpl. eapply grows_trans; [exact Hgr | apply Hc].
  - destruct Hstep as (_ & _ & _ & _ & f & Hf). exfalso. exact (Hfeed f Hf).
  - split; [|discriminate]. simpl. apply Hstep.
  - split; [|discriminate]. simpl. apply Hstep.
Qed.

Lemma send_processed_video_without_feed a k w dt prog :
  gen w = PwfCreated ->
  a_os a (a_ffmpeg_cmd a) = Returns dt prog ->
  (forall f, feed_of a (now w + dt) <> Ok tt f) ->
  stopped_after (started a (now w + dt) (set_tmp (Some []) w)) (send_processed_video a k w).
Proof.
  intros Hg Hos Hfeed. unfold send_processed_video, try_except, bind at 1.
  destruct (async_for_without_feed a (temp_file_write k) (set_tmp (Some []) w) dt prog
              (calm_temp_file_write k) Hg Hos Hfeed) as [Hgr Hno].
  unfold bind at 1.
  destruct (async_for a (temp_file_write k) (set_tmp (Some []) w)) as [[] w1|e w1|w1].
  - exfalso. exact (Hno tt w1 eq_refl).
  - simpl in Hgr. destruct (is_Exception e); [|split; [exact Hgr | discriminate]].
    unfold bind, raise. destruct (tmp_file w1).
    + split; [|discriminate]. simpl.
      eapply grows_trans; [exact Hgr | apply calm_grows, (calm_unlink w1)].
    + split; [exact Hgr | discriminate].
  - split; [exact Hgr | discriminate].
Qed.

(** C1, on the code: a video above the size limit does not stop the child
    from being spawned.  The run spawns the child and creates the feed
    task; only that task evaluates the size check, fails with "File too
    large" and leaves stdin open without a byte written; the run itself
    never returns normally. *)
Theorem child_is_spawned_before_the_size_check sys tg cmd cb k dt prog :
  (file_size tg > max_file_size)%Z ->
  sys cmd = Returns dt prog ->
  let r := process_video_stream sys tg cmd cb k initial_world in
  (exists tr, trace (state_of r) = (dt, EvSpawn cmd) :: (dt, EvCreateTask) :: tr) /\
  proc (state_of r) <> NotSpawned /\
  tasks (state_of r) =
    [Exc (telegram_failed file_too_large)
         (mkFeeder dt [(dt, EvSizeCheck (file_size tg))] [] false)] /\
  forall w, r <> Ok tt w.
Proof.
  intros Hsz Hos r.
  set (a := mkArgs sys tg (stream_from_telegram tg) cmd cb).
  set (w0 := set_gen PwfCreated initial_world).
  assert (Hfeed : feed_of a (now w0 + dt) =
                  Exc (telegram_failed file_too_large)
                      (mkFeeder dt [(dt, EvSizeCheck (file_size tg))] [] false)).
  { unfold feed_of, a. simpl. rewrite feed_input_oversize by exact Hsz. reflexivity. }
  destruct (send_processed_video_without_feed a k w0 dt prog eq_refl Hos) as [Hgr Hno].
  { intros f. rewrite Hfeed. discriminate. }
  change r with (send_processed_video a k w0).
  destruct Hgr as ([tr Htr] & Ht & Hp). split; [|split; [|split]].
  - exists tr. rewrite Htr. reflexivity.
  - apply Hp. simpl. discriminate.
  - rewrite Ht. change (tasks (started a (now w0 + dt) (set_tmp (Some []) w0)))
      with ([] ++ [feed_of a (now w0 + dt)]). rewrite Hfeed. reflexivity.
  - apply Hno.
Qed.

Lemma child_is_spawned_before_the_size_check_witness :
  let r := process_video_stream (spawns passthrough) oversize_video ffmpeg None accepting
                                initial_world in
  (file_size oversize_video > max_file_size)%Z /\
  spawns passthrough ffmpeg = Returns 0 passthrough /\
  r = Hang (state_of r) /\
  proc (state_of r) = Running /\
  killed (trace (state_of r)) = false /\
  (exists tr, trace (state_of r) = (0%N, EvSpawn ffmpeg) :: (0%N, EvCreateTask) :: tr) /\
  proc (state_of r) <> NotSpawned /\
  tasks (state_of r) =
    [Exc (telegram_failed file_too_large)
         (mkFeeder 0 [(0%N, EvSizeCheck (file_size oversize_video))] [] false)] /\
  forall w, r <> Ok tt w.
Proof.
  intros r.
  assert (H1 : (file_size oversize_video > max_file_size)%Z) by reflexivity.
  assert (H2 : spawns passthrough ffmpeg = Returns 0 passthrough) by reflexivity.
  split; [exact H1|]. split; [exact H2|].
  split; [vm_compute; reflexivity|]. split; [vm_compute; reflexivity|].
  split; [vm_compute; reflexivity|].
  exact (child_is_spawned_before_the_size_check (spawns passthrough) oversize_video ffmpeg
           None accepting 0%N passthrough H1 H2).
Defined.

(** ** Runs step by step *)

Lemma outer_try_ok {A} (m : M world A) w x w1 :
  m w = Ok x w1 -> outer_try m w = Ok x w1.
Proof. intros H. unfold outer_try, try_except2. rewrite H. reflexivity. Qed.

Lemma inner_try_ok {A} (m : M world A) w x w1 :
  m w = Ok x w1 -> inner_try m w = Ok x w1.
Proof. intros H. unfold inner_try, try_except. rewrite H. reflexivity. Qed.

Lemma read_chunk_data d c outs ob w :
  c <> [] ->
  read_chunk (Returns d c :: outs) ob w =
  Ok (Yielded c outs (ob + len c)%Z)
     (log ((now w + d)%N, EvStdoutRead c) (set_now (now w + d) w)).
Proof.
  intros Hne. unfold read_chunk, stdout_read, bind, await, emit, ret. simpl.
  destruct c; [contradiction | reflexivity].
Qed.

(** The first [anext] when the child's first output is [c]. *)
Lemma anext_created_yields a w dt prog d c outs :
  gen w = PwfCreated ->
  a_os a (a_ffmpeg_cmd a) = Returns dt prog ->
  c_stdout (child_of a prog (now w + dt)) = Returns d c :: outs ->
  c <> [] ->
  anext a w =
  Ok (Some c)
     (after_yield (PwfAtYield (mkRunning (feed_of a (now w + dt)) (child_of a prog (now w + dt))
                                         (now w + dt)) outs (0 + len c)%Z)
                  (now w + dt + d) c (started a (now w + dt) w)).
Proof.
  intros Hg Hos Hout Hne. unfold anext. rewrite Hg. unfold pwf_body.
  erewrite outer_try_ok
    by (erewrite bind_ok by (apply start_ok; exact Hos);
        cbn [r_child]; rewrite Hout;
        erewrite bind_ok by (apply inner_try_ok, read_chunk_data; exact Hne);
        reflexivity).
  reflexivity.
Qed.


(** The last [anext]: the observer returns, the script is used up, and the
    rest of the body decides. *)
Lemma anext_resumed_at_end a w p ob w1 :
  gen w = PwfAtYield p [] ob ->
  call_progress (a_progress_callback a) None (Some ob) w = Ok tt w1 ->
  anext a w =
  match outer_try (bind (finish p) (fun _ => ret (None, PwfClosed))) w1 with
  | Ok (o, st) w' => Ok o (set_gen st w')
  | Exc e w' => Exc e (set_gen PwfClosed w')
  | Hang w' => Hang w'
  end.
Proof.
  intros Hg Hcb. unfold anext. rewrite Hg. unfold pwf_body.
  assert (H : forall k : drained -> M world (option bytes * pwf_state),
             outer_try (bind (inner_try (bind (call_progress (a_progress_callback a) None (Some ob))
                                              (fun _ => read_chunk [] ob))) k) w
             = outer_try (k Break) w1).
  { intros k. unfold outer_try, try_except2, bind at 1. rewrite inner_try_spec.
    unfold bind at 1. rewrite Hcb. reflexivity. }
  rewrite H. reflexivity.
Qed.

(** ** Cleanup *)

(** The paths that do clean up: when [anext] raises an [Exception], the
    child is not running any more, and when the generator is exhausted the
    child has exited. *)
Lemma anext_error_kills a w p outs ob e w' :
  gen w = PwfAtYield p outs ob ->
  anext a w = Exc e w' ->
  is_Exception e = true ->
  proc w' <> Running.
Proof.
  intros Hg Hr He. pose proof (anext_resumed a w p outs ob Hg) as H.
  rewrite Hr in H. apply H. exact He.
Qed.

Lemma anext_stop_exited a w p outs ob w' :
  gen w = PwfAtYield p outs ob ->
  anext a w = Ok None w' ->
  proc w' = Exited 0.
Proof.
  intros Hg Hr. pose proof (anext_resumed a w p outs ob Hg) as H.
  rewrite Hr in H. apply H.
Qed.

(** C3, on the code: when [temp_file.write] raises on the first chunk, the
    run fails with that error while the generator is left suspended at its
    [yield]; no handler of [process_with_ffmpeg] runs, so the child is
    still running when the run has returned, and it is still running after
    the generator has been finalised, because [GeneratorExit] is not an
    [Exception]. *)
Theorem child_left_running_when_the_consumer_fails sys tg cmd cb k dt prog d c outs e :
  let a := mkArgs sys tg (stream_from_telegram tg) cmd cb in
  sys cmd = Returns dt prog ->
  c_stdout (child_of a prog dt) = Returns d c :: outs ->
  c <> [] ->
  tmp_write k [] c = Some e ->
  is_Exception e = true ->
  exists w, process_video_stream sys tg cmd cb k initial_world = Exc (send_failed e) w /\
            proc w = Running /\ killed (trace w) = false /\
            exists w', aclose w = Ok tt w' /\ proc w' = Running /\ killed (trace w') = false.
Proof.
  intros a Hos Hout Hne Hwr He.
  set (w0 := set_tmp (Some []) (set_gen PwfCreated initial_world)).
  assert (Hnext := anext_created_yields a w0 dt prog d c outs eq_refl Hos Hout Hne).
  unfold process_video_stream, send_processed_video.
  fold a. unfold bind at 1, try_except, bind at 1, async_for, bind at 1. fold w0.
  unfold bind at 1. rewrite Hnext. unfold bind at 1.
  unfold temp_file_write at 1. cbn [tmp_file after_yield set_gen log set_now started add_task set_proc w0 set_tmp].
  rewrite Hwr, He. unfold bind, unlink, raise.
  cbn [tmp_file after_yield set_gen log set_now started add_task set_proc w0 set_tmp].
  eexists; split; [reflexivity|]. cbn. split; [reflexivity|]. split; [reflexivity|].
  unfold aclose. cbn. eexists; split; [reflexivity|]. cbn. split; reflexivity.
Qed.

Lemma child_left_running_when_the_consumer_fails_witness :
  let a := mkArgs (spawns passthrough) small_video (stream_from_telegram small_video)
                  ffmpeg None in
  let e := mkExc OSError "[Errno 28] No space left on device" in
  spawns passthrough ffmpeg = Returns 0 passthrough /\
  c_stdout (child_of a passthrough 0) = Returns 1 (b "ab") :: [Returns 1 (b "cd"); Returns 1 (b "ef")] /\
  b "ab" <> [] /\
  tmp_write disk_full [] (b "ab") = Some e /\
  is_Exception e = true /\
  exists w, process_video_stream (spawns passthrough) small_video ffmpeg None disk_full
                                 initial_world = Exc (send_failed e) w /\
            proc w = Running /\ killed (trace w) = false /\
            exists w', aclose w = Ok tt w' /\ proc w' = Running /\ killed (trace w') = false.
Proof.
  intros a e.
  assert (H1 : spawns passthrough ffmpeg = Returns 0 passthrough) by reflexivity.
  assert (H2 : c_stdout (child_of a passthrough 0) =
               Returns 1 (b "ab") :: [Returns 1 (b "cd"); Returns 1 (b "ef")]) by reflexivity.
  assert (H3 : b "ab" <> []) by discriminate.
  assert (H4 : tmp_write disk_full [] (b "ab") = Some e) by reflexivity.
  assert (H5 : is_Exception e = true) by reflexivity.
  exact (conj H1 (conj H2 (conj H3 (conj H4 (conj H5
    (child_left_running_when_the_consumer_fails (spawns passthrough) small_video ffmpeg None
       disk_full 0%N passthrough 1%N (b "ab") _ e H1 H2 H3 H4 H5)))))).
Defined.

(** ** The end of the generator body, case by case *)

Lemma fits_le n : fits n = true <-> (n <= 2 * stream_limit)%Z.
Proof. unfold fits. apply Z.leb_le. Qed.


Lemma wait_returns p w d rc :
  c_exit (r_child p) = Some (d, rc) ->
  exit_found p (now w) d ->
  wait_for_process p w =
  Ok tt (set_proc (Exited rc) (set_now (N.max (now w) (r_spawned_at p + d)) w)).
Proof.
  intros Hex Hfound. unfold wait_for_process. rewrite Hex.
  assert (H : ((r_spawned_at p + d <? now w)%N
               || fits (len (c_stderr (r_child p)))
                  && (r_spawned_at p + d <? now w + processing_timeout)%N) = true).
  { apply orb_true_iff. destruct Hfound as [H|[H1 H2]].
    - left. apply N.ltb_lt. exact H.
    - right. apply andb_true_iff. split; [apply fits_le; exact H1 | apply N.ltb_lt; exact H2]. }
  rewrite H. reflexivity.
Qed.




Lemma finish_exit_nonzero p w f d rc :
  r_feed p = Ok tt f ->
  c_exit (r_child p) = Some (d, rc) ->
  exit_found p (wait_start w f) d ->
  rc <> 0%Z ->
  c_stderr (r_child p) <> [] ->
  utf8_valid (c_stderr (r_child p)) = true ->
  finish p w = Exc (ffmpeg_failed (string_of_list_byte (c_stderr (r_child p))))
                   (exited p d rc w f).
Proof.
  intros Hf Hex Hin Hrc Herr Hutf. unfold finish, await_task, bind at 1. rewrite Hf.
  unfold bind at 1. rewrite (wait_returns p _ d rc Hex) by exact Hin.
  unfold bind, returncode. cbn [proc set_proc].
  unfold decode. rewrite Hutf.
  destruct (c_stderr (r_child p)) as [|x l]; [contradiction|].
  destruct rc; [contradiction | reflexivity | reflexivity].
Qed.

(** Whatever stderr holds, a non-zero exit that the wait finds makes line
    92 or [decode] raise. *)
Lemma finish_exit_nonzero_raises p w f d rc :
  r_feed p = Ok tt f ->
  c_exit (r_child p) = Some (d, rc) ->
  exit_found p (wait_start w f) d ->
  rc <> 0%Z ->
  exists e, finish p w = Exc e (exited p d rc w f) /\ is_Exception e = true /\
            is_TimeoutError e = false.
Proof.
  intros Hf Hex Hin Hrc. unfold finish, await_task, bind at 1. rewrite Hf.
  unfold bind at 1. rewrite (wait_returns p _ d rc Hex) by exact Hin.
  unfold bind, returncode. cbn [proc set_proc]. unfold decode, ret, raise.
  destruct rc; [contradiction| |];
    (destruct (c_stderr (r_child p)) as [|x l];
     [|destruct (utf8_valid (x :: l))]; eexists; (split; [reflexivity | split; reflexivity])).
Qed.

(** ** What [process.kill()] does in the handlers *)



Lemma kill_closed p outs w rc :
  proc w = Exited rc -> kill p outs w = Exc lookup_error w.
Proof. intros Hp. unfold kill. rewrite Hp. reflexivity. Qed.

(** The generator after a non-zero exit that the wait has found: the
    handler's [process.kill()] raises, and [ProcessLookupError] leaves the
    generator in place of the error of line 92. *)
Lemma anext_after_nonzero_exit a w p ob f w1 d rc :
  gen w = PwfAtYield p [] ob ->
  call_progress (a_progress_callback a) None (Some ob) w = Ok tt w1 ->
  r_feed p = Ok tt f ->
  c_exit (r_child p) = Some (d, rc) ->
  exit_found p (wait_start w1 f) d ->
  rc <> 0%Z ->
  anext a w = Exc lookup_error (set_gen PwfClosed (exited p d rc w1 f)).
Proof.
  intros Hg Hcb Hf Hex Hin Hrc.
  assert (Hg1 : gen w1 = PwfAtYield p [] ob).
  { pose proof (calm_call_progress (a_progress_callback a) None (Some ob) w) as Hc.
    rewrite Hcb in Hc. destruct Hc as (_ & _ & _ & Hgen). cbn [state_of] in Hgen.
    rewrite Hgen. exact Hg. }
  rewrite (anext_resumed_at_end a w p ob w1 Hg Hcb).
  destruct (finish_exit_nonzero_raises p w1 f d rc Hf Hex Hin Hrc) as (e & Hfin & He & Ht).
  unfold outer_try, try_except2, bind at 1. rewrite Hfin, Ht, He.
  unfold bind at 1, kill_if_process. cbn [gen exited set_proc set_now]. rewrite Hg1.
  rewrite (kill_closed p [] _ rc) by reflexivity. reflexivity.
Qed.

(** ** The timeout *)



(** The branch with the timeout is real: a child that never exits, waited
    for from second 1000 on, is killed at second 1300. *)
Example timeout_fires :
  let a := mkArgs (spawns stalled) small_video (stream_from_telegram small_video) ffmpeg None in
  let f := mkFeeder 3 [] [b "ab"; b "cd"; b "ef"] true in
  let p := mkRunning (Ok tt f) (mkChild [] None []) 0 in
  let w := mkWorld 1000 [] Running (PwfAtYield p [] 2) None [] in
  anext a w = Exc timed_out (mkWorld 1300 [(1300%N, EvKill)] Killed PwfClosed None []).
Proof. reflexivity. Qed.


(** ** A child that fails *)

Lemma bytes_of_cat s1 s2 :
  list_byte_of_string (s1 +++ s2) = list_byte_of_string s1 ++ list_byte_of_string s2.
Proof.
  unfold cat, list_byte_of_string.
  induction s1 as [|ch s1 IH]; simpl; [reflexivity | rewrite IH; reflexivity].
Qed.

(** C6 (amended).  When the read loop has ended, the feed task is done and
    the wait finds the child's exit with a non-zero code, the generator
    fails, and the error that line 92 raises is a [RuntimeError] whose
    message is "FFmpeg processing failed: " followed by the whole of
    stderr, when that is non-empty well-formed UTF-8: byte for byte,
    nothing is cut off. *)
Theorem nonzero_exit_raises_the_whole_stderr a w p ob f w1 d rc :
  gen w = PwfAtYield p [] ob ->
  call_progress (a_progress_callback a) None (Some ob) w = Ok tt w1 ->
  r_feed p = Ok tt f ->
  c_exit (r_child p) = Some (d, rc) ->
  exit_found p (wait_start w1 f) d ->
  rc <> 0%Z ->
  c_stderr (r_child p) <> [] ->
  utf8_valid (c_stderr (r_child p)) = true ->
  let e := ffmpeg_failed (string_of_list_byte (c_stderr (r_child p))) in
  (exists w2, finish p w1 = Exc e w2 /\ proc w2 = Exited rc) /\
  (exists e' w', anext a w = Exc e' w' /\ is_Exception e' = true /\ proc w' = Exited rc) /\
  klass e = RuntimeError /\
  list_byte_of_string (str e) =
    list_byte_of_string "FFmpeg processing failed: " ++ c_stderr (r_child p).
Proof.
  intros Hg Hcb Hf Hex Hin Hrc Herr Hutf e. split; [|split; [|split]].
  - rewrite (finish_exit_nonzero p w1 f d rc Hf Hex Hin Hrc Herr Hutf).
    eexists; split; reflexivity.
  - rewrite (anext_after_nonzero_exit a w p ob f w1 d rc Hg Hcb Hf Hex Hin Hrc).
    eexists _, _; split; [reflexivity|]. split; reflexivity.
  - reflexivity.
  - unfold e, ffmpeg_failed. cbn [str]. rewrite bytes_of_cat.
    rewrite list_byte_of_string_of_list_byte. reflexivity.
Qed.

Lemma nonzero_exit_raises_the_whole_stderr_witness :
  let a := mkArgs (spawns stalled) small_video (stream_from_telegram small_video) ffmpeg None in
  let f := mkFeeder 3 [] [b "ab"; b "cd"; b "ef"] true in
  let p := mkRunning (Ok tt f) (mkChild [] (Some (5%N, 1%Z)) (b "bad codec")) 0 in
  let w := mkWorld 5 [] Running (PwfAtYield p [] 2) None [] in
  let e := ffmpeg_failed (string_of_list_byte (c_stderr (r_child p))) in
  gen w = PwfAtYield p [] 2 /\
  call_progress (a_progress_callback a) None (Some 2%Z) w = Ok tt w /\
  r_feed p = Ok tt f /\
  c_exit (r_child p) = Some (5%N, 1%Z) /\
  exit_found p (wait_start w f) 5 /\
  1%Z <> 0%Z /\
  c_stderr (r_child p) <> [] /\
  utf8_valid (c_stderr (r_child p)) = true /\
  (exists w2, finish p w = Exc e w2 /\ proc w2 = Exited 1) /\
  (exists e' w', anext a w = Exc e' w' /\ is_Exception e' = true /\ proc w' = Exited 1) /\
  klass e = RuntimeError /\
  list_byte_of_string (str e) =
    list_byte_of_string "FFmpeg processing failed: " ++ c_stderr (r_child p).
Proof.
  intros a f p w e.
  assert (H1 : gen w = PwfAtYield p [] 2) by reflexivity.
  assert (H2 : call_progress (a_progress_callback a) None (Some 2%Z) w = Ok tt w) by reflexivity.
  assert (H3 : r_feed p = Ok tt f) by reflexivity.
  assert (H4 : c_exit (r_child p) = Some (5%N, 1%Z)) by reflexivity.
  assert (H5 : exit_found p (wait_start w f) 5)
    by (right; split; [vm_compute; discriminate | reflexivity]).
  assert (H6 : 1%Z <> 0%Z) by discriminate.
  assert (H7 : c_stderr (r_child p) <> []) by discriminate.
  assert (H8 : utf8_valid (c_stderr (r_child p)) = true) by reflexivity.
  exact (conj H1 (conj H2 (conj H3 (conj H4 (conj H5 (conj H6 (conj H7 (conj H8
    (nonzero_exit_raises_the_whole_stderr a w p 2%Z f w 5%N 1%Z
       H1 H2 H3 H4 H5 H6 H7 H8))))))))).
Defined.

(** What a whole run raises for a child that writes "x", exits with code 1
    after one second and has left [err] on stderr by then: the feed task
    takes three seconds, the wait finds the return code, and the handler's
    [process.kill()] raises. *)
Lemma one_shot_failure_message err :
  raised (process_video_stream (spawns (one_shot 1 (b "x") 1 err)) small_video
                               ffmpeg None accepting initial_world) =
  Some (mkExc RuntimeError "Failed to send processed video: ").
Proof.
  cbv - [utf8_valid string_of_list_byte cat len fits drains].
  destruct err as [|x l]; [reflexivity|].
  destruct (utf8_valid (x :: l)); reflexivity.
Qed.

(** Scenario B of the specification: exit code 1 with "bad codec" on
    stderr. *)
Example bad_codec :
  raised (process_video_stream (spawns (one_shot 1 (b "x") 1 (b "bad codec"))) small_video
                               ffmpeg None accepting initial_world) =
  Some (mkExc RuntimeError "Failed to send processed video: ").
Proof. apply one_shot_failure_message. Qed.

(** C6 as stated fails: with 64 KiB and one byte on stderr, the message
    of the error of line 92 holds every one of those bytes, more than
    65536 bytes in its UTF-8 encoding, and the error of the run holds none
    of them. *)
Lemma stderr_is_neither_truncated_nor_delivered :
  let prog := one_shot 1 (b "x") 1 long_stderr in
  let p := mkRunning (Ok tt (mkFeeder 3 [] [b "ab"; b "cd"; b "ef"] true)) (prog [] true) 0 in
  let w := mkWorld 3 [] Running (PwfAtYield p [] 1) None [] in
  let r := process_video_stream (spawns prog) small_video ffmpeg None accepting initial_world in
  len long_stderr = 65537%Z /\
  (exists e, raised (finish p w) = Some e /\
             list_byte_of_string (str e) =
               list_byte_of_string "FFmpeg processing failed: " ++ long_stderr /\
             (65536 < len (list_byte_of_string (str e)))%Z) /\
  raised r = Some (mkExc RuntimeError "Failed to send processed video: ").
Proof.
  assert (Hlen : List.length long_stderr = N.to_nat 65537) by apply repeat_length.
  assert (Hne : long_stderr <> []).
  { intros H. rewrite H in Hlen. simpl in Hlen. lia. }
  assert (Hutf : utf8_valid long_stderr = true) by (vm_compute; reflexivity).
  cbv zeta. split; [unfold len; rewrite Hlen; lia|]. split.
  - erewrite (finish_exit_nonzero _ _ (mkFeeder 3 [] [b "ab"; b "cd"; b "ef"] true) 1%N 1%Z);
      [| reflexivity | reflexivity | left; reflexivity | discriminate | exact Hne | exact Hutf].
    cbn [raised r_child c_stderr one_shot]. eexists; split; [reflexivity|].
    unfold ffmpeg_failed. cbn [str].
    rewrite bytes_of_cat, list_byte_of_string_of_list_byte. split; [reflexivity|].
    unfold len. rewrite length_app, Hlen. lia.
  - apply one_shot_failure_message.
Qed.

(** ** Runs that succeed *)









(** Scenario A of the specification: an identity transform gives back the
    input, chunk by chunk. *)
Example passthrough_run :
  let r := process_video_stream (spawns passthrough) small_video ffmpeg None accepting
                                initial_world in
  r = Ok tt (state_of r) /\
  joined (yielded (trace (state_of r))) = b "abcdef" /\
  proc (state_of r) = Exited 0.
Proof. vm_compute. repeat split; reflexivity. Qed.

(** ** [calculate_video_dimensions] *)

Section Dimensions.
Local Open Scope string_scope.
Local Open Scope Z_scope.

(** The number of binary digits. *)
Lemma digits2_pos_size p : digits2_pos p = Pos.size p.
Proof. induction p; simpl; congruence. Qed.

Lemma Zdigits2_bounds m : 0 < m -> 2 ^ (Zdigits2 m - 1) <= m < 2 ^ Zdigits2 m.
Proof.
  intros Hm. destruct m as [|p|p]; try lia. unfold Zdigits2. rewrite digits2_pos_size.
  pose proof (Pos.size_gt p) as Hgt. pose proof (Pos.size_le p) as Hle.
  apply Pos2Z.pos_lt_pos in Hgt. apply Pos2Z.pos_le_pos in Hle.
  rewrite Pos2Z.inj_pow in Hgt, Hle. split; [|exact Hgt].
  assert (H : 2 ^ Z.pos (Pos.size p) = 2 * 2 ^ (Z.pos (Pos.size p) - 1)).
  { rewrite <- Z.pow_succ_r by lia. f_equal. lia. }
  rewrite H in Hle. change (Z.pos p~0) with (2 * Z.pos p) in Hle. lia.
Qed.

Lemma Zdigits2_nonneg m : 0 <= Zdigits2 m.
Proof. destruct m; simpl; lia. Qed.

Lemma Zdigits2_le_of_lt m k : 0 <= k -> 0 <= m < 2 ^ k -> Zdigits2 m <= k.
Proof.
  intros Hk [H0 Hlt]. destruct (Z.eq_dec m 0) as [->|Hne]; [simpl; lia|].
  destruct (Zdigits2_bounds m) as [Hlo _]; [lia|].
  destruct (Z_le_gt_dec (Zdigits2 m) k) as [|Hgt]; [assumption|exfalso].
  assert (2 ^ k <= 2 ^ (Zdigits2 m - 1)) by (apply Z.pow_le_mono_r; lia). lia.
Qed.

Lemma Zdigits2_mono a b : 0 <= a <= b -> Zdigits2 a <= Zdigits2 b.
Proof.
  intros [Ha Hab]. destruct (Z.eq_dec b 0) as [->|Hb].
  - assert (a = 0) by lia. subst. lia.
  - apply Zdigits2_le_of_lt; [apply Zdigits2_nonneg|].
    destruct (Zdigits2_bounds b); lia.
Qed.

Lemma Zdigits2_mul a b : 0 <= a -> 0 <= b -> Zdigits2 (a * b) <= Zdigits2 a + Zdigits2 b.
Proof.
  intros Ha Hb. pose proof (Zdigits2_nonneg a). pose proof (Zdigits2_nonneg b).
  apply Zdigits2_le_of_lt; [lia|]. split; [lia|].
  destruct (Z.eq_dec a 0) as [->|Hna]; [simpl; apply Z.pow_pos_nonneg; lia|].
  destruct (Z.eq_dec b 0) as [->|Hnb]; [rewrite Z.mul_0_r; apply Z.pow_pos_nonneg; lia|].
  destruct (Zdigits2_bounds a) as [_ Hua]; [lia|].
  destruct (Zdigits2_bounds b) as [_ Hub]; [lia|].
  rewrite Z.pow_add_r by lia. nia.
Qed.

Lemma shr_1_m mrs : 0 <= shr_m mrs -> shr_m (shr_1 mrs) = shr_m mrs / 2.
Proof.
  destruct mrs as [m r s]. simpl. intros Hm.
  destruct m as [|p|p]; try lia; [reflexivity|].
  destruct p; simpl.
  - rewrite Pos2Z.inj_xI. apply Z.div_unique with 1; lia.
  - rewrite Pos2Z.inj_xO. apply Z.div_unique with 0; lia.
  - reflexivity.
Qed.

Lemma iter_pos_nat {A} (f : A -> A) p x : iter_pos f p x = Nat.iter (Pos.to_nat p) f x.
Proof.
  revert x. induction p as [p IH|p IH|]; intros x; cbn [iter_pos].
  - rewrite !IH, Pos2Nat.inj_xI, <- Nat.iter_add, <- Nat.iter_succ_r.
    f_equal. lia.
  - rewrite !IH, Pos2Nat.inj_xO, <- Nat.iter_add. f_equal. lia.
  - reflexivity.
Qed.

Lemma shr_iter_m n mrs :
  0 <= shr_m mrs -> shr_m (Nat.iter n shr_1 mrs) = shr_m mrs / 2 ^ Z.of_nat n.
Proof.
  intros Hm. induction n as [|n IH].
  - simpl. rewrite Z.div_1_r. reflexivity.
  - rewrite Nat.iter_succ, shr_1_m.
    + rewrite IH, Nat2Z.inj_succ, Z.pow_succ_r by lia.
      rewrite Z.div_div by (try apply Z.pow_pos_nonneg; lia). f_equal. lia.
    + rewrite IH. apply Z.div_pos; [assumption | apply Z.pow_pos_nonneg; lia].
Qed.

Lemma shr_m_spec mrs e n :
  0 <= shr_m mrs ->
  shr_m (fst (shr mrs e n)) = shr_m mrs / 2 ^ Z.max 0 n /\
  snd (shr mrs e n) = e + Z.max 0 n.
Proof.
  intros Hm. unfold shr. destruct n as [|p|p]; cbn [fst snd].
  - simpl. rewrite Z.div_1_r. split; [reflexivity | lia].
  - rewrite iter_pos_nat, shr_iter_m by assumption.
    rewrite positive_nat_Z. rewrite Z.max_r by lia. split; reflexivity.
  - simpl. rewrite Z.div_1_r. split; [reflexivity | lia].
Qed.

Lemma shr_m_record_of_loc m l : shr_m (shr_record_of_loc m l) = m.
Proof. destruct l as [|[| |]]; reflexivity. Qed.

Lemma Zdigits2_div_pow m k :
  0 <= m -> 0 <= k -> Zdigits2 (m / 2 ^ k) <= Z.max 0 (Zdigits2 m - k).
Proof.
  intros Hm Hk. pose proof (Zdigits2_nonneg m) as Hd.
  assert (Hp : 0 < 2 ^ k) by (apply Z.pow_pos_nonneg; lia).
  destruct (Z.eq_dec m 0) as [->|Hne]; [rewrite Z.div_0_l by lia; simpl; lia|].
  destruct (Zdigits2_bounds m) as [_ Hub]; [lia|].
  destruct (Z_le_gt_dec (Zdigits2 m) k) as [Hle|Hgt].
  - assert (2 ^ Zdigits2 m <= 2 ^ k) by (apply Z.pow_le_mono_r; lia).
    rewrite Z.div_small by lia. simpl. lia.
  - rewrite Z.max_r by lia. apply Zdigits2_le_of_lt; [lia|]. split.
    + apply Z.div_pos; lia.
    + apply Z.div_lt_upper_bound; [lia|]. rewrite <- Z.pow_add_r by lia.
      replace (k + (Zdigits2 m - k)) with (Zdigits2 m) by lia. exact Hub.
Qed.

Lemma Zdigits2_succ m : 0 <= m -> Zdigits2 (m + 1) <= Zdigits2 m + 1.
Proof.
  intros Hm. pose proof (Zdigits2_nonneg m) as Hd.
  apply Zdigits2_le_of_lt; [lia|]. split; [lia|].
  replace (Zdigits2 m + 1) with (Z.succ (Zdigits2 m)) by lia.
  rewrite Z.pow_succ_r by lia.
  destruct (Z.eq_dec m 0) as [->|Hne]; [simpl; lia|].
  destruct (Zdigits2_bounds m); lia.
Qed.

Lemma round_nearest_even_bounds m l : m <= round_nearest_even m l <= m + 1.
Proof. unfold round_nearest_even. destruct l as [|[| |]]; try destruct (Z.even m); lia. Qed.

Lemma fexp_eq e : fexp prec emax e = Z.max (e - 53) (-1074).
Proof. reflexivity. Qed.

(** Rounding a non-negative value below [2 ^ B] gives zero or a finite
    float below [2 ^ (B + 1)]. *)
Lemma binary_round_aux_finite sx mx ex lx B :
  0 <= mx -> Zdigits2 mx + ex <= B -> -1074 <= B -> B < 1024 -> ex <= 971 ->
  match binary_round_aux prec emax sx mx ex lx with
  | S754_zero s => s = sx
  | S754_finite s m e => s = sx /\ Zdigits2 (Z.pos m) + e <= B + 1 /\ e <= 971
  | _ => False
  end.
Proof.
  intros Hm HB Hlo Hhi Hex. unfold binary_round_aux, shr_fexp.
  pose proof (Zdigits2_nonneg mx) as Hd.
  set (n1 := fexp prec emax (Zdigits2 mx + ex) - ex).
  destruct (shr_m_spec (shr_record_of_loc mx lx) ex n1) as [Hm1 He1];
    [rewrite shr_m_record_of_loc; exact Hm|].
  destruct (shr (shr_record_of_loc mx lx) ex n1) as [mrs1 e1]. cbn [fst snd] in Hm1, He1.
  rewrite shr_m_record_of_loc in Hm1.
  set (m2 := round_nearest_even (shr_m mrs1) (loc_of_shr_record mrs1)).
  assert (H1 : 0 <= shr_m mrs1).
  { rewrite Hm1. apply Z.div_pos; [exact Hm | apply Z.pow_pos_nonneg; lia]. }
  assert (Hd1 : Zdigits2 (shr_m mrs1) <= Z.max 0 (Zdigits2 mx - Z.max 0 n1)).
  { rewrite Hm1. apply Zdigits2_div_pow; lia. }
  pose proof (round_nearest_even_bounds (shr_m mrs1) (loc_of_shr_record mrs1)) as Hr.
  fold m2 in Hr.
  assert (Hd2 : Zdigits2 m2 <= Zdigits2 (shr_m mrs1) + 1).
  { etransitivity; [apply Zdigits2_mono | apply Zdigits2_succ]; lia. }
  set (n2 := fexp prec emax (Zdigits2 m2 + e1) - e1).
  destruct (shr_m_spec (shr_record_of_loc m2 loc_Exact) e1 n2) as [Hm3 He3];
    [rewrite shr_m_record_of_loc; lia|].
  destruct (shr (shr_record_of_loc m2 loc_Exact) e1 n2) as [mrs3 e3]. cbn [fst snd] in Hm3, He3.
  rewrite shr_m_record_of_loc in Hm3.
  assert (Hd3 : Zdigits2 (shr_m mrs3) <= Z.max 0 (Zdigits2 m2 - Z.max 0 n2)).
  { rewrite Hm3. apply Zdigits2_div_pow; lia. }
  assert (H3 : 0 <= shr_m mrs3).
  { rewrite Hm3. apply Z.div_pos; [lia | apply Z.pow_pos_nonneg; lia]. }
  unfold n1, n2 in *. rewrite !fexp_eq in *.
  destruct (shr_m mrs3) as [|m|m] eqn:Hm3'; [reflexivity | | lia].
  assert (He : e3 <= 971) by lia.
  change (emax - prec) with 971. apply Z.leb_le in He. rewrite He.
  split; [reflexivity|]. split; [|apply Z.leb_le; exact He].
  lia.
Qed.

Lemma binary_round_aux_below mx ex lx B :
  0 <= mx -> Zdigits2 mx + ex <= B -> -1074 <= B -> B < 1024 -> ex <= 971 ->
  below (B + 1) (binary_round_aux prec emax false mx ex lx).
Proof.
  intros Hm HB Hlo Hhi Hex.
  pose proof (binary_round_aux_finite false mx ex lx B Hm HB Hlo Hhi Hex) as H.
  unfold below. destruct (binary_round_aux prec emax false mx ex lx) as [s|s| |s m e];
    try contradiction.
  - subst s. exact I.
  - destruct H as (-> & H1 & H2). split; assumption.
Qed.

Lemma int_true_divide_below w h :
  0 < w < 2 ^ 1000 -> 0 < h ->
  exists x, int_true_divide w h = inr x /\ below 1001 x.
Proof.
  intros [Hw Hwb] Hh. unfold int_true_divide.
  assert (Hh0 : (h =? 0) = false) by (apply Z.eqb_neq; lia).
  assert (Hw0 : (w =? 0) = false) by (apply Z.eqb_neq; lia).
  assert (Hhs : (h <? 0) = false) by (apply Z.ltb_ge; lia).
  assert (Hws : (w <? 0) = false) by (apply Z.ltb_ge; lia).
  rewrite Hh0, Hw0, Hhs, Hws. cbn [xorb].
  rewrite !Z.abs_eq by lia. unfold SFdiv_core_binary.
  pose proof (Zdigits2_nonneg w) as Hd1. pose proof (Zdigits2_nonneg h) as Hd2.
  assert (Hdw : Zdigits2 w <= 1000) by (apply Zdigits2_le_of_lt; lia).
  set (e' := Z.min (fexp prec emax (Zdigits2 w + 0 - (Zdigits2 h + 0))) (0 - 0)).
  assert (He' : e' <= 0) by (unfold e'; lia).
  set (m' := match 0 - 0 - e' with Z.pos _ => Z.shiftl w (0 - 0 - e') | 0 => w | Z.neg _ => 0 end).
  assert (Hm' : m' = w * 2 ^ (- e')).
  { unfold m'. replace (0 - 0 - e') with (- e') by lia.
    destruct (- e') as [|p|p] eqn:Hs; [rewrite Z.mul_1_r; reflexivity | | lia].
    rewrite Z.shiftl_mul_pow2 by lia. reflexivity. }
  assert (Hq : fst (Z.div_eucl m' h) = m' / h) by reflexivity.
  destruct (Z.div_eucl m' h) as [q r]. cbn [fst] in Hq.
  assert (Hp : 0 < 2 ^ (- e')) by (apply Z.pow_pos_nonneg; lia).
  assert (Hq0 : 0 <= q) by (rewrite Hq; apply Z.div_pos; [rewrite Hm'|]; nia).
  assert (Hqd : Zdigits2 q + e' <= 1000).
  { assert (Zdigits2 q <= Zdigits2 w - e'); [|lia].
    apply Zdigits2_le_of_lt; [lia|]. split; [exact Hq0|].
    rewrite Hq. apply Z.le_lt_trans with m'.
    - apply Z.div_le_upper_bound; [lia|]. nia.
    - rewrite Hm'. replace (Zdigits2 w - e') with (Zdigits2 w + - e') by lia.
      rewrite Z.pow_add_r by lia.
      destruct (Zdigits2_bounds w) as [_ Hub]; [lia|]. nia. }
  pose proof (binary_round_aux_below q e' (new_location h r) 1000 Hq0 Hqd) as Hb.
  specialize (Hb ltac:(lia) ltac:(lia) ltac:(lia)).
  unfold below in Hb.
  destruct (binary_round_aux prec emax false q e' (new_location h r)) as [[|]|s| |[|] m e] eqn:Hr;
    try contradiction; (eexists; split; [reflexivity|]); unfold below; auto.
Qed.

Lemma float_mul_below mx ex y B :
  Zdigits2 (Z.pos mx) + ex <= 11 -> ex <= 0 -> 0 <= B -> B < 1012 ->
  below B y ->
  below (B + 12) (float_mul (S754_finite false mx ex) y).
Proof.
  intros Hx Hex HB0 HB Hy. unfold float_mul, SFmul.
  destruct y as [[|]|s| |[|] my ey]; try contradiction; [exact I|].
  destruct Hy as [Hyd Hye]. cbn [xorb].
  replace (B + 12) with (B + 11 + 1) by lia.
  apply (binary_round_aux_below (Z.pos (mx * my)) (ex + ey) loc_Exact (B + 11)); try lia.
  rewrite Pos2Z.inj_mul.
  pose proof (Zdigits2_mul (Z.pos mx) (Z.pos my)). lia.
Qed.

Lemma int_of_float_below B x : below B x -> exists n, int_of_float x = inr n /\ 0 <= n.
Proof.
  unfold below, int_of_float. destruct x as [[|]|s| |[|] m e]; try contradiction; intros H.
  - exists 0. split; [reflexivity | lia].
  - eexists; split; [reflexivity|]. cbn [cond_Zopp].
    destruct e as [|p|p].
    + lia.
    + apply Z.mul_nonneg_nonneg; [lia | apply Z.pow_nonneg; lia].
    + apply Z.div_pos; [lia | apply Z.pow_pos_nonneg; lia].
Qed.

Lemma scaled_width th mth eth w h :
  float_of_int th = inr (S754_finite false mth eth) ->
  Zdigits2 (Z.pos mth) + eth <= 11 -> eth <= 0 ->
  0 < w < 2 ^ 1000 -> 0 < h ->
  exists x s n, int_true_divide w h = inr x /\ int_mul_float th x = inr s /\
                int_of_float s = inr n /\ 0 <= n.
Proof.
  intros Hth Hd He Hw Hh.
  destruct (int_true_divide_below w h Hw Hh) as (x & Hx & Hbx).
  pose proof (float_mul_below mth eth x 1001 Hd He ltac:(lia) ltac:(lia) Hbx) as Hm.
  destruct (int_of_float_below _ _ Hm) as (n & Hn & Hn0).
  exists x, (float_mul (S754_finite false mth eth) x), n.
  split; [exact Hx|]. split; [|split; assumption].
  unfold int_mul_float. rewrite Hth. reflexivity.
Qed.

Lemma even_up n : Z.even (if negb (n mod 2 =? 0) then n + 1 else n) = true.
Proof.
  destruct (n mod 2 =? 0) eqn:H; cbn [negb].
  - apply Z.eqb_eq in H. rewrite Zeven_mod. apply Z.eqb_eq. exact H.
  - apply Z.eqb_neq in H. rewrite Zeven_mod. apply Z.eqb_eq.
    rewrite <- Zplus_mod_idemp_l.
    assert (n mod 2 = 1) by (pose proof (Z.mod_pos_bound n 2); lia).
    rewrite H0. reflexivity.
Qed.

Lemma dimensions_for th mth eth w h res :
  lookup res target_heights = Some th ->
  float_of_int th = inr (S754_finite false mth eth) ->
  Zdigits2 (Z.pos mth) + eth <= 11 -> eth <= 0 ->
  th mod 2 = 0 ->
  0 < w < 2 ^ 1000 -> 0 < h ->
  exists tw, calculate_video_dimensions w h res = inr (tw, th) /\
             Z.even tw = true /\ Z.even th = true /\ 0 <= tw.
Proof.
  intros Hl Hth Hd He Hev Hw Hh.
  destruct (scaled_width th mth eth w h Hth Hd He Hw Hh) as (x & s & n & Hx & Hs & Hn & Hn0).
  unfold calculate_video_dimensions. rewrite Hl, Hx. cbn [bind_exc]. rewrite Hs. cbn [bind_exc].
  rewrite Hn. cbn [bind_exc]. rewrite Hev. cbn [Z.eqb negb].
  eexists; split; [reflexivity|]. split; [apply even_up|]. split.
  - rewrite Zeven_mod, Hev. reflexivity.
  - destruct (negb (n mod 2 =? 0)); lia.
Qed.

(** C9 (amended).  For every original width above 0 and below [2 ^ 1000],
    every original height above 0 and every supported target resolution
    ("720p", "480p", "360p", the keys of [target_heights]),
    [calculate_video_dimensions] returns a pair whose height is the
    nominal height of the resolution and whose two components are even;
    for every other resolution string it raises [ValueError]. *)
Theorem dimensions_are_even_below_float_range w h res :
  0 < w < 2 ^ 1000 -> 0 < h ->
  (forall th, In (res, th) target_heights ->
     exists tw, calculate_video_dimensions w h res = inr (tw, th) /\
                Z.even tw = true /\ Z.even th = true) /\
  (res <> "720p" -> res <> "480p" -> res <> "360p" ->
     calculate_video_dimensions w h res =
     inl (mkExc ValueError ("Unsupported resolution: " +++ res))).
Proof.
  intros Hw Hh. split.
  - intros th Hin.
    assert (Hcase : exists mth eth,
               lookup res target_heights = Some th /\
               float_of_int th = inr (S754_finite false mth eth) /\
               Zdigits2 (Z.pos mth) + eth <= 11 /\ eth <= 0 /\ th mod 2 = 0).
    { simpl in Hin. destruct Hin as [H|[H|[H|[]]]]; injection H as <- <-.
      - exists 6333186975989760%positive, (-43). repeat split; vm_compute; congruence.
      - exists 8444249301319680%positive, (-44). repeat split; vm_compute; congruence.
      - exists 6333186975989760%positive, (-44). repeat split; vm_compute; congruence. }
    destruct Hcase as (mth & eth & Hl & Hth & Hd & He & Hev).
    destruct (dimensions_for th mth eth w h res Hl Hth Hd He Hev Hw Hh) as (tw & Hr & H1 & H2 & _).
    exists tw. repeat split; assumption.
  - intros H1 H2 H3. unfold calculate_video_dimensions. cbn [lookup target_heights].
    apply String.eqb_neq in H1, H2, H3. rewrite H1, H2, H3. reflexivity.
Qed.

Lemma dimensions_are_even_below_float_range_witness :
  0 < 1919 < 2 ^ 1000 /\ 0 < 1080 /\
  calculate_video_dimensions 1919 1080 "720p" = inr (1280, 720) /\
  (forall th, In ("720p", th) target_heights ->
     exists tw, calculate_video_dimensions 1919 1080 "720p" = inr (tw, th) /\
                Z.even tw = true /\ Z.even th = true) /\
  ("720p" <> "720p" -> "720p" <> "480p" -> "720p" <> "360p" ->
     calculate_video_dimensions 1919 1080 "720p" =
     inl (mkExc ValueError ("Unsupported resolution: " +++ "720p"))).
Proof.
  assert (H1 : 0 < 1919 < 2 ^ 1000) by (split; reflexivity).
  assert (H2 : 0 < 1080) by reflexivity.
  split; [exact H1|]. split; [exact H2|]. split; [vm_compute; reflexivity|].
  exact (dimensions_are_even_below_float_range 1919 1080 "720p" H1 H2).
Defined.

(** C9 as stated fails for widths beyond the range of a float: the
    division, or the conversion of the scaled width to an integer, raises
    [OverflowError]. *)
Lemma dimensions_overflow :
  calculate_video_dimensions (2 ^ 1024) 1 "720p" =
  inl (mkExc OverflowError "integer division result too large for a float") /\
  calculate_video_dimensions (2 ^ 1023) 1 "720p" =
  inl (mkExc OverflowError "cannot convert float infinity to integer").
Proof. split; vm_compute; reflexivity. Qed.

End Dimensions.

(** ** [estimate_output_size] *)

Section Estimate.
Local Open Scope string_scope.
Local Open Scope Z_scope.

(** *** What a right shift keeps of the digits it drops *)

Lemma shifted_0 m : shifted m 0 (Build_shr_record m false false).
Proof.
  split; simpl; [rewrite Z.div_1_r; reflexivity|].
  exists 0. rewrite Z.mod_1_r. repeat split; try lia; try reflexivity; try discriminate.
Qed.

Lemma shr_1_r mrs : 0 <= shr_m mrs -> shr_r (shr_1 mrs) = Z.odd (shr_m mrs).
Proof.
  destruct mrs as [m r s]. simpl. intros Hm.
  destruct m as [|p|p]; try lia; [reflexivity|]. destruct p; reflexivity.
Qed.

Lemma shr_1_s mrs : shr_s (shr_1 mrs) = shr_r mrs || shr_s mrs.
Proof.
  destruct mrs as [m r s]. simpl. destruct m as [|p|p]; try reflexivity; destruct p; reflexivity.
Qed.

Lemma mod_pow_succ m n :
  0 <= m -> 0 <= n ->
  m mod 2 ^ (n + 1) = (if Z.odd (m / 2 ^ n) then 2 ^ n else 0) + m mod 2 ^ n.
Proof.
  intros Hm Hn. assert (Hp : 0 < 2 ^ n) by (apply Z.pow_pos_nonneg; lia).
  rewrite Z.pow_add_r by lia. change (2 ^ 1) with 2.
  rewrite Z.rem_mul_r by lia.
  rewrite Z.add_comm. f_equal.
  rewrite Zmod_odd. destruct (Z.odd (m / 2 ^ n)); lia.
Qed.

Lemma shifted_succ m n mrs :
  0 <= m -> 0 <= n -> shifted m n mrs -> shifted m (n + 1) (shr_1 mrs).
Proof.
  intros Hm Hn (Hq & t & Hmod & Ht0 & Ht & Hs & Hr).
  assert (Hp : 0 < 2 ^ n) by (apply Z.pow_pos_nonneg; lia).
  assert (Hq0 : 0 <= shr_m mrs) by (rewrite Hq; apply Z.div_pos; lia).
  split.
  - rewrite shr_1_m by exact Hq0. rewrite Hq, Z.pow_add_r by lia.
    rewrite Z.div_div by lia. reflexivity.
  - exists (m mod 2 ^ n). rewrite shr_1_r by exact Hq0. rewrite shr_1_s, Hq.
    pose proof (Z.mod_pos_bound m (2 ^ n) Hp) as Hb.
    assert (Hpow : 2 ^ (n + 1) = 2 * 2 ^ n) by (rewrite Z.pow_add_r by lia; lia).
    split; [|split; [lia|split; [lia|split]]].
    + rewrite mod_pow_succ by lia. rewrite Hpow.
      replace (2 * 2 ^ n / 2) with (2 ^ n) by (rewrite Z.mul_comm, Z.div_mul; lia).
      reflexivity.
    + rewrite Hs, Hmod. destruct (shr_r mrs) eqn:Er.
      * assert (1 <= n) by auto.
        assert (0 < 2 ^ n / 2).
        { replace n with ((n - 1) + 1) by lia. rewrite Z.pow_add_r by lia.
          change (2 ^ 1) with 2. rewrite Z.div_mul by lia. apply Z.pow_pos_nonneg; lia. }
        simpl. symmetry. apply negb_true_iff, Z.eqb_neq. lia.
      * simpl. reflexivity.
    + intros _. lia.
Qed.

Lemma shifted_iter m n :
  0 <= m -> shifted m (Z.of_nat n) (Nat.iter n shr_1 (Build_shr_record m false false)).
Proof.
  intros Hm. induction n as [|n IH].
  - apply shifted_0.
  - rewrite Nat.iter_succ, Nat2Z.inj_succ. unfold Z.succ.
    apply shifted_succ; [exact Hm | lia | exact IH].
Qed.

Lemma shifted_round m n mrs :
  0 <= n -> shifted m n mrs ->
  round_nearest_even (shr_m mrs) (loc_of_shr_record mrs) = rne m n.
Proof.
  intros Hn (Hq & t & Hmod & Ht0 & Ht & Hs & Hr). unfold rne. rewrite Hmod, <- Hq.
  assert (Hp : 0 < 2 ^ n) by (apply Z.pow_pos_nonneg; lia).
  destruct mrs as [q r s]. cbn [shr_m shr_r shr_s loc_of_shr_record] in *. destruct r.
  - assert (Hn1 : 1 <= n) by auto.
    assert (Hhalf : 2 * (2 ^ n / 2) = 2 ^ n).
    { replace n with ((n - 1) + 1) by lia. rewrite Z.pow_add_r by lia.
      change (2 ^ 1) with 2. rewrite Z.div_mul by lia. lia. }
    destruct s; symmetry in Hs.
    + apply negb_true_iff, Z.eqb_neq in Hs.
      replace (2 * (2 ^ n / 2 + t) ?= 2 ^ n) with Gt by (symmetry; apply Z.compare_gt_iff; lia).
      reflexivity.
    + apply negb_false_iff, Z.eqb_eq in Hs. subst t.
      replace (2 * (2 ^ n / 2 + 0) ?= 2 ^ n) with Eq by (symmetry; apply Z.compare_eq_iff; lia).
      reflexivity.
  - replace (2 * (0 + t) ?= 2 ^ n) with Lt by (symmetry; apply Z.compare_lt_iff; lia).
    destruct s; reflexivity.
Qed.

Lemma shr_shifted m e n :
  0 <= m -> 0 <= n ->
  shifted m n (fst (shr (Build_shr_record m false false) e n)) /\
  snd (shr (Build_shr_record m false false) e n) = e + n.
Proof.
  intros Hm Hn. unfold shr. destruct n as [|p|p]; cbn [fst snd]; try lia.
  - split; [apply shifted_0 | lia].
  - split; [|reflexivity]. rewrite iter_pos_nat, <- positive_nat_Z. apply shifted_iter. exact Hm.
Qed.

(** *** Rounding an exact value *)

Lemma rne_bounds m k : m / 2 ^ k <= rne m k <= m / 2 ^ k + 1.
Proof.
  unfold rne. destruct (2 * (m mod 2 ^ k) ?= 2 ^ k); try destruct (Z.even (m / 2 ^ k)); lia.
Qed.

(** The quotient by [2 ^ (digits - 53)] has exactly 53 digits. *)
Lemma top_bits m :
  0 < m -> 53 <= Zdigits2 m -> 2 ^ 52 <= m / 2 ^ (Zdigits2 m - 53) < 2 ^ 53.
Proof.
  intros Hm Hd.
  destruct (Zdigits2_bounds m Hm) as [Hlo Hhi].
  set (k := Zdigits2 m - 53) in *. assert (Hk : 0 <= k) by (unfold k; lia).
  assert (Hp : 0 < 2 ^ k) by (apply Z.pow_pos_nonneg; lia).
  replace (Zdigits2 m - 1) with (52 + k) in Hlo by (unfold k; lia).
  replace (Zdigits2 m) with (53 + k) in Hhi by (unfold k; lia).
  rewrite Z.pow_add_r in Hlo, Hhi by lia. split.
  - apply Z.div_le_lower_bound; lia.
  - apply Z.div_lt_upper_bound; lia.
Qed.

Lemma Zdigits2_eq m k : 0 <= k -> 2 ^ k <= m < 2 ^ (k + 1) -> Zdigits2 m = k + 1.
Proof.
  intros Hk [Hlo Hhi]. assert (Hp : 0 < 2 ^ k) by (apply Z.pow_pos_nonneg; lia).
  assert (Hm : 0 < m) by lia. destruct (Zdigits2_bounds m Hm) as [Hl Hh].
  pose proof (Zdigits2_nonneg m) as Hd.
  destruct (Z.lt_trichotomy (Zdigits2 m) (k + 1)) as [Hlt|[Heq|Hgt]]; [exfalso|exact Heq|exfalso].
  - assert (2 ^ Zdigits2 m <= 2 ^ k) by (apply Z.pow_le_mono_r; lia). lia.
  - assert (2 ^ (k + 1) <= 2 ^ (Zdigits2 m - 1)) by (apply Z.pow_le_mono_r; lia). lia.
Qed.

(** What [binary_round_aux] computes on an exact value with at least 53
    digits, outside the subnormal range. *)
Lemma binary_round_aux_exact s m e :
  0 < m -> 53 <= Zdigits2 m -> -1074 <= e ->
  let k := Zdigits2 m - 53 in
  is_scaled (binary_round_aux prec emax s m e loc_Exact) s (rne m k) (e + k).
Proof.
  intros Hm Hd He k. unfold is_scaled.
  assert (Hk : 0 <= k) by (unfold k; lia).
  unfold binary_round_aux, shr_fexp. rewrite fexp_eq.
  replace (Z.max (Zdigits2 m + e - 53) (-1074) - e) with k by (unfold k; lia).
  cbn [shr_record_of_loc].
  destruct (shr_shifted m e k) as [Hsh He1]; [lia | exact Hk |].
  destruct (shr {| shr_m := m; shr_r := false; shr_s := false |} e k) as [mrs1 e1].
  cbn [fst snd] in Hsh, He1. subst e1.
  rewrite (shifted_round m k mrs1 Hk Hsh).
  pose proof (rne_bounds m k) as Hrb. pose proof (top_bits m Hm Hd) as Htop. fold k in Htop.
  set (m2 := rne m k) in *. rewrite fexp_eq.
  destruct (Z.eq_dec m2 (2 ^ 53)) as [Heq|Hne].
  - (* the rounding carried into a 54th digit *)
    assert (Hd2 : Zdigits2 m2 = 54) by (rewrite Heq; reflexivity).
    rewrite Hd2. replace (Z.max (54 + (e + k) - 53) (-1074) - (e + k)) with 1 by lia.
    rewrite Heq. cbn [shr shr_1 shr_m shr_r shr_s iter_pos fst snd Z.pow Z.pow_pos Pos.iter Z.mul Pos.mul].
    change (emax - prec) with 971. change (Zdigits2 (2 ^ 53)) with 54 in *.
    destruct (e + k + 1 <=? 971) eqn:Hle.
    + apply Z.leb_le in Hle. split; [reflexivity|]. split; [lia|]. split; [|lia].
      replace (e + k + 1 - (e + k)) with 1 by lia. reflexivity.
    + apply Z.leb_gt in Hle. split; [reflexivity | lia].
  - assert (Hd2 : Zdigits2 m2 = 53) by (apply (Zdigits2_eq m2 52); lia).
    rewrite Hd2. replace (Z.max (53 + (e + k) - 53) (-1074) - (e + k)) with 0 by lia.
    cbn [shr shr_m fst snd].
    destruct m2 as [|p|p] eqn:Hm2; try lia.
    change (emax - prec) with 971.
    destruct (e + k <=? 971) eqn:Hle.
    + apply Z.leb_le in Hle. split; [reflexivity|]. split; [lia|]. split; [|lia].
      rewrite Z.sub_diag. lia.
    + apply Z.leb_gt in Hle. split; [reflexivity | lia].
Qed.

(** *** Rounding to the nearest is monotone and commutes with scaling *)

Lemma rne_0 m : rne m 0 = m.
Proof.
  unfold rne. rewrite Z.pow_0_r, Z.div_1_r, Z.mod_1_r. reflexivity.
Qed.

Lemma rne_exact m k : 0 <= k -> rne (m * 2 ^ k) k = m.
Proof.
  intros Hk. assert (Hp : 0 < 2 ^ k) by (apply Z.pow_pos_nonneg; lia).
  unfold rne. rewrite Z.div_mul, Z.mod_mul by lia.
  assert (H : (2 * 0 ?= 2 ^ k) = Lt) by (apply Z.compare_lt_iff; lia).
  rewrite H. reflexivity.
Qed.

Lemma rne_scale n k j : 0 <= k -> 0 <= j -> rne (n * 2 ^ j) (k + j) = rne n k.
Proof.
  intros Hk Hj. assert (Hp : 0 < 2 ^ k) by (apply Z.pow_pos_nonneg; lia).
  assert (Hq : 0 < 2 ^ j) by (apply Z.pow_pos_nonneg; lia).
  unfold rne. rewrite Z.pow_add_r by lia.
  rewrite Z.div_mul_cancel_r, Z.mul_mod_distr_r by lia.
  rewrite Z.mul_assoc, <- Zmult_compare_compat_r by lia. reflexivity.
Qed.

Lemma rne_mono k a b : 0 <= k -> a <= b -> rne a k <= rne b k.
Proof.
  intros Hk Hab. assert (Hp : 0 < 2 ^ k) by (apply Z.pow_pos_nonneg; lia).
  assert (Hq : a / 2 ^ k <= b / 2 ^ k) by (apply Z.div_le_mono; lia).
  destruct (Z.eq_dec (a / 2 ^ k) (b / 2 ^ k)) as [Heq|Hne].
  - pose proof (Z.div_mod a (2 ^ k)) as Ha. pose proof (Z.div_mod b (2 ^ k)) as Hb.
    assert (Hr : a mod 2 ^ k <= b mod 2 ^ k) by (rewrite Heq in Ha; nia).
    unfold rne. rewrite Heq.
    destruct (Z.compare_spec (2 * (a mod 2 ^ k)) (2 ^ k));
      destruct (Z.compare_spec (2 * (b mod 2 ^ k)) (2 ^ k));
      destruct (Z.even (b / 2 ^ k)); lia.
  - pose proof (rne_bounds a k). pose proof (rne_bounds b k). lia.
Qed.

Lemma Zdigits2_pos m : 0 < m -> 1 <= Zdigits2 m.
Proof. destruct m; simpl; lia. Qed.

Lemma Zdigits2_scale n j : 0 < n -> 0 <= j -> Zdigits2 (n * 2 ^ j) = Zdigits2 n + j.
Proof.
  intros Hn Hj. assert (Hq : 0 < 2 ^ j) by (apply Z.pow_pos_nonneg; lia).
  pose proof (Zdigits2_pos n Hn) as Hd. destruct (Zdigits2_bounds n Hn) as [Hlo Hhi].
  replace (Zdigits2 n + j) with (Zdigits2 n - 1 + j + 1) by lia.
  apply Zdigits2_eq; [lia|].
  replace (Zdigits2 n - 1 + j + 1) with (Zdigits2 n + j) by lia.
  rewrite !Z.pow_add_r by lia. split; nia.
Qed.

Lemma rnd_small n : Zdigits2 n <= 53 -> rnd n = n.
Proof.
  intros Hd. unfold rnd. rewrite Z.max_l by lia. rewrite rne_0. cbn. lia.
Qed.

Lemma rnd_large n :
  53 <= Zdigits2 n -> rnd n = rne n (Zdigits2 n - 53) * 2 ^ (Zdigits2 n - 53).
Proof. intros Hd. unfold rnd. rewrite Z.max_r by lia. reflexivity. Qed.

Lemma rnd_scale n j : 0 < n -> 0 <= j -> rnd (n * 2 ^ j) = rnd n * 2 ^ j.
Proof.
  intros Hn Hj. pose proof (Zdigits2_pos n Hn) as Hd.
  destruct (Z_le_gt_dec 53 (Zdigits2 n)) as [Hge|Hlt].
  - rewrite (rnd_large n Hge), rnd_large by (rewrite Zdigits2_scale; lia).
    rewrite Zdigits2_scale by lia.
    replace (Zdigits2 n + j - 53) with (Zdigits2 n - 53 + j) by lia.
    rewrite rne_scale, Z.pow_add_r by lia. ring.
  - rewrite (rnd_small n) by lia. unfold rnd. rewrite Zdigits2_scale by lia.
    set (k := Z.max 0 (Zdigits2 n + j - 53)).
    assert (Hk : 0 <= k <= j) by (unfold k; lia).
    replace (n * 2 ^ j) with (n * 2 ^ (j - k) * 2 ^ k)
      by (rewrite <- Z.mul_assoc, <- Z.pow_add_r by lia; do 2 f_equal; lia).
    rewrite rne_exact by lia. reflexivity.
Qed.

Lemma rnd_bounds n : 0 < n -> 2 ^ (Zdigits2 n - 1) <= rnd n <= 2 ^ Zdigits2 n.
Proof.
  intros Hn. destruct (Zdigits2_bounds n Hn) as [Hlo Hhi].
  destruct (Z_le_gt_dec 53 (Zdigits2 n)) as [Hge|Hlt].
  - rewrite (rnd_large n Hge). pose proof (top_bits n Hn Hge) as Ht.
    pose proof (rne_bounds n (Zdigits2 n - 53)) as Hb.
    set (k := Zdigits2 n - 53) in *. assert (Hk : 0 <= k) by (unfold k; lia).
    assert (Hp : 0 < 2 ^ k) by (apply Z.pow_pos_nonneg; lia).
    replace (Zdigits2 n - 1) with (52 + k) by (unfold k; lia).
    replace (Zdigits2 n) with (53 + k) by (unfold k; lia).
    rewrite !Z.pow_add_r by lia. split; apply Z.mul_le_mono_nonneg_r; lia.
  - rewrite rnd_small by lia. lia.
Qed.

Lemma rnd_pos n : 0 < n -> 0 < rnd n.
Proof.
  intros Hn. pose proof (rnd_bounds n Hn) as [Hlo _]. pose proof (Zdigits2_pos n Hn).
  assert (0 < 2 ^ (Zdigits2 n - 1)) by (apply Z.pow_pos_nonneg; lia). lia.
Qed.

Lemma rnd_mono a b : 0 < a -> a <= b -> rnd a <= rnd b.
Proof.
  intros Ha Hab. assert (Hd : Zdigits2 a <= Zdigits2 b) by (apply Zdigits2_mono; lia).
  destruct (Z.eq_dec (Zdigits2 a) (Zdigits2 b)) as [Heq|Hne].
  - unfold rnd. rewrite Heq. set (k := Z.max 0 (Zdigits2 b - 53)).
    assert (Hk : 0 <= k) by (unfold k; lia).
    apply Z.mul_le_mono_nonneg_r; [apply Z.pow_nonneg; lia | apply rne_mono; lia].
  - destruct (rnd_bounds a Ha) as [_ Hua].
    destruct (rnd_bounds b) as [Hlb _]; [lia|].
    pose proof (Zdigits2_nonneg a).
    assert (2 ^ Zdigits2 a <= 2 ^ (Zdigits2 b - 1)) by (apply Z.pow_le_mono_r; lia). lia.
Qed.

Lemma rnd_fixed q j : 0 < q <= 2 ^ 53 -> 0 <= j -> rnd (q * 2 ^ j) = q * 2 ^ j.
Proof.
  intros [Hq Hle] Hj. rewrite rnd_scale by lia. f_equal.
  destruct (Z.eq_dec q (2 ^ 53)) as [->|Hne]; [reflexivity|].
  apply rnd_small. apply Zdigits2_le_of_lt; lia.
Qed.

(** *** The floats that the conversion and the product return *)

Lemma is_scaled_shift f s n e j :
  0 < n -> 0 <= j -> is_scaled f s n (e + j) -> is_scaled f s (n * 2 ^ j) e.
Proof.
  intros Hn Hj. unfold is_scaled. rewrite Zdigits2_scale by lia.
  destruct f as [z|s'| |s' m' e']; try tauto.
  - intros [Hs Ho]. split; [exact Hs | lia].
  - intros (Hs & He & Hv & Hd). split; [exact Hs|]. split; [lia|]. split; [|lia].
    replace (e' - e) with (e' - (e + j) + j) by lia.
    rewrite Z.pow_add_r, Z.mul_assoc, Hv by lia. reflexivity.
Qed.

(** [float(n)] for a non-zero [n]: the sign of [n], the magnitude
    [rnd |n|]. *)
Lemma binary_round_scaled s p :
  is_scaled (binary_round prec emax s p 0) s (rnd (Z.pos p) * 2 ^ 52) (-52).
Proof.
  unfold binary_round. rewrite fexp_eq.
  change (Z.pos (digits2_pos p)) with (Zdigits2 (Z.pos p)).
  assert (Hp : 0 < Z.pos p) by lia.
  pose proof (Zdigits2_pos _ Hp) as Hd1.
  set (d := Zdigits2 (Z.pos p)) in *.
  replace (Z.max (d + 0 - 53) (-1074)) with (d - 53) by lia.
  unfold shl_align.
  destruct (d - 53 - 0) as [|dd|dd] eqn:Hdd.
  - (* exactly 53 digits *)
    pose proof (binary_round_aux_exact s (Z.pos p) 0 Hp) as H. fold d in H.
    replace (d - 53) with 0 in H by lia.
    specialize (H ltac:(lia) ltac:(lia)). cbv zeta in H. rewrite rne_0 in H.
    rewrite rnd_small by (fold d; lia).
    apply is_scaled_shift; [lia | lia | exact H].
  - (* more: the low digits are rounded away *)
    pose proof (binary_round_aux_exact s (Z.pos p) 0 Hp) as H. fold d in H.
    specialize (H ltac:(lia) ltac:(lia)). cbv zeta in H.
    rewrite rnd_large by (fold d; lia). fold d.
    pose proof (top_bits (Z.pos p) Hp) as Ht. fold d in Ht. specialize (Ht ltac:(lia)).
    pose proof (rne_bounds (Z.pos p) (d - 53)) as Hb.
    rewrite <- Z.mul_assoc, <- Z.pow_add_r by lia.
    apply is_scaled_shift; [lia | lia |].
    replace (-52 + (d - 53 + 52)) with (0 + (d - 53)) by lia. exact H.
  - (* fewer: the mantissa is shifted up to 53 digits *)
    rewrite rnd_small by (fold d; lia).
    assert (Hm : Z.pos (shift_pos dd p) = Z.pos p * 2 ^ (53 - d)).
    { rewrite shift_pos_correct, Z.pow_pos_fold.
      replace (Z.pos dd) with (53 - d) by lia. apply Z.mul_comm. }
    assert (Hdm : Zdigits2 (Z.pos (shift_pos dd p)) = 53).
    { rewrite Hm, Zdigits2_scale by lia. fold d. lia. }
    pose proof (binary_round_aux_exact s (Z.pos (shift_pos dd p)) (d - 53)) as H.
    rewrite Hdm in H. specialize (H ltac:(lia) ltac:(lia) ltac:(lia)).
    cbv zeta in H. replace (53 - 53) with 0 in H by lia. rewrite rne_0 in H.
    replace (Z.pos p * 2 ^ 52) with (Z.pos (shift_pos dd p) * 2 ^ (d - 1))
      by (rewrite Hm, <- Z.mul_assoc, <- Z.pow_add_r by lia; do 2 f_equal; lia).
    apply is_scaled_shift; [lia | lia |].
    replace (-52 + (d - 1)) with (d - 53 + 0) by lia. exact H.
Qed.

Lemma binary_normalize_scaled x :
  x <> 0 ->
  is_scaled (binary_normalize prec emax x 0 false) (x <? 0) (rnd (Z.abs x) * 2 ^ 52) (-52).
Proof.
  intros Hx. destruct x as [|p|p]; [congruence| |]; apply binary_round_scaled.
Qed.

(** The product of a float of magnitude [n] by a positive constant
    [mc * 2 ^ ec] with a 53-digit mantissa: the magnitude is rounded
    once more. *)
Lemma float_mul_scaled s mx ex n mc ec :
  0 < n -> -52 <= ex -> Z.pos mx * 2 ^ (ex + 52) = n * 2 ^ 52 ->
  2 ^ 52 <= Z.pos mc < 2 ^ 53 -> -1022 <= ec ->
  is_scaled (float_mul (S754_finite s mx ex) (S754_finite false mc ec)) s
            (rnd (n * Z.pos mc)) ec.
Proof.
  intros Hn Hex Hv Hmc Hec. unfold float_mul, SFmul.
  replace (xorb s false) with s by (destruct s; reflexivity).
  rewrite Pos2Z.inj_mul.
  set (P := Z.pos mx * Z.pos mc). set (A := n * Z.pos mc).
  assert (HP : 0 < P) by (unfold P; lia). assert (HA : 0 < A) by (unfold A; nia).
  assert (HAP : A * 2 ^ 52 = P * 2 ^ (ex + 52)).
  { unfold A, P. rewrite <- (Z.mul_comm (Z.pos mc)), <- Z.mul_assoc, <- Hv. ring. }
  assert (HdA : Zdigits2 A + 52 = Zdigits2 P + (ex + 52)).
  { rewrite <- !Zdigits2_scale by lia. f_equal. exact HAP. }
  assert (H53 : 53 <= Zdigits2 A).
  { change 53 with (Zdigits2 (2 ^ 52)). apply Zdigits2_mono. unfold A. nia. }
  assert (H53' : 53 <= Zdigits2 P).
  { change 53 with (Zdigits2 (2 ^ 52)). apply Zdigits2_mono. unfold P. nia. }
  pose proof (binary_round_aux_exact s P (ex + ec) HP H53' ltac:(lia)) as H.
  cbv zeta in H.
  pose proof (top_bits P HP H53') as Ht. pose proof (rne_bounds P (Zdigits2 P - 53)) as Hb.
  assert (Hr : rne A (Zdigits2 A - 53) = rne P (Zdigits2 P - 53)).
  { rewrite <- (rne_scale A (Zdigits2 A - 53) 52) by lia.
    rewrite <- (rne_scale P (Zdigits2 P - 53) (ex + 52)) by lia.
    rewrite HAP. f_equal. lia. }
  rewrite rnd_large, Hr by exact H53.
  apply is_scaled_shift; [lia | lia |].
  replace (ec + (Zdigits2 A - 53)) with (ex + ec + (Zdigits2 P - 53)) by lia.
  exact H.
Qed.

(** *** Comparing numbers *)

Lemma fin_leb_base e0 m1 e1 m2 e2 :
  e0 <= e1 -> e0 <= e2 ->
  m1 * 2 ^ (e1 - e0) <= m2 * 2 ^ (e2 - e0) -> fin_leb m1 e1 m2 e2 = true.
Proof.
  intros H1 H2 Hle. unfold fin_leb. cbv zeta. apply Z.leb_le.
  set (e := Z.min e1 e2) in *. assert (He : e0 <= e /\ e <= e1 /\ e <= e2) by (unfold e; lia).
  assert (Hp : 0 < 2 ^ (e - e0)) by (apply Z.pow_pos_nonneg; lia).
  replace (e1 - e0) with (e1 - e + (e - e0)) in Hle by lia.
  replace (e2 - e0) with (e2 - e + (e - e0)) in Hle by lia.
  rewrite !Z.pow_add_r, !Z.mul_assoc in Hle by lia.
  apply Z.mul_le_mono_pos_r in Hle; assumption.
Qed.

Lemma cond_Zopp_mul s a b : cond_Zopp s a * b = cond_Zopp s (a * b).
Proof. destruct s; simpl; lia. Qed.

(** Comparing two floats through their magnitudes. *)
Lemma scaled_leb f1 s1 n1 e1 f2 s2 n2 e2 :
  is_scaled f1 s1 n1 e1 -> is_scaled f2 s2 n2 e2 ->
  0 < n1 -> 0 < n2 -> e1 <= e2 ->
  cond_Zopp s1 n1 <= cond_Zopp s2 (n2 * 2 ^ (e2 - e1)) ->
  num_leb (Float f1) (Float f2) = true.
Proof.
  intros H1 H2 Hn1 Hn2 He Hle.
  assert (Hp : 0 < 2 ^ (e2 - e1)) by (apply Z.pow_pos_nonneg; lia).
  assert (Hd2 : Zdigits2 (n2 * 2 ^ (e2 - e1)) = Zdigits2 n2 + (e2 - e1))
    by (apply Zdigits2_scale; lia).
  destruct f1 as [z1|t1| |t1 m1 x1]; try contradiction;
    destruct f2 as [z2|t2| |t2 m2 x2]; try contradiction;
    cbn [is_scaled] in H1, H2; unfold num_leb; cbn [value_of].
  - destruct H1 as [-> Ho1]. destruct H2 as [-> Ho2].
    destruct s1, s2; try reflexivity. simpl in Hle. lia.
  - destruct H1 as [-> Ho1]. destruct H2 as (-> & Hx2 & Hv2 & Hf2).
    destruct s1; [reflexivity|]. exfalso. destruct s2; simpl in Hle; [lia|].
    assert (Zdigits2 n1 <= Zdigits2 (n2 * 2 ^ (e2 - e1))) by (apply Zdigits2_mono; lia).
    lia.
  - destruct H1 as (-> & Hx1 & Hv1 & Hf1). destruct H2 as [-> Ho2].
    destruct s2; [|reflexivity]. exfalso. destruct s1; simpl in Hle; [|lia].
    assert (Zdigits2 (n2 * 2 ^ (e2 - e1)) <= Zdigits2 n1) by (apply Zdigits2_mono; lia).
    lia.
  - destruct H1 as (-> & Hx1 & Hv1 & Hf1). destruct H2 as (-> & Hx2 & Hv2 & Hf2).
    apply (fin_leb_base e1); [lia | lia |].
    rewrite !cond_Zopp_mul, Hv1.
    replace (x2 - e1) with (x2 - e2 + (e2 - e1)) by lia.
    rewrite Z.pow_add_r, Z.mul_assoc, Hv2 by lia. exact Hle.
Qed.

Lemma scaled_le_zero f n e z :
  is_scaled f true n e -> num_leb (Float f) (Float (S754_zero z)) = true.
Proof.
  destruct f as [z1|t1| |t1 m1 x1]; try contradiction; cbn [is_scaled];
    unfold num_leb; cbn [value_of].
  - intros [-> _]. reflexivity.
  - intros (-> & _). apply (fin_leb_base (Z.min x1 0)); [lia | lia |].
    simpl cond_Zopp.
    assert (0 <= 2 ^ (x1 - Z.min x1 0)) by (apply Z.pow_nonneg; lia). lia.
Qed.

Lemma zero_le_scaled f n e z :
  is_scaled f false n e -> num_leb (Float (S754_zero z)) (Float f) = true.
Proof.
  destruct f as [z1|t1| |t1 m1 x1]; try contradiction; cbn [is_scaled];
    unfold num_leb; cbn [value_of].
  - intros [-> _]. reflexivity.
  - intros (-> & _). apply (fin_leb_base (Z.min x1 0)); [lia | lia |].
    simpl cond_Zopp.
    assert (0 <= 2 ^ (x1 - Z.min x1 0)) by (apply Z.pow_nonneg; lia). lia.
Qed.

Lemma int_le_scaled x f n e :
  is_scaled f false n e -> e <= 0 -> x * 2 ^ (- e) <= n ->
  num_leb (Int x) (Float f) = true.
Proof.
  intros H He Hle.
  destruct f as [z1|t1| |t1 m1 x1]; try contradiction; cbn [is_scaled] in H;
    unfold num_leb; cbn [value_of].
  - destruct H as [-> _]. reflexivity.
  - destruct H as (-> & Hx & Hv & _). apply (fin_leb_base e); [lia | lia |].
    simpl cond_Zopp. rewrite Hv. replace (0 - e) with (- e) by lia. exact Hle.
Qed.

(** *** The product of a size by a literal *)

Lemma int_mul_float_scaled x mc ec r :
  x <> 0 -> 2 ^ 52 <= Z.pos mc < 2 ^ 53 -> -1022 <= ec ->
  int_mul_float x (S754_finite false mc ec) = inr r ->
  is_scaled r (x <? 0) (rnd (rnd (Z.abs x) * Z.pos mc)) ec.
Proof.
  intros Hx Hmc Hec. unfold int_mul_float, float_of_int.
  pose proof (binary_normalize_scaled x Hx) as H.
  destruct (binary_normalize prec emax x 0 false) as [z|t| |t mx ex];
    try contradiction; [discriminate|].
  cbn [is_scaled] in H. destruct H as (-> & Hex & Hv & _).
  intros [= <-]. apply float_mul_scaled; [apply rnd_pos; lia | exact Hex | | exact Hmc | exact Hec].
  replace (ex + 52) with (ex - -52) by lia. exact Hv.
Qed.

Lemma int_mul_float_returns x c :
  Z.abs x < 2 ^ 1023 -> exists r, int_mul_float x c = inr r.
Proof.
  intros Hx. unfold int_mul_float, float_of_int.
  destruct (Z.eq_dec x 0) as [->|Hne]; [eexists; reflexivity|].
  pose proof (binary_normalize_scaled x Hne) as H.
  destruct (binary_normalize prec emax x 0 false) as [z|t| |t mx ex];
    try contradiction; [exfalso | eexists; reflexivity].
  cbn [is_scaled] in H. destruct H as [_ Ho].
  assert (Ha : 0 < Z.abs x) by lia.
  rewrite Zdigits2_scale in Ho by (try apply rnd_pos; lia).
  destruct (rnd_bounds (Z.abs x) Ha) as [_ Hub].
  assert (Hd : Zdigits2 (Z.abs x) <= 1023) by (apply Zdigits2_le_of_lt; lia).
  assert (Hp : 2 ^ Zdigits2 (Z.abs x) <= 2 ^ 1023)
    by (apply Z.pow_le_mono_r; [lia | exact Hd]).
  assert (Zdigits2 (rnd (Z.abs x)) <= 1024).
  { apply Zdigits2_le_of_lt; [lia|]. pose proof (rnd_pos _ Ha).
    change (2 ^ 1024) with (2 * 2 ^ 1023). lia. }
  lia.
Qed.

(** The product by 1.1 of a positive size covers the size itself, also
    when the size has more than 53 digits. *)
Lemma rnd_covers x : 0 < x -> x * 2 ^ 52 <= rnd (rnd x * 4953959590107546).
Proof.
  intros Hx. destruct (Z_le_gt_dec (Zdigits2 x) 53) as [Hle|Hgt].
  - rewrite (rnd_small x) by exact Hle.
    destruct (Zdigits2_bounds x Hx) as [_ Hub].
    assert (x < 2 ^ 53).
    { eapply Z.lt_le_trans; [exact Hub|]. apply Z.pow_le_mono_r; lia. }
    rewrite <- (rnd_fixed x 52) by lia. apply rnd_mono; lia.
  - pose proof (top_bits x Hx ltac:(lia)) as Ht.
    pose proof (rne_bounds x (Zdigits2 x - 53)) as Hb.
    rewrite (rnd_large x) by lia.
    set (k := Zdigits2 x - 53) in *. assert (Hk : 0 <= k) by (unfold k; lia).
    assert (Hp : 0 < 2 ^ k) by (apply Z.pow_pos_nonneg; lia).
    set (q := x / 2 ^ k) in *.
    assert (Hxq : x < (q + 1) * 2 ^ k).
    { pose proof (Z.div_mod x (2 ^ k)) as Hdm. pose proof (Z.mod_pos_bound x (2 ^ k) Hp).
      fold q in Hdm. nia. }
    apply Z.le_trans with ((q + 1) * 2 ^ (k + 52)).
    + rewrite Z.pow_add_r by lia. nia.
    + rewrite <- (rnd_fixed (q + 1) (k + 52)) by lia.
      apply rnd_mono.
      * assert (0 < 2 ^ (k + 52)) by (apply Z.pow_pos_nonneg; lia). nia.
      * rewrite Z.pow_add_r by lia.
        apply Z.le_trans with (q * 2 ^ k * 4953959590107546).
        -- assert (H1 : (q + 1) * 2 ^ 52 <= q * 4953959590107546) by lia. nia.
        -- apply Z.mul_le_mono_nonneg_r; [lia|].
           apply Z.mul_le_mono_nonneg_r; lia.
Qed.

(** *** The estimate *)

(** The branches of [estimate_output_size]: the size itself, or the size
    times one of the five literals. *)
Lemma estimate_output_size_cases op res :
  (forall x, estimate_output_size x op res = inr (Int x)) \/
  (exists mc ec, is_factor mc ec /\
     forall x, estimate_output_size x op res = times x (S754_finite false mc ec)).
Proof.
  unfold estimate_output_size, f_0_6, f_0_4, f_0_25, f_0_1, f_1_1.
  assert (F : forall mc ec,
             (2 ^ 52 <=? Z.pos mc) && (Z.pos mc <? 2 ^ 53) && (-56 <=? ec) &&
             (ec <=? -52) && (Z.pos mc <=? 4953959590107546 * 2 ^ (-52 - ec)) = true ->
             is_factor mc ec).
  { intros mc ec H. unfold is_factor. lia. }
  destruct (String.eqb op "encode").
  - destruct res as [r|]; [|left; reflexivity].
    destruct (String.eqb r "720p");
      [right; do 2 eexists; (split; [|reflexivity]); apply F; reflexivity|].
    destruct (String.eqb r "480p");
      [right; do 2 eexists; (split; [|reflexivity]); apply F; reflexivity|].
    destruct (String.eqb r "360p");
      [right; do 2 eexists; (split; [|reflexivity]); apply F; reflexivity|].
    left; reflexivity.
  - destruct (String.eqb op "extract_audio");
      [right; do 2 eexists; (split; [|reflexivity]); apply F; reflexivity|].
    destruct (String.eqb op "add_audio" || String.eqb op "embed_subtitles")%bool;
      [right; do 2 eexists; (split; [|reflexivity]); apply F; reflexivity|].
    left; reflexivity.
Qed.

Lemma times_inv x c a :
  times x c = inr a -> exists r, int_mul_float x c = inr r /\ a = Float r.
Proof.
  unfold times, bind_exc. destruct (int_mul_float x c) as [e|r]; [discriminate|].
  intros [= <-]. eexists; split; reflexivity.
Qed.

Lemma times_mono mc ec x y a b :
  is_factor mc ec -> x <= y ->
  times x (S754_finite false mc ec) = inr a ->
  times y (S754_finite false mc ec) = inr b ->
  num_leb a b = true.
Proof.
  intros (Hmc & Hec & _) Hxy Ha Hb.
  apply times_inv in Ha. destruct Ha as (ra & Ha & ->).
  apply times_inv in Hb. destruct Hb as (rb & Hb & ->).
  assert (Hx : x <> 0 -> is_scaled ra (x <? 0) (rnd (rnd (Z.abs x) * Z.pos mc)) ec)
    by (intros Hne; apply int_mul_float_scaled; [exact Hne | exact Hmc | lia | exact Ha]).
  assert (Hy : y <> 0 -> is_scaled rb (y <? 0) (rnd (rnd (Z.abs y) * Z.pos mc)) ec)
    by (intros Hne; apply int_mul_float_scaled; [exact Hne | exact Hmc | lia | exact Hb]).
  assert (Hpos : forall z, z <> 0 -> 0 < rnd (rnd (Z.abs z) * Z.pos mc)).
  { intros z Hz. apply rnd_pos. assert (0 < rnd (Z.abs z)) by (apply rnd_pos; lia). nia. }
  assert (Hmono : forall u v, 0 < u -> u <= v ->
             rnd (rnd u * Z.pos mc) <= rnd (rnd v * Z.pos mc)).
  { intros u v Hu Huv. pose proof (rnd_pos u Hu). pose proof (rnd_mono u v Hu Huv).
    apply rnd_mono; nia. }
  destruct (Z.eq_dec x 0) as [Hx0|Hx0]; destruct (Z.eq_dec y 0) as [Hy0|Hy0].
  - subst. change (int_mul_float 0 (S754_finite false mc ec)) with
      (inr (S754_zero false) : exc + float) in Ha, Hb.
    injection Ha as <-. injection Hb as <-. reflexivity.
  - subst x. change (int_mul_float 0 (S754_finite false mc ec)) with
      (inr (S754_zero false) : exc + float) in Ha.
    injection Ha as <-. specialize (Hy Hy0).
    replace (y <? 0) with false in Hy by (symmetry; apply Z.ltb_ge; lia).
    eapply zero_le_scaled. exact Hy.
  - subst y. change (int_mul_float 0 (S754_finite false mc ec)) with
      (inr (S754_zero false) : exc + float) in Hb.
    injection Hb as <-. specialize (Hx Hx0).
    replace (x <? 0) with true in Hx by (symmetry; apply Z.ltb_lt; lia).
    eapply scaled_le_zero. exact Hx.
  - specialize (Hx Hx0). specialize (Hy Hy0).
    pose proof (Hpos x Hx0) as Hpx. pose proof (Hpos y Hy0) as Hpy.
    eapply scaled_leb; [exact Hx | exact Hy | exact Hpx | exact Hpy | lia |].
    rewrite Z.sub_diag, Z.pow_0_r, Z.mul_1_r.
    destruct (Z.ltb_spec x 0) as [Hxn|Hxp]; destruct (Z.ltb_spec y 0) as [Hyn|Hyp];
      cbn [cond_Zopp]; try lia.
    + assert (rnd (rnd (Z.abs y) * Z.pos mc) <= rnd (rnd (Z.abs x) * Z.pos mc))
        by (apply Hmono; lia). lia.
    + apply Hmono; lia.
Qed.

Lemma times_below mc ec x a c :
  is_factor mc ec -> 0 <= x ->
  times x (S754_finite false mc ec) = inr a ->
  int_mul_float x f_1_1 = inr c ->
  num_leb a (Float c) = true.
Proof.
  intros (Hmc & Hec & Hle) Hx Ha Hc.
  apply times_inv in Ha. destruct Ha as (ra & Ha & ->).
  destruct (Z.eq_dec x 0) as [->|Hx0].
  - change (int_mul_float 0 (S754_finite false mc ec)) with
      (inr (S754_zero false) : exc + float) in Ha.
    change (int_mul_float 0 f_1_1) with (inr (S754_zero false) : exc + float) in Hc.
    injection Ha as <-. injection Hc as <-. reflexivity.
  - apply int_mul_float_scaled in Ha; [|exact Hx0|exact Hmc|lia].
    unfold f_1_1 in Hc. apply int_mul_float_scaled in Hc; [|exact Hx0|lia|lia].
    replace (x <? 0) with false in Ha, Hc by (symmetry; apply Z.ltb_ge; lia).
    rewrite Z.abs_eq in Ha, Hc by lia.
    assert (Hr : 0 < rnd x) by (apply rnd_pos; lia).
    assert (Hp : 0 < 2 ^ (-52 - ec)) by (apply Z.pow_pos_nonneg; lia).
    eapply scaled_leb; [exact Ha | exact Hc | | | lia |].
    + apply rnd_pos. nia.
    + apply rnd_pos. nia.
    + cbn [cond_Zopp]. rewrite <- rnd_scale by nia.
      apply rnd_mono; [nia|]. rewrite <- Z.mul_assoc.
      apply Z.mul_le_mono_nonneg_l; lia.
Qed.

Lemma int_below x c :
  0 <= x -> int_mul_float x f_1_1 = inr c -> num_leb (Int x) (Float c) = true.
Proof.
  intros Hx Hc. destruct (Z.eq_dec x 0) as [->|Hx0].
  - change (int_mul_float 0 f_1_1) with (inr (S754_zero false) : exc + float) in Hc.
    injection Hc as <-. reflexivity.
  - unfold f_1_1 in Hc. apply int_mul_float_scaled in Hc; [|exact Hx0|lia|lia].
    replace (x <? 0) with false in Hc by (symmetry; apply Z.ltb_ge; lia).
    rewrite Z.abs_eq in Hc by lia.
    eapply int_le_scaled; [exact Hc | lia |]. apply rnd_covers. lia.
Qed.

(** C10 (amended).  [estimate_output_size] is a function of its three
    arguments alone.  For every operation and resolution: it returns for
    every [input_size] of magnitude below [2 ^ 1023]; wherever it returns
    it is monotone nondecreasing in [input_size]; and for every
    [input_size >= 0] the returned estimate never exceeds the float
    product [input_size * 1.1] as Python evaluates it, which is what the
    'add_audio' and 'embed_subtitles' branches return.  The numbers are
    compared by their exact values. *)
Theorem estimate_is_monotone_and_below_the_float_product op res :
  (forall x a b,
     estimate_output_size x op res = a -> estimate_output_size x op res = b -> a = b) /\
  (forall x, Z.abs x < 2 ^ 1023 -> exists a, estimate_output_size x op res = inr a) /\
  (forall x y a b, x <= y ->
     estimate_output_size x op res = inr a ->
     estimate_output_size y op res = inr b -> num_leb a b = true) /\
  (forall x a c, 0 <= x ->
     estimate_output_size x op res = inr a ->
     int_mul_float x f_1_1 = inr c -> num_leb a (Float c) = true).
Proof.
  split; [intros x a b <- <-; reflexivity|].
  destruct (estimate_output_size_cases op res) as [Hd|(mc & ec & Hf & Ht)].
  - split; [|split].
    + intros x _. eexists. apply Hd.
    + intros x y a b Hxy. rewrite !Hd. intros [= <-] [= <-].
      unfold num_leb. cbn [value_of]. apply (fin_leb_base 0); lia.
    + intros x a c Hx. rewrite Hd. intros [= <-]. apply int_below. exact Hx.
  - split; [|split].
    + intros x Hx. rewrite Ht. unfold times.
      destruct (int_mul_float_returns x (S754_finite false mc ec) Hx) as [r ->].
      eexists. reflexivity.
    + intros x y a b Hxy. rewrite !Ht. apply times_mono; assumption.
    + intros x a c Hx. rewrite Ht. apply times_below; assumption.
Qed.

Lemma estimate_is_monotone_and_below_the_float_product_witness :
  1000 <= 2000 /\ 0 <= 1000 /\
  estimate_output_size 1000 "encode" (Some "720p") =
  inr (Float (S754_finite false 5277655813324800 (-43))) /\
  estimate_output_size 2000 "encode" (Some "720p") =
  inr (Float (S754_finite false 5277655813324800 (-42))) /\
  int_mul_float 1000 f_1_1 = inr (S754_finite false 4837851162214400 (-42)) /\
  num_leb (Float (S754_finite false 5277655813324800 (-43)))
          (Float (S754_finite false 5277655813324800 (-42))) = true /\
  num_leb (Float (S754_finite false 5277655813324800 (-43)))
          (Float (S754_finite false 4837851162214400 (-42))) = true.
Proof.
  assert (H1 : 1000 <= 2000) by lia.
  assert (H2 : 0 <= 1000) by lia.
  assert (H3 : estimate_output_size 1000 "encode" (Some "720p") =
               inr (Float (S754_finite false 5277655813324800 (-43))))
    by (vm_compute; reflexivity).
  assert (H4 : estimate_output_size 2000 "encode" (Some "720p") =
               inr (Float (S754_finite false 5277655813324800 (-42))))
    by (vm_compute; reflexivity).
  assert (H5 : int_mul_float 1000 f_1_1 = inr (S754_finite false 4837851162214400 (-42)))
    by (vm_compute; reflexivity).
  pose proof (estimate_is_monotone_and_below_the_float_product "encode" (Some "720p"))
    as (_ & _ & Hmono & Hbelow).
  exact (conj H1 (conj H2 (conj H3 (conj H4 (conj H5
          (conj (Hmono 1000 2000 _ _ H1 H3 H4) (Hbelow 1000 _ _ H2 H3 H5))))))).
Defined.

(** C10 as stated fails when the bound is the exact product of 1.1 and
    the size: for 100 bytes and 'add_audio' the estimate is [100 * 1.1]
    in floats, 110.00000000000001, which is above 110. *)
Lemma estimate_exceeds_eleven_tenths :
  estimate_output_size 100 "add_audio" None =
  inr (Float (S754_finite false 7740561859543041 (-46))) /\
  exceeds (Float (S754_finite false 7740561859543041 (-46))) (11 * 100) 10 = true.
Proof. split; vm_compute; reflexivity. Qed.

End Estimate.

(** * Further properties

    Properties of the same code beyond the claims, and of the functions
    around it. *)

(** ** The feed task, whatever its outcome *)

Lemma progress_inputs_app tr1 tr2 :
  progress_inputs (tr1 ++ tr2) = progress_inputs tr1 ++ progress_inputs tr2.
Proof.
  induction tr1 as [|[t ev] tr1 IH]; simpl; [reflexivity|].
  destruct ev; simpl; rewrite ?IH; try reflexivity.
  destruct input_bytes; simpl; rewrite ?IH; reflexivity.
Qed.

Lemma call_progress_feeder cb n (s : feeder) :
  let s' := state_of (call_progress cb (Some n) None s) in
  f_stdin s' = f_stdin s /\ f_closed s' = f_closed s /\
  progress_inputs (f_trace s') =
    progress_inputs (f_trace s) ++ match cb with Some _ => [n] | None => [] end.
Proof.
  destruct cb as [f|]; cbn.
  - unfold bind, emit, await. cbn. destruct (f (Some n) None); cbn;
      rewrite progress_inputs_app; repeat split; reflexivity.
  - rewrite app_nil_r. repeat split; reflexivity.
Qed.

Lemma fed_stop cb rest total s (r : res feeder unit) :
  f_stdin (state_of r) = f_stdin s ->
  f_closed (state_of r) = f_closed s ->
  f_trace (state_of r) = f_trace s ->
  (forall s', r = Ok tt s' -> rest = []) ->
  fed cb rest total s r.
Proof.
  intros H1 H2 H3 H4. exists []. rewrite H1, H2, H3, !app_nil_r.
  split; [reflexivity|]. split; [exists (delivered rest); reflexivity|].
  split; [reflexivity|]. split; [destruct cb; rewrite ?app_nil_r; reflexivity|].
  intros s' Hr. rewrite (H4 s' Hr). reflexivity.
Qed.

Lemma feed_loop_fed tg cb rest :
  forall fuel total s,
    (List.length rest < fuel)%nat ->
    fed cb rest total s (feed_loop fuel tg cb (TgStreaming rest) total s).
Proof.
  induction rest as [|op rest IH]; intros fuel total s Hfuel;
    (destruct fuel as [|fuel]; [simpl in Hfuel; lia|]).
  - apply fed_stop; try reflexivity.
  - destruct op as [dt c|dt e|].
    + cbn [feed_loop].
      erewrite bind_ok by (unfold stream_from_telegram_next; task_unfold; reflexivity).
      cbv iota. erewrite bind_ok by (unfold stdin_write; reflexivity).
      set (s1 := mkFeeder _ _ _ _).
      assert (Hs1 : f_stdin s1 = f_stdin s ++ [c] /\ f_closed s1 = f_closed s /\
                    progress_inputs (f_trace s1) = progress_inputs (f_trace s)).
      { subst s1. cbn. rewrite progress_inputs_app. cbn. rewrite app_nil_r.
        repeat split; reflexivity. }
      destruct Hs1 as (Hin1 & Hcl1 & Hpr1).
      pose proof (call_progress_feeder cb (total + len c)%Z s1) as Hcall. cbv zeta in Hcall.
      destruct Hcall as (Hin & Hcl & Hpr).
      unfold bind.
      destruct (call_progress cb (Some (total + len c)%Z) None s1) as [[] s2|e s2|s2];
        cbn [state_of] in Hin, Hcl, Hpr.
      * destruct (IH fuel (total + len c)%Z s2) as (pre & Hp1 & [post Hp2] & Hp3 & Hp4 & Hp5);
          [simpl in Hfuel; lia|].
        exists (c :: pre). split; [|split; [|split; [|split]]].
        -- rewrite Hp1, Hin, Hin1, <- app_assoc. reflexivity.
        -- exists post. cbn. rewrite Hp2. reflexivity.
        -- rewrite Hp3, Hcl, Hcl1. reflexivity.
        -- rewrite Hp4, Hpr, Hpr1, <- app_assoc. destruct cb; cbn; reflexivity.
        -- intros s' Hr. cbn. rewrite (Hp5 s' Hr). reflexivity.
      * exists [c]. cbn [state_of]. split; [|split; [|split; [|split]]].
        -- rewrite Hin, Hin1. reflexivity.
        -- exists (delivered rest). reflexivity.
        -- rewrite Hcl, Hcl1. reflexivity.
        -- rewrite Hpr, Hpr1. destruct cb; cbn; reflexivity.
        -- discriminate.
      * exists [c]. cbn [state_of]. split; [|split; [|split; [|split]]].
        -- rewrite Hin, Hin1. reflexivity.
        -- exists (delivered rest). reflexivity.
        -- rewrite Hcl, Hcl1. reflexivity.
        -- rewrite Hpr, Hpr1. destruct cb; cbn; reflexivity.
        -- discriminate.
    + cbn [feed_loop]. unfold bind, stream_from_telegram_next, try_except, stream_media_next.
      unfold bind, await, raise. cbn [clock feeder_task set_clock].
      destruct (is_Exception e); apply fed_stop; try reflexivity; discriminate.
    + cbn [feed_loop]. unfold bind, stream_from_telegram_next, try_except, stream_media_next.
      unfold bind, await. apply fed_stop; try reflexivity; discriminate.
Qed.

(** The feed task from its creation to its end. *)
Lemma feed_input_fed tg cb t :
  let r := feed_input tg (stream_from_telegram tg) cb (mkFeeder t [] [] false) in
  exists pre,
    f_stdin (state_of r) = pre /\
    (exists post, pre ++ post = delivered (media tg)) /\
    (f_closed (state_of r) = true <-> exists s', r = Ok tt s') /\
    progress_inputs (f_trace (state_of r)) =
      match cb with Some _ => running_totals 0 pre | None => [] end /\
    (forall s', r = Ok tt s' ->
       returned (media tg) = Some pre /\ (file_size tg <= max_file_size)%Z).
Proof.
  cbv zeta. set (s0 := mkFeeder t [] [] false).
  destruct (Z_le_gt_dec (file_size tg) max_file_size) as [Hsmall|Hbig].
  - unfold feed_input, stream_from_telegram. cbn [tg_remaining].
    unfold bind. rewrite feed_loop_created by exact Hsmall.
    set (s1 := record _ s0).
    destruct (feed_loop_fed tg cb (media tg) (S (List.length (media tg))) 0%Z s1)
      as (pre & Hp1 & Hp2 & Hp3 & Hp4 & Hp5); [lia|].
    exists pre.
    destruct (feed_loop _ tg cb (TgStreaming (media tg)) 0 s1) as [[] s2|e s2|s2];
      cbn [state_of] in *; unfold stdin_close; cbn [state_of f_stdin f_closed f_trace].
    + split; [exact Hp1|]. split; [exact Hp2|]. split; [|split].
      * split; [intros _; eexists; reflexivity | reflexivity].
      * rewrite progress_inputs_app, Hp4. cbn. rewrite app_nil_r. reflexivity.
      * intros s' _. split; [apply (Hp5 s2); reflexivity | exact Hsmall].
    + split; [exact Hp1|]. split; [exact Hp2|]. split; [|split].
      * rewrite Hp3. cbn. split; [discriminate | intros [s' H]; discriminate].
      * exact Hp4.
      * discriminate.
    + split; [exact Hp1|]. split; [exact Hp2|]. split; [|split].
      * rewrite Hp3. cbn. split; [discriminate | intros [s' H]; discriminate].
      * exact Hp4.
      * discriminate.
  - rewrite (feed_input_oversize tg cb s0 Hbig). exists []. cbn.
    split; [reflexivity|]. split; [exists (delivered (media tg)); reflexivity|].
    split; [split; [discriminate | intros [s' H]; discriminate]|].
    split; [destruct cb; reflexivity | discriminate].
Qed.

(** X1.  Whatever the source, the observer and the size of the file, and
    however the feed task ends (it returns, raises or stays suspended):
    the chunks it has written to the child's stdin are, in order, a prefix
    of the chunks Telegram handed over; stdin is closed exactly when the
    task returns; and when it returns the file was within the size limit
    and every chunk of the stream was written. *)
Theorem stdin_holds_a_prefix_of_the_source tg cb t :
  let r := feed_input tg (stream_from_telegram tg) cb (mkFeeder t [] [] false) in
  (exists rest, f_stdin (state_of r) ++ rest = delivered (media tg)) /\
  (f_closed (state_of r) = true <-> exists s', r = Ok tt s') /\
  (forall s', r = Ok tt s' ->
     returned (media tg) = Some (f_stdin s') /\ (file_size tg <= max_file_size)%Z).
Proof.
  cbv zeta. destruct (feed_input_fed tg cb t) as (pre & H1 & H2 & H3 & _ & H5).
  split; [rewrite H1; exact H2|]. split; [exact H3|].
  intros s' Hr. rewrite Hr in H1. cbn in H1. rewrite H1. apply (H5 s' Hr).
Qed.

(** X2.  The input totals the feed task passes to the progress observer
    are the running byte counts of the chunks written to stdin, one call
    per chunk written, whatever the outcome of the task; without an
    observer nothing is reported. *)
Theorem progress_reports_running_totals tg cb t :
  let r := feed_input tg (stream_from_telegram tg) cb (mkFeeder t [] [] false) in
  progress_inputs (f_trace (state_of r)) =
  match cb with Some _ => running_totals 0 (f_stdin (state_of r)) | None => [] end.
Proof.
  cbv zeta. destruct (feed_input_fed tg cb t) as (pre & H1 & _ & _ & H4 & _).
  rewrite H1. exact H4.
Qed.

(** ** Whole runs of [process_video_stream] *)

Lemma same_tmp_refl w : same_tmp w w.
Proof. reflexivity. Qed.

Lemma same_tmp_trans w1 w2 w3 : same_tmp w1 w2 -> same_tmp w2 w3 -> same_tmp w1 w3.
Proof. unfold same_tmp. congruence. Qed.

Lemma same_tmp_now w t : same_tmp w (set_now t w).
Proof. reflexivity. Qed.

Lemma same_tmp_log w ev : same_tmp w (log ev w).
Proof. reflexivity. Qed.

Lemma same_tmp_event w t ev :
  match ev with EvYield _ | EvStdoutRead _ | EvSpawn _ | EvCreateTask => False | _ => True end ->
  same_tmp w (log (t, ev) w).
Proof. reflexivity. Qed.

Lemma same_tmp_proc w p : p <> NotSpawned -> same_tmp w (set_proc p w).
Proof. reflexivity. Qed.

Ltac same_side :=
  first [ exact same_tmp_refl | exact same_tmp_trans | exact same_tmp_now
        | exact same_tmp_event | exact same_tmp_proc ].

Lemma same_tmp_bind {A B} (m : M world A) (k : A -> M world B) :
  keeps same_tmp m -> (forall a, keeps same_tmp (k a)) -> keeps same_tmp (bind m k).
Proof. apply keeps_bind; same_side. Qed.

Lemma same_tmp_emit ev : keeps same_tmp (emit ev).
Proof. intros w. reflexivity. Qed.

(** The generator never touches the temporary file. *)
Lemma same_tmp_pwf_body a st : keeps same_tmp (pwf_body a st).
Proof.
  assert (Hresume : forall p d, keeps same_tmp (resume p d)).
  { intros p [|c outs ob]; cbn [resume].
    - apply same_tmp_bind; [apply keeps_finish; same_side | intros; apply keeps_ret; same_side].
    - apply same_tmp_bind; [apply same_tmp_emit | intros; apply keeps_ret; same_side]. }
  assert (Hread : forall outs ob, keeps same_tmp (read_chunk outs ob)).
  { intros outs ob. unfold read_chunk. apply same_tmp_bind.
    - unfold stdout_read. destruct outs as [|op outs]; [apply keeps_ret; same_side|].
      apply same_tmp_bind; [apply keeps_await; same_side | intros c].
      apply same_tmp_bind; [apply same_tmp_emit | intros; apply keeps_ret; same_side].
    - intros r. destruct (fst r); apply keeps_ret; same_side. }
  destruct st as [|p outs ob|]; cbn [pwf_body].
  - apply keeps_outer_try; try same_side.
    apply same_tmp_bind.
    + unfold start. apply same_tmp_bind.
      * unfold create_subprocess_exec. apply same_tmp_bind; [apply keeps_await; same_side|].
        intros prog w. reflexivity.
      * intros prog. apply same_tmp_bind; [intros w; reflexivity|].
        intros feed w. reflexivity.
    + intros p. apply same_tmp_bind; [|intros d; apply Hresume].
      apply keeps_inner_try; try same_side. apply Hread.
  - apply keeps_outer_try; try same_side.
    apply same_tmp_bind; [|intros d; apply Hresume].
    apply keeps_inner_try; try same_side.
    apply same_tmp_bind; [apply keeps_call_progress; same_side | intros; apply Hread].
  - apply keeps_ret; same_side.
Qed.

Lemma same_tmp_anext a : keeps same_tmp (anext a).
Proof.
  intros w. unfold anext. pose proof (same_tmp_pwf_body a (gen w) w) as H.
  destruct (pwf_body a (gen w) w) as [[o st] w1|e w1|w1]; exact H.
Qed.

Lemma yielded_tmp_write w c f :
  yielded (trace (log (now w, EvTmpWrite c) (set_tmp f w))) = yielded (trace w).
Proof. cbn. rewrite yielded_app. cbn. apply app_nil_r. Qed.

(** The consumer loop of [send_processed_video], when it returns: the
    child has exited with code 0, the feed task is done, and the temporary
    file holds the chunks yielded. *)
Lemma for_rest_returned a k fuel :
  forall w p outs ob w',
    gen w = PwfAtYield p outs ob ->
    tmp_file w = Some (yielded (trace w)) ->
    for_rest fuel a (temp_file_write k) w = Ok tt w' ->
    proc w' = Exited 0 /\ (exists f, r_feed p = Ok tt f) /\
    tmp_file w' = Some (yielded (trace w')).
Proof.
  induction fuel as [|fuel IH]; intros w p outs ob w' Hg Htmp Hrun; [discriminate|].
  cbn [for_rest] in Hrun. unfold bind at 1 in Hrun.
  pose proof (anext_resumed a w p outs ob Hg) as Hpost.
  pose proof (same_tmp_anext a w) as Hsame. unfold same_tmp in Hsame.
  destruct (anext a w) as [[c|] w1|e w1|w1]; try discriminate; cbn [state_of] in Hsame.
  - destruct Hpost as (d & outs' & -> & Hc & Hg1 & _ & Hy & _).
    cbv beta iota in Hrun. unfold bind at 1 in Hrun. unfold temp_file_write in Hrun.
    rewrite Hsame, Htmp in Hrun.
    destruct (tmp_write k (yielded (trace w)) c); [discriminate|].
    eapply IH; [| | exact Hrun].
    + cbn. exact Hg1.
    + rewrite yielded_tmp_write, Hy. reflexivity.
  - cbv beta iota in Hrun. unfold ret in Hrun.
    assert (w1 = w') by congruence. subst w'.
    destruct Hpost as ((_ & Hy & _) & _ & _ & Hp & Hf).
    split; [exact Hp|]. split; [exact Hf|]. rewrite Hsame, Htmp, Hy. reflexivity.
Qed.

(** The first [__anext__] returns only when the child was spawned. *)
Lemma anext_created_returns a w o w1 :
  gen w = PwfCreated -> anext a w = Ok o w1 ->
  exists dt prog, a_os a (a_ffmpeg_cmd a) = Returns dt prog.
Proof.
  intros Hg Hrun. destruct (a_os a (a_ffmpeg_cmd a)) as [dt prog|dt e|] eqn:Hos.
  - exists dt, prog. reflexivity.
  - exfalso. unfold anext in Hrun. rewrite Hg in Hrun. cbn [pwf_body] in Hrun.
    match type of Hrun with
    | context [outer_try ?m w] =>
        pose proof (outer_try_spec m w) as Hspec;
        assert (Hm : m w = Exc e (set_now (now w + dt) w))
          by (unfold start, create_subprocess_exec, bind, await; rewrite Hos; reflexivity);
        rewrite Hm in Hspec
    end.
    destruct (is_Exception e).
    + destruct Hspec as (e' & w2 & Hspec & _). rewrite Hspec in Hrun. discriminate.
    + rewrite Hspec in Hrun. discriminate.
  - exfalso. unfold anext in Hrun. rewrite Hg in Hrun. cbn [pwf_body] in Hrun.
    match type of Hrun with
    | context [outer_try ?m w] =>
        pose proof (outer_try_spec m w) as Hspec;
        assert (Hm : m w = Hang w)
          by (unfold start, create_subprocess_exec, bind, await; rewrite Hos; reflexivity);
        rewrite Hm in Hspec
    end.
    rewrite Hspec in Hrun. discriminate.
Qed.

(** X4.  A run of [process_video_stream] returns normally only when
    everything went well: the child was spawned, the feed task returned
    (so every chunk of the Telegram stream was written to the child's
    stdin and stdin was closed), the child exited with code 0, the chunks
    yielded are exactly what the child wrote to its stdout, [reply_video]
    was given exactly those chunks and returned, and the temporary file
    is gone. *)
Theorem a_run_returns_only_after_a_clean_exit sys tg cmd cb k w' :
  process_video_stream sys tg cmd cb k initial_world = Ok tt w' ->
  let a := mkArgs sys tg (stream_from_telegram tg) cmd cb in
  exists dt prog f dtr,
    sys cmd = Returns dt prog /\
    feed_of a dt = Ok tt f /\
    returned (media tg) = Some (f_stdin f) /\
    f_closed f = true /\
    proc w' = Exited 0 /\
    yielded (trace w') = written (c_stdout (child_of a prog dt)) /\
    reply_video k (yielded (trace w')) = Returns dtr tt /\
    tmp_file w' = None.
Proof.
  intros Hrun a.
  set (w0 := set_tmp (Some []) (set_gen PwfCreated initial_world)).
  assert (Hsend : send_processed_video a k (set_gen PwfCreated initial_world) = Ok tt w')
    by exact Hrun.
  unfold send_processed_video, try_except in Hsend.
  unfold bind at 1 in Hsend. fold w0 in Hsend. unfold bind at 1 in Hsend.
  destruct (async_for a (temp_file_write k) w0) as [[] w1|e w1|w1] eqn:Hfor.
  2:{ exfalso. destruct (is_Exception e); [|discriminate].
      unfold bind, raise in Hsend. cbn in Hsend.
      destruct (tmp_file w1); discriminate. }
  2:{ discriminate. }
  (* the loop returned *)
  assert (Hloop : exists dt prog f,
             sys cmd = Returns dt prog /\ feed_of a dt = Ok tt f /\
             proc w1 = Exited 0 /\ tmp_file w1 = Some (yielded (trace w1)) /\
             yielded (trace w1) = written (c_stdout (child_of a prog dt))).
  { unfold async_for in Hfor. unfold bind at 1 in Hfor.
    destruct (anext a w0) as [o w2|e w2|w2] eqn:Hfirst; try discriminate.
    destruct (anext_created_returns a w0 o w2 eq_refl Hfirst) as (dt & prog & Hos).
    exists dt, prog.
    pose proof (anext_created a w0 dt prog eq_refl Hos) as Hpost.
    pose proof (same_tmp_anext a w0) as Hsame. unfold same_tmp in Hsame.
    rewrite Hfirst in Hpost, Hsame. cbn [state_of] in Hsame.
    assert (Hdel : delivers (written (c_stdout (child_of a prog (now w0 + dt))))
                            (async_for a (temp_file_write k) w0)).
    { apply async_for_delivers; try reflexivity; [intros c; apply calm_temp_file_write | exact Hos]. }
    assert (Hasync : async_for a (temp_file_write k) w0 = Ok tt w1)
      by (unfold async_for, bind at 1; rewrite Hfirst; exact Hfor).
    destruct Hdel as (_ & _ & Hall). specialize (Hall tt w1 Hasync).
    change (now w0 + dt)%N with dt in *.
    destruct (started_calm_trace a dt w0) as [Hys _].
    destruct o as [c|].
    - destruct Hpost as (d & outs' & Hout & Hc & Hg2 & _ & Hy & _).
      unfold bind at 1, temp_file_write in Hfor. rewrite Hsame in Hfor. cbn [tmp_file w0 set_tmp] in Hfor.
      destruct (tmp_write k [] c); [discriminate|].
      apply (for_rest_returned a k _ _ (mkRunning (feed_of a dt) (child_of a prog dt) dt)
               outs' (0 + len c)%Z) in Hfor.
      + destruct Hfor as (Hp & [f Hf] & Ht). exists f.
        split; [exact Hos|]. split; [exact Hf|]. split; [exact Hp|]. split; [exact Ht | exact Hall].
      + cbn. exact Hg2.
      + rewrite yielded_tmp_write, Hy, Hys. reflexivity.
    - unfold ret in Hfor. assert (w2 = w1) by congruence. subst w2.
      destruct Hpost as ((_ & Hy & _) & _ & _ & Hp & [f Hf]). exists f.
      split; [exact Hos|]. split; [exact Hf|]. split; [exact Hp|].
      split; [| exact Hall]. rewrite Hsame, Hy, Hys. reflexivity. }
  destruct Hloop as (dt & prog & f & Hos & Hf & Hp & Ht & Hy).
  unfold bind at 1 in Hsend. rewrite Ht in Hsend.
  unfold bind at 1, await in Hsend.
  destruct (reply_video k (yielded (trace w1))) as [dtr []|dtr e|] eqn:Hreply.
  2:{ exfalso. destruct (is_Exception e); [|discriminate].
      unfold bind, raise in Hsend. cbn in Hsend. rewrite Ht in Hsend. discriminate. }
  2:{ discriminate. }
  unfold bind, emit, unlink in Hsend. cbn in Hsend.
  inversion Hsend as [Hw]. clear Hsend.
  exists dt, prog, f, dtr. cbn. rewrite !yielded_app. cbn. rewrite !app_nil_r.
  split; [exact Hos|]. split; [exact Hf|].
  destruct (feed_input_fed tg cb dt) as (pre & H1 & _ & H3 & _ & H5).
  change (feed_input tg (stream_from_telegram tg) cb (mkFeeder dt [] [] false))
    with (feed_of a dt) in H1, H3, H5.
  rewrite Hf in H1, H3, H5. cbn [state_of] in H1, H3.
  split; [rewrite H1; apply (H5 f eq_refl)|].
  split; [apply H3; exists f; reflexivity|].
  split; [exact Hp|]. split; [exact Hy|].
  split; [exact Hreply | reflexivity].
Qed.

Lemma a_run_returns_only_after_a_clean_exit_witness :
  let r := process_video_stream (spawns passthrough) small_video ffmpeg None accepting
                                initial_world in
  r = Ok tt (state_of r) /\
  let a := mkArgs (spawns passthrough) small_video (stream_from_telegram small_video)
                  ffmpeg None in
  exists dt prog f dtr,
    spawns passthrough ffmpeg = Returns dt prog /\
    feed_of a dt = Ok tt f /\
    returned (media small_video) = Some (f_stdin f) /\
    f_closed f = true /\
    proc (state_of r) = Exited 0 /\
    yielded (trace (state_of r)) = written (c_stdout (child_of a prog dt)) /\
    reply_video accepting (yielded (trace (state_of r))) = Returns dtr tt /\
    tmp_file (state_of r) = None.
Proof.
  intros r.
  assert (H : r = Ok tt (state_of r)) by (vm_compute; reflexivity).
  exact (conj H (a_run_returns_only_after_a_clean_exit (spawns passthrough) small_video
                   ffmpeg None accepting (state_of r) H)).
Defined.







(** ** The command builders and the wrappers *)

Section Builders.
Local Open Scope string_scope.

Lemma validate_resolution_cases r :
  validate_resolution r = true <-> r = "720p" \/ r = "480p" \/ r = "360p".
Proof.
  unfold validate_resolution, str_in, get_supported_resolutions. cbn [existsb].
  rewrite !orb_true_iff, !String.eqb_eq.
  split; [intros [H|[H|[H|H]]]; auto; discriminate | intros [H|[H|H]]; auto].
Qed.

Lemma validate_audio_format_cases f :
  validate_audio_format f = true <-> f = "mp3" \/ f = "ogg" \/ f = "wav".
Proof.
  unfold validate_audio_format, str_in, get_supported_audio_formats. cbn [existsb].
  rewrite !orb_true_iff, !String.eqb_eq.
  split; [intros [H|[H|[H|H]]]; auto; discriminate | intros [H|[H|H]]; auto].
Qed.

Lemma get_resolution_encode_cmd_unsupported r :
  validate_resolution r = false ->
  get_resolution_encode_cmd r =
  inl (mkExc ValueError ("Unsupported resolution: " +++ r +++ ". Use '720p', '480p', or '360p'")).
Proof.
  unfold validate_resolution, str_in, get_supported_resolutions. cbn [existsb].
  rewrite !orb_false_iff. intros (H1 & H2 & H3 & _).
  unfold get_resolution_encode_cmd, resolution_settings. cbn [dict_get].
  rewrite H1, H2, H3. reflexivity.
Qed.

Lemma get_audio_extract_cmd_unsupported f b :
  validate_audio_format f = false ->
  get_audio_extract_cmd f b =
  inl (mkExc ValueError ("Unsupported audio format: " +++ f +++ ". Use 'mp3', 'ogg', or 'wav'")).
Proof.
  unfold validate_audio_format, str_in, get_supported_audio_formats. cbn [existsb].
  rewrite !orb_false_iff. intros (H1 & H2 & H3 & _).
  unfold get_audio_extract_cmd, format_settings. cbn [dict_get].
  rewrite H1, H2, H3. reflexivity.
Qed.

(** X5.  The tables of the modules agree: a resolution is accepted by
    [validate_resolution] exactly when [get_resolution_encode_cmd] builds
    a command for it and exactly when [calculate_video_dimensions] knows
    its height; the command then scales to that height and sets a buffer
    size of twice the maximum bit rate; and an audio format is accepted by
    [validate_audio_format] exactly when [get_audio_extract_cmd] builds a
    command for it, whatever the bit rate. *)
Theorem validators_and_builders_agree :
  (forall r, validate_resolution r = true <-> exists cmd, get_resolution_encode_cmd r = inr cmd) /\
  (forall r, validate_resolution r = true <-> exists th, lookup r target_heights = Some th) /\
  (forall r th cmd,
     lookup r target_heights = Some th -> get_resolution_encode_cmd r = inr cmd ->
     exists tw maxrate,
       arg_after "-vf" cmd = Some ("scale=" +++ str_of_int tw +++ ":" +++ str_of_int th) /\
       arg_after "-maxrate" cmd = Some (str_of_int maxrate +++ "k") /\
       arg_after "-bufsize" cmd = Some (str_of_int (2 * maxrate) +++ "k")) /\
  (forall f b, validate_audio_format f = true <-> exists cmd, get_audio_extract_cmd f b = inr cmd).
Proof.
  split; [|split; [|split]].
  - intros r. split.
    + intros H. apply validate_resolution_cases in H.
      destruct H as [ -> | [ -> | -> ] ]; eexists; vm_compute; reflexivity.
    + intros [cmd H]. destruct (validate_resolution r) eqn:Hv; [reflexivity|].
      rewrite (get_resolution_encode_cmd_unsupported r Hv) in H. discriminate.
  - intros r. split.
    + intros H. apply validate_resolution_cases in H.
      destruct H as [ -> | [ -> | -> ] ]; eexists; reflexivity.
    + intros [th H]. apply validate_resolution_cases.
      unfold target_heights in H. cbn [lookup] in H.
      destruct (String.eqb_spec r "720p"); [tauto|].
      destruct (String.eqb_spec r "480p"); [tauto|].
      destruct (String.eqb_spec r "360p"); [tauto|]. discriminate.
  - intros r th cmd Hl Hc.
    assert (Hr : r = "720p" \/ r = "480p" \/ r = "360p").
    { unfold target_heights in Hl. cbn [lookup] in Hl.
      destruct (String.eqb_spec r "720p"); [tauto|].
      destruct (String.eqb_spec r "480p"); [tauto|].
      destruct (String.eqb_spec r "360p"); [tauto|]. discriminate. }
    destruct Hr as [ -> | [ -> | -> ] ]; vm_compute in Hl; injection Hl as <-;
      vm_compute in Hc; injection Hc as <-.
    + exists 1280%Z, 2000%Z. vm_compute. repeat split.
    + exists 854%Z, 1000%Z. vm_compute. repeat split.
    + exists 640%Z, 500%Z. vm_compute. repeat split.
  - intros f b. split.
    + intros H. apply validate_audio_format_cases in H.
      destruct H as [ -> | [ -> | -> ] ]; eexists; reflexivity.
    + intros [cmd H]. destruct (validate_audio_format f) eqn:Hv; [reflexivity|].
      rewrite (get_audio_extract_cmd_unsupported f b Hv) in H. discriminate.
Qed.

(** X6.  Every command the builders return starts with "ffmpeg -i pipe:0"
    and ends with "pipe:1", which is what [process_with_ffmpeg] relies on
    when it feeds stdin and reads stdout; the command that embeds
    subtitles names the subtitle file as its second input and is the same
    whatever [subtitle_style] is passed. *)
Theorem built_commands_are_piped :
  (forall r cmd, get_resolution_encode_cmd r = inr cmd -> piped cmd) /\
  (forall f b cmd, get_audio_extract_cmd f b = inr cmd -> piped cmd) /\
  (forall t, piped (get_subtitle_extract_cmd t)) /\
  (forall p s, piped (get_subtitle_embed_cmd p s) /\
               get_subtitle_embed_cmd p s = get_subtitle_embed_cmd p None /\
               nth_error (get_subtitle_embed_cmd p s) 4 = Some p).
Proof.
  split; [|split; [|split]].
  - intros r cmd H. destruct (validate_resolution r) eqn:Hv.
    + apply validate_resolution_cases in Hv.
      destruct Hv as [ -> | [ -> | -> ] ]; vm_compute in H; injection H as <-; split; reflexivity.
    + rewrite (get_resolution_encode_cmd_unsupported r Hv) in H. discriminate.
  - intros f b cmd H. destruct (validate_audio_format f) eqn:Hv.
    + apply validate_audio_format_cases in Hv.
      destruct Hv as [ -> | [ -> | -> ] ]; cbv [get_audio_extract_cmd format_settings dict_get String.eqb Ascii.eqb Bool.eqb] in H;
        injection H as <-; split; reflexivity.
    + rewrite (get_audio_extract_cmd_unsupported f b Hv) in H. discriminate.
  - intros t. split; reflexivity.
  - intros p s. split; [split; reflexivity|]. split; reflexivity.
Qed.

(** X7.  [encode_video_stream] and [extract_audio_stream] reject an
    unsupported resolution or format before anything runs: the
    [ValueError] of the command builder reaches the caller as it is, and
    the state is untouched (no child spawned, no generator, no temporary
    file). *)
Theorem unsupported_requests_are_rejected_before_anything_runs sys tg caption k w :
  (forall r, validate_resolution r = false ->
     encode_video_stream sys tg r caption k w =
     Exc (mkExc ValueError ("Unsupported resolution: " +++ r +++
                            ". Use '720p', '480p', or '360p'")) w) /\
  (forall f b, validate_audio_format f = false ->
     extract_audio_stream sys tg f b caption k w =
     Exc (mkExc ValueError ("Unsupported audio format: " +++ f +++
                            ". Use 'mp3', 'ogg', or 'wav'")) w).
Proof.
  split.
  - intros r Hv. unfold encode_video_stream, bind.
    rewrite (get_resolution_encode_cmd_unsupported r Hv). reflexivity.
  - intros f b Hv. unfold extract_audio_stream, bind.
    rewrite (get_audio_extract_cmd_unsupported f b Hv). reflexivity.
Qed.

End Builders.

(** ** [merge_videos] *)

Section MergeProofs.
Local Open Scope string_scope.

Lemma dict_get_remove_file name n (fs : files) :
  dict_get n (remove_file name fs) = if String.eqb n name then None else dict_get n fs.
Proof.
  induction fs as [|[m c] fs IH]; cbn [remove_file dict_get].
  - destruct (String.eqb n name); reflexivity.
  - destruct (String.eqb_spec name m) as [->|Hnm].
    + rewrite IH. destruct (String.eqb_spec n m); reflexivity.
    + cbn [dict_get]. rewrite IH.
      destruct (String.eqb_spec n m) as [->|Hn]; [|reflexivity].
      destruct (String.eqb_spec m name); [congruence | reflexivity].
Qed.

Lemma dict_get_write_file name content n (fs : files) :
  dict_get n (write_file name content fs) =
  if String.eqb n name then Some content else dict_get n fs.
Proof.
  unfold write_file. cbn [dict_get]. rewrite dict_get_remove_file.
  destruct (String.eqb n name); reflexivity.
Qed.

(** X8.  [merge_videos] and its list file: "inputs.txt" is written with
    one line per input; when ffmpeg exits with 0 there is no "inputs.txt"
    afterwards (so a file of that name that existed before the call is
    lost) and every other file is as ffmpeg left it; when ffmpeg exits
    with another code, [CalledProcessError] is raised and, unless ffmpeg
    touched it, the list file is left behind. *)
Theorem merge_videos_and_its_list_file sh input_files output_path fs :
  let listing := String.concat "" (map concat_entry input_files) in
  let fs1 := write_file "inputs.txt" listing fs in
  (forall fs2,
     sh (merge_cmd output_path) fs1 = Completed 0 fs2 ->
     fst (merge_videos sh input_files output_path fs) = None /\
     file_exists "inputs.txt" (snd (merge_videos sh input_files output_path fs)) = false /\
     forall n, n <> "inputs.txt" ->
       dict_get n (snd (merge_videos sh input_files output_path fs)) = dict_get n fs2) /\
  (forall rc fs2,
     sh (merge_cmd output_path) fs1 = Completed rc fs2 -> rc <> 0%Z ->
     dict_get "inputs.txt" fs2 = dict_get "inputs.txt" fs1 ->
     fst (merge_videos sh input_files output_path fs) =
       Some (CalledProcessError rc (merge_cmd output_path)) /\
     dict_get "inputs.txt" (snd (merge_videos sh input_files output_path fs)) = Some listing).
Proof.
  cbv zeta. split.
  - intros fs2 Hrun. unfold merge_videos. rewrite Hrun. cbn [Z.eqb fst snd].
    split; [reflexivity|]. unfold file_exists.
    destruct (dict_get "inputs.txt" fs2) eqn:Hex.
    + split.
      * rewrite dict_get_remove_file. reflexivity.
      * intros n Hn. rewrite dict_get_remove_file.
        destruct (String.eqb_spec n "inputs.txt"); [contradiction | reflexivity].
    + split; [rewrite Hex; reflexivity | reflexivity].
  - intros rc fs2 Hrun Hrc Hkept. unfold merge_videos. rewrite Hrun.
    destruct (Z.eqb_spec rc 0); [contradiction|]. cbn [fst snd].
    split; [reflexivity|]. rewrite Hkept, dict_get_write_file. reflexivity.
Qed.

End MergeProofs.

(** ** The encode handlers *)

Section HandlerProofs.
Local Open Scope string_scope.

Lemma states_get_set u v d : states_get u (states_set u v d) = Some v.
Proof.
  induction d as [|[k x] d IH]; cbn [states_set states_get].
  - rewrite Z.eqb_refl. reflexivity.
  - destruct (Z.eqb_spec u k) as [->|Hne]; cbn [states_get].
    + rewrite Z.eqb_refl. reflexivity.
    + destruct (Z.eqb_spec u k); [contradiction | exact IH].
Qed.

Lemma encode_resolution_command_registered user_id command states :
  In command encode_commands ->
  encode_resolution_command user_id command states =
  (states, Reply (show_error "Invalid resolution"
                    ("Resolution " +++ replace command "encode" "" +++ " is not supported"))).
Proof.
  intros [<-|[<-|[<-|[]]]]; reflexivity.
Qed.

Lemma handle_all_registered us :
  Forall registered us ->
  handle_all us [] =
  ([], map (fun u => match u with
                     | EncodeResolution _ command =>
                         Reply (show_error "Invalid resolution"
                                  ("Resolution " +++ replace command "encode" "" +++
                                   " is not supported"))
                     | CancelEncoding _ => Reply "No active encoding operation to cancel"
                     end) us).
Proof.
  induction 1 as [|u us Hu _ IH]; [reflexivity|].
  cbn [handle_all map]. destruct u as [user_id command|user_id]; cbn [handle].
  - rewrite (encode_resolution_command_registered user_id command [] Hu), IH. reflexivity.
  - cbn. rewrite IH. reflexivity.
Qed.

(** X9.  [encode_resolution_command] strips "encode" from the command
    and validates what is left, which for the commands it is registered
    for is "720", "480" or "360", never a supported resolution: each of
    them is answered with "Invalid resolution" and stores nothing.  So
    whatever sequence of these commands and of /cancel arrives,
    [user_encoding_states] stays empty, and /cancel always finds no active
    operation.  (A command that leaves a supported resolution would store
    the state for the user.) *)
Theorem registered_encode_commands_are_always_rejected :
  (forall user_id command states,
     In command encode_commands ->
     encode_resolution_command user_id command states =
     (states, Reply (show_error "Invalid resolution"
                       ("Resolution " +++ replace command "encode" "" +++
                        " is not supported")))) /\
  (forall us,
     Forall registered us ->
     fst (handle_all us []) = [] /\
     Forall (fun r => r = Reply "No active encoding operation to cancel" \/
                      exists resolution,
                        validate_resolution resolution = false /\
                        r = Reply (show_error "Invalid resolution"
                                     ("Resolution " +++ resolution +++ " is not supported")))
            (snd (handle_all us []))) /\
  (forall user_id command states,
     validate_resolution (replace command "encode" "") = true ->
     states_get user_id (fst (encode_resolution_command user_id command states)) =
     Some (mkEncodingState (replace command "encode" "") "waiting_for_video")).
Proof.
  split; [|split].
  - exact encode_resolution_command_registered.
  - intros us Hus. rewrite (handle_all_registered us Hus). cbn [fst snd].
    split; [reflexivity|]. apply Forall_forall. intros r Hr.
    apply in_map_iff in Hr. destruct Hr as (u & <- & Hin).
    rewrite Forall_forall in Hus. specialize (Hus u Hin).
    destruct u as [user_id command|user_id]; [right | left; reflexivity].
    exists (replace command "encode" ""). split; [|reflexivity].
    destruct Hus as [<-|[<-|[<-|[]]]]; reflexivity.
  - intros user_id command states Hv. unfold encode_resolution_command. rewrite Hv.
    cbn [negb]. destruct (dict_get _ resolution_names); cbn [fst]; apply states_get_set.
Qed.

End HandlerProofs.

(** ** The estimates compared with each other *)

Section EstimateOrder.
Local Open Scope string_scope.
Local Open Scope Z_scope.

(** The products of a size by two literals are ordered as the literals. *)
Lemma int_mul_float_le mc1 ec1 mc2 ec2 x a b :
  2 ^ 52 <= Z.pos mc1 < 2 ^ 53 -> 2 ^ 52 <= Z.pos mc2 < 2 ^ 53 ->
  -1022 <= ec1 -> ec1 <= ec2 ->
  Z.pos mc1 <= Z.pos mc2 * 2 ^ (ec2 - ec1) ->
  0 <= x ->
  int_mul_float x (S754_finite false mc1 ec1) = inr a ->
  int_mul_float x (S754_finite false mc2 ec2) = inr b ->
  num_leb (Float a) (Float b) = true.
Proof.
  intros H1 H2 He1 He Hle Hx Ha Hb.
  destruct (Z.eq_dec x 0) as [->|Hx0].
  - change (int_mul_float 0 (S754_finite false mc1 ec1)) with
      (inr (S754_zero false) : exc + float) in Ha.
    change (int_mul_float 0 (S754_finite false mc2 ec2)) with
      (inr (S754_zero false) : exc + float) in Hb.
    injection Ha as <-. injection Hb as <-. reflexivity.
  - apply int_mul_float_scaled in Ha; [|exact Hx0|exact H1|lia].
    apply int_mul_float_scaled in Hb; [|exact Hx0|exact H2|lia].
    replace (x <? 0) with false in Ha, Hb by (symmetry; apply Z.ltb_ge; lia).
    rewrite Z.abs_eq in Ha, Hb by lia.
    assert (Hr : 0 < rnd x) by (apply rnd_pos; lia).
    assert (Hp : 0 < 2 ^ (ec2 - ec1)) by (apply Z.pow_pos_nonneg; lia).
    eapply scaled_leb; [exact Ha | exact Hb | | | lia |].
    + apply rnd_pos. nia.
    + apply rnd_pos. nia.
    + cbn [cond_Zopp]. rewrite <- rnd_scale by nia.
      apply rnd_mono; [nia|]. rewrite <- Z.mul_assoc.
      apply Z.mul_le_mono_nonneg_l; lia.
Qed.

(** The product of a size by a literal [m * 2 ^ (- j)] well below one,
    rounded twice, stays below the size. *)
Lemma rnd_under x m j :
  0 < x -> 0 <= j -> 2 ^ 52 <= m -> m <= 2 ^ j -> m <= 2 ^ 52 * (2 ^ j - m) ->
  rnd (rnd x * m) <= x * 2 ^ j.
Proof.
  intros Hx Hj Hm Hmj Hsmall. assert (Hpj : 0 < 2 ^ j) by (apply Z.pow_pos_nonneg; lia).
  destruct (Z_le_gt_dec (Zdigits2 x) 53) as [Hle|Hgt].
  - rewrite (rnd_small x) by exact Hle.
    destruct (Zdigits2_bounds x Hx) as [_ Hub].
    assert (x < 2 ^ 53).
    { eapply Z.lt_le_trans; [exact Hub|]. apply Z.pow_le_mono_r; lia. }
    rewrite <- (rnd_fixed x j) by lia. apply rnd_mono; nia.
  - pose proof (top_bits x Hx ltac:(lia)) as Ht.
    pose proof (rne_bounds x (Zdigits2 x - 53)) as Hb.
    rewrite (rnd_large x) by lia.
    set (k := Zdigits2 x - 53) in *. assert (Hk : 0 <= k) by (unfold k; lia).
    assert (Hp : 0 < 2 ^ k) by (apply Z.pow_pos_nonneg; lia).
    set (q := x / 2 ^ k) in *.
    assert (Hqx : q * 2 ^ k <= x).
    { pose proof (Z.div_mod x (2 ^ k)) as Hdm. pose proof (Z.mod_pos_bound x (2 ^ k) Hp).
      fold q in Hdm. nia. }
    apply Z.le_trans with (q * 2 ^ (k + j)).
    + rewrite <- (rnd_fixed q (k + j)) by lia.
      apply rnd_mono.
      * assert (0 < rne x k * 2 ^ k) by nia. nia.
      * rewrite Z.pow_add_r by lia.
        apply Z.le_trans with ((q + 1) * 2 ^ k * m).
        -- apply Z.mul_le_mono_nonneg_r; [lia|].
           apply Z.mul_le_mono_nonneg_r; lia.
        -- assert (H1 : (q + 1) * m <= q * 2 ^ j) by nia. nia.
    + rewrite Z.pow_add_r by lia. nia.
Qed.

Lemma scaled_le_int x f n e :
  is_scaled f false n e -> 0 < n -> e <= 0 -> n <= x * 2 ^ (- e) -> Zdigits2 x <= 1024 ->
  num_leb (Float f) (Int x) = true.
Proof.
  intros H Hn He Hle Hd.
  assert (Hp : 0 < 2 ^ (- e)) by (apply Z.pow_pos_nonneg; lia).
  assert (Hx : 0 < x) by nia.
  destruct f as [z1|t1| |t1 m1 x1]; try contradiction; cbn [is_scaled] in H;
    unfold num_leb; cbn [value_of].
  - destruct H as [-> Ho]. exfalso.
    assert (Zdigits2 n <= Zdigits2 (x * 2 ^ (- e))) by (apply Zdigits2_mono; lia).
    rewrite Zdigits2_scale in * by lia. lia.
  - destruct H as (-> & Hx1 & Hv & _). apply (fin_leb_base e); [lia | lia |].
    simpl cond_Zopp. rewrite Hv. replace (0 - e) with (- e) by lia. exact Hle.
Qed.

Lemma int_mul_float_le_int mc ec x a :
  2 ^ 52 <= Z.pos mc < 2 ^ 53 -> -1022 <= ec <= 0 ->
  Z.pos mc <= 2 ^ (- ec) -> Z.pos mc <= 2 ^ 52 * (2 ^ (- ec) - Z.pos mc) ->
  0 <= x < 2 ^ 1023 ->
  int_mul_float x (S754_finite false mc ec) = inr a ->
  num_leb (Float a) (Int x) = true.
Proof.
  intros Hmc Hec H1 H2 Hx Ha. destruct (Z.eq_dec x 0) as [->|Hx0].
  - change (int_mul_float 0 (S754_finite false mc ec)) with
      (inr (S754_zero false) : exc + float) in Ha.
    injection Ha as <-. reflexivity.
  - apply int_mul_float_scaled in Ha; [|exact Hx0|exact Hmc|lia].
    replace (x <? 0) with false in Ha by (symmetry; apply Z.ltb_ge; lia).
    rewrite Z.abs_eq in Ha by lia.
    assert (Hr : 0 < rnd x) by (apply rnd_pos; lia).
    eapply scaled_le_int; [exact Ha | | lia | |].
    + apply rnd_pos. nia.
    + apply rnd_under; lia.
    + apply Zdigits2_le_of_lt; [lia|].
      split; [lia|]. eapply Z.lt_trans; [apply Hx|]. apply Z.pow_lt_mono_r; lia.
Qed.

(** X10.  For every size from 0 to below [2 ^ 1023] the estimates are
    ordered as the factors suggest, rounding included: audio extraction
    is estimated at most as large as a 360p encode, that at most as large
    as a 480p encode, that at most as large as a 720p encode, and that at
    most as large as the input; an operation the function does not know,
    such as the 'extract_subtitles' that [subtitle.py] passes, is
    estimated at the input size itself. *)
Theorem estimates_are_ordered x :
  0 <= x < 2 ^ 1023 ->
  exists e a b c,
    estimate_output_size x "extract_audio" None = inr (Float e) /\
    estimate_output_size x "encode" (Some "360p") = inr (Float a) /\
    estimate_output_size x "encode" (Some "480p") = inr (Float b) /\
    estimate_output_size x "encode" (Some "720p") = inr (Float c) /\
    estimate_output_size x "extract_subtitles" None = inr (Int x) /\
    num_leb (Float e) (Float a) = true /\
    num_leb (Float a) (Float b) = true /\
    num_leb (Float b) (Float c) = true /\
    num_leb (Float c) (Int x) = true.
Proof.
  intros Hx. assert (Ha : Z.abs x < 2 ^ 1023) by lia.
  destruct (int_mul_float_returns x f_0_1 Ha) as [e He].
  destruct (int_mul_float_returns x f_0_25 Ha) as [a Ha'].
  destruct (int_mul_float_returns x f_0_4 Ha) as [b Hb].
  destruct (int_mul_float_returns x f_0_6 Ha) as [c Hc].
  exists e, a, b, c.
  assert (Hest : forall f r, int_mul_float x f = inr r -> times x f = inr (Float r))
    by (intros f r H; unfold times; rewrite H; reflexivity).
  split; [apply Hest; exact He|].
  split; [apply Hest; exact Ha'|].
  split; [apply Hest; exact Hb|].
  split; [apply Hest; exact Hc|].
  split; [reflexivity|].
  unfold f_0_1, f_0_25, f_0_4, f_0_6 in *.
  split; [|split; [|split]].
  - eapply int_mul_float_le; [| | | | | | exact He | exact Ha']; lia.
  - eapply int_mul_float_le; [| | | | | | exact Ha' | exact Hb]; lia.
  - eapply int_mul_float_le; [| | | | | | exact Hb | exact Hc]; lia.
  - eapply int_mul_float_le_int; [| | | | | exact Hc]; lia.
Qed.

Lemma estimates_are_ordered_witness :
  0 <= 1000000 < 2 ^ 1023 /\
  exists e a b c,
    estimate_output_size 1000000 "extract_audio" None = inr (Float e) /\
    estimate_output_size 1000000 "encode" (Some "360p") = inr (Float a) /\
    estimate_output_size 1000000 "encode" (Some "480p") = inr (Float b) /\
    estimate_output_size 1000000 "encode" (Some "720p") = inr (Float c) /\
    estimate_output_size 1000000 "extract_subtitles" None = inr (Int 1000000) /\
    num_leb (Float e) (Float a) = true /\
    num_leb (Float a) (Float b) = true /\
    num_leb (Float b) (Float c) = true /\
    num_leb (Float c) (Int 1000000) = true.
Proof.
  assert (H : 0 <= 1000000 < 2 ^ 1023) by (split; [lia | reflexivity]).
  exact (conj H (estimates_are_ordered 1000000 H)).
Defined.

End EstimateOrder.

(** ** [calculate_video_dimensions] on degenerate sizes *)

Section DimensionsEdge.
Local Open Scope string_scope.
Local Open Scope Z_scope.

(** X11.  Degenerate sizes in [calculate_video_dimensions], for a
    supported resolution: a height of 0 raises [ZeroDivisionError]
    whatever the width, and a width of 0 gives a width of 0 with the
    nominal height, whatever the non-zero height. *)
Theorem dimensions_of_degenerate_sizes res th :
  lookup res target_heights = Some th ->
  (forall w, calculate_video_dimensions w 0 res =
             inl (mkExc ZeroDivisionError "division by zero")) /\
  (forall h, h <> 0 -> calculate_video_dimensions 0 h res = inr (0, th)).
Proof.
  intros Hl.
  assert (Hr : (res = "720p" /\ th = 720) \/ (res = "480p" /\ th = 480) \/
               (res = "360p" /\ th = 360)).
  { unfold target_heights in Hl. cbn [lookup] in Hl.
    destruct (String.eqb_spec res "720p"); [left; split; congruence|].
    destruct (String.eqb_spec res "480p"); [right; left; split; congruence|].
    destruct (String.eqb_spec res "360p"); [right; right; split; congruence|]. discriminate. }
  split.
  - intros w. unfold calculate_video_dimensions. rewrite Hl. reflexivity.
  - intros h Hh. unfold calculate_video_dimensions. rewrite Hl.
    unfold int_true_divide. rewrite (proj2 (Z.eqb_neq h 0) Hh). cbn [Z.eqb bind_exc].
    destruct Hr as [[-> ->]|[[-> ->]|[-> ->]]]; destruct (h <? 0); reflexivity.
Qed.

Lemma dimensions_of_degenerate_sizes_witness :
  lookup "480p" target_heights = Some 480 /\
  (forall w, calculate_video_dimensions w 0 "480p" =
             inl (mkExc ZeroDivisionError "division by zero")) /\
  (forall h, h <> 0 -> calculate_video_dimensions 0 h "480p" = inr (0, 480)).
Proof.
  assert (H : lookup "480p" target_heights = Some 480) by reflexivity.
  exact (conj H (dimensions_of_degenerate_sizes "480p" 480 H)).
Defined.

End DimensionsEdge.

(** ** Cleanup when the temporary file accepts every write *)

(** The failing consumer is the only way past the handlers of
    [process_with_ffmpeg]: with a temporary file that takes every chunk,
    the loop of [send_processed_video] fails only where the generator
    fails. *)

Section CleanupWithAnAcceptingSink.
Local Open Scope task_scope.

Lemma temp_file_write_accepts k c w :
  (forall content c, tmp_write k content c = None) ->
  exists w1, temp_file_write k c w = Ok tt w1 /\ gen w1 = gen w.
Proof.
  intros Hsink. unfold temp_file_write. rewrite Hsink. eexists; split; reflexivity.
Qed.

(** The consumer loop with a sink that accepts every chunk: when it
    raises an [Exception], the child is not running. *)
Lemma for_rest_raises a k fuel :
  (forall content c, tmp_write k content c = None) ->
  forall w p outs ob e w',
    gen w = PwfAtYield p outs ob ->
    for_rest fuel a (temp_file_write k) w = Exc e w' ->
    is_Exception e = true ->
    proc w' <> Running.
Proof.
  intros Hsink. induction fuel as [|fuel IH]; intros w p outs ob e w' Hg Hrun He; [discriminate|].
  cbn [for_rest] in Hrun. unfold bind at 1 in Hrun.
  pose proof (anext_resumed a w p outs ob Hg) as Hpost.
  destruct (anext a w) as [[c|] w1|e1 w1|w1]; try discriminate.
  - destruct Hpost as (d & outs' & _ & _ & Hg1 & _).
    cbv beta iota in Hrun. unfold bind at 1 in Hrun.
    destruct (temp_file_write_accepts k c w1 Hsink) as (w2 & Hw & Hg2).
    rewrite Hw in Hrun. eapply IH; [|exact Hrun|exact He]. rewrite Hg2. exact Hg1.
  - assert (e1 = e /\ w1 = w') as [-> ->] by (split; congruence).
    destruct Hpost as (_ & _ & Hp). apply Hp. exact He.
Qed.

Lemma async_for_raises a k w e w' :
  (forall content c, tmp_write k content c = None) ->
  gen w = PwfCreated ->
  proc w <> Running ->
  async_for a (temp_file_write k) w = Exc e w' ->
  is_Exception e = true ->
  proc w' <> Running.
Proof.
  intros Hsink Hg Hp Hrun He. unfold async_for in Hrun. unfold bind at 1 in Hrun.
  destruct (a_os a (a_ffmpeg_cmd a)) as [dt prog|dt e0|] eqn:Hos.
  - pose proof (anext_created a w dt prog Hg Hos) as Hpost.
    destruct (anext a w) as [[c|] w1|e1 w1|w1]; try discriminate.
    + destruct Hpost as (d & outs' & _ & _ & Hg1 & _).
      unfold bind at 1 in Hrun.
      destruct (temp_file_write_accepts k c w1 Hsink) as (w2 & Hw & Hg2).
      rewrite Hw in Hrun. eapply for_rest_raises; [exact Hsink| |exact Hrun|exact He].
      rewrite Hg2. exact Hg1.
    + assert (e1 = e /\ w1 = w') as [-> ->] by (split; congruence).
      destruct Hpost as (_ & _ & Hp1). apply Hp1. exact He.
  - (* the spawn failed: there is no child, and none is killed *)
    assert (Hfirst : exists w1 e1, anext a w = Exc e1 w1 /\ proc w1 = proc w).
    { unfold anext. rewrite Hg. cbn [pwf_body].
      match goal with
      | |- context [outer_try ?m w] =>
          pose proof (outer_try_spec m w) as Hspec;
          assert (Hm : m w = Exc e0 (set_now (now w + dt) w))
            by (unfold start, create_subprocess_exec, bind, await; rewrite Hos; reflexivity);
          rewrite Hm in Hspec
      end.
      assert (Hno : ~ has_process (set_now (now w + dt) w)).
      { intros (p & outs & ob & H). cbn in H. congruence. }
      destruct (is_Exception e0) eqn:He0.
      - destruct Hspec as (e' & w2 & -> & _ & _ & _ & Hsame).
        destruct (Hsame Hno) as [-> _]. eexists; eexists; split; reflexivity.
      - rewrite Hspec. eexists; eexists; split; reflexivity. }
    destruct Hfirst as (w1 & e1 & Hfirst & Hp1). rewrite Hfirst in Hrun.
    assert (e1 = e /\ w1 = w') as [-> ->] by (split; congruence). rewrite Hp1. exact Hp.
  - exfalso.
    assert (Hfirst : anext a w = Hang w).
    { unfold anext. rewrite Hg. cbn [pwf_body].
      match goal with
      | |- context [outer_try ?m w] =>
          pose proof (outer_try_spec m w) as Hspec;
          assert (Hm : m w = Hang w)
            by (unfold start, create_subprocess_exec, bind, await; rewrite Hos; reflexivity);
          rewrite Hm in Hspec
      end.
      rewrite Hspec. reflexivity. }
    rewrite Hfirst in Hrun. discriminate.
Qed.

(** The consumer loop returns only after the child has exited with 0. *)
Lemma for_rest_exited a k fuel :
  forall w p outs ob w',
    gen w = PwfAtYield p outs ob ->
    for_rest fuel a (temp_file_write k) w = Ok tt w' ->
    proc w' = Exited 0.
Proof.
  induction fuel as [|fuel IH]; intros w p outs ob w' Hg Hrun; [discriminate|].
  cbn [for_rest] in Hrun. unfold bind at 1 in Hrun.
  pose proof (anext_resumed a w p outs ob Hg) as Hpost.
  destruct (anext a w) as [[c|] w1|e1 w1|w1]; try discriminate.
  - destruct Hpost as (d & outs' & _ & _ & Hg1 & _).
    cbv beta iota in Hrun. unfold bind at 1 in Hrun.
    pose proof (calm_temp_file_write k c w1) as (_ & _ & _ & Hg2).
    destruct (temp_file_write k c w1) as [[] w2|e2 w2|w2]; try discriminate.
    cbn [state_of] in Hg2. eapply IH; [|exact Hrun]. rewrite Hg2. exact Hg1.
  - cbv beta iota in Hrun. unfold ret in Hrun.
    assert (w1 = w') by congruence. subst w'.
    destruct Hpost as (_ & _ & _ & Hp & _). exact Hp.
Qed.

Lemma async_for_exited a k w w' :
  gen w = PwfCreated ->
  async_for a (temp_file_write k) w = Ok tt w' ->
  proc w' = Exited 0.
Proof.
  intros Hg Hrun. unfold async_for in Hrun. unfold bind at 1 in Hrun.
  destruct (anext a w) as [o w1|e1 w1|w1] eqn:Hfirst; try discriminate.
  destruct (anext_created_returns a w o w1 Hg Hfirst) as (dt & prog & Hos).
  pose proof (anext_created a w dt prog Hg Hos) as Hpost. rewrite Hfirst in Hpost.
  destruct o as [c|].
  - destruct Hpost as (d & outs' & _ & _ & Hg1 & _).
    unfold bind at 1 in Hrun.
    pose proof (calm_temp_file_write k c w1) as (_ & _ & _ & Hg2).
    destruct (temp_file_write k c w1) as [[] w2|e2 w2|w2]; try discriminate.
    cbn [state_of] in Hg2. eapply for_rest_exited; [|exact Hrun]. rewrite Hg2. exact Hg1.
  - unfold ret in Hrun. assert (w1 = w') by congruence. subst w'.
    destruct Hpost as (_ & _ & _ & Hp & _). exact Hp.
Qed.

(** X12.  When no child is running at the start and the temporary file
    accepts every write, no failure of class [Exception] of a run of
    [process_video_stream] leaves the child running: either the child was
    never spawned, or a handler of [process_with_ffmpeg] has called
    [process.kill()] on it, which killed it or found that it had exited, or
    it had exited with 0 before [reply_video] failed. *)
Theorem no_child_is_left_running_when_the_sink_accepts sys tg cmd cb k w e w' :
  (forall content c, tmp_write k content c = None) ->
  proc w <> Running ->
  process_video_stream sys tg cmd cb k w = Exc e w' ->
  is_Exception e = true ->
  proc w' <> Running.
Proof.
  intros Hsink Hp0 Hrun He.
  set (a := mkArgs sys tg (stream_from_telegram tg) cmd cb) in *.
  set (w0 := set_tmp (Some []) (set_gen PwfCreated w)).
  assert (Hsend : send_processed_video a k (set_gen PwfCreated w) = Exc e w') by exact Hrun.
  unfold send_processed_video, try_except in Hsend.
  unfold bind at 1 in Hsend. fold w0 in Hsend.
  assert (Hbody : forall e1 w1,
             (async_for a (temp_file_write k);;
              content <- (fun w => Ok (match tmp_file w with Some c => c | None => [] end) w);;
              await (reply_video k content);; emit EvReply;; unlink) w0 = Exc e1 w1 ->
             is_Exception e1 = true -> proc w1 <> Running).
  { intros e1 w1 Hb He1. unfold bind at 1 in Hb.
    destruct (async_for a (temp_file_write k) w0) as [[] w2|e2 w2|w2] eqn:Hfor;
      try discriminate.
    - apply async_for_exited in Hfor; [|reflexivity].
      unfold bind at 1 in Hb. unfold bind at 1, await in Hb.
      destruct (reply_video k _) as [dtr []|dtr e3|]; try discriminate.
      inversion Hb; subst. cbn. rewrite Hfor. discriminate.
    - assert (e2 = e1 /\ w2 = w1) as [-> ->] by (split; congruence).
      eapply async_for_raises; [exact Hsink | | | exact Hfor | exact He1];
        [reflexivity | exact Hp0]. }
  unfold bind at 1 in Hsend.
  match type of Hsend with
  | context [match ?m with _ => _ end] => destruct m as [[] w1|e1 w1|w1] eqn:Hm
  end; try discriminate.
  destruct (is_Exception e1) eqn:He1.
  - specialize (Hbody e1 w1 Hm He1).
    unfold bind, raise, unlink in Hsend.
    destruct (tmp_file w1); inversion Hsend; subst; exact Hbody.
  - inversion Hsend; subst. congruence.
Qed.

Lemma no_child_is_left_running_when_the_sink_accepts_witness :
  let r := process_video_stream (spawns (one_shot 1 (b "x") 1 (b "bad codec"))) small_video
                                ffmpeg None accepting initial_world in
  let e := send_failed lookup_error in
  (forall content c, tmp_write accepting content c = None) /\
  proc initial_world <> Running /\
  r = Exc e (state_of r) /\
  is_Exception e = true /\
  proc (state_of r) <> Running.
Proof.
  intros r e.
  assert (H1 : forall content c, tmp_write accepting content c = None) by reflexivity.
  assert (H0 : proc initial_world <> Running) by discriminate.
  assert (H2 : r = Exc e (state_of r)) by (vm_compute; reflexivity).
  assert (H3 : is_Exception e = true) by reflexivity.
  exact (conj H1 (conj H0 (conj H2 (conj H3
    (@no_child_is_left_running_when_the_sink_accepts
       (spawns (one_shot 1 (b "x") 1 (b "bad codec"))) small_video ffmpeg None accepting
       initial_world e (state_of r) H1 H0 H2 H3))))).
Defined.

End CleanupWithAnAcceptingSink.

(** ** The width that [calculate_video_dimensions] returns *)

Section DimensionsAccuracy.
Local Open Scope string_scope.
Local Open Scope Z_scope.

(** What [binary_round_aux] computes on a value with at least 53 digits
    whatever was lost below it: a 53-digit mantissa within one unit of the
    truncated one. *)
Lemma binary_round_aux_near s m e l :
  0 < m -> 53 <= Zdigits2 m -> -1074 <= e -> Zdigits2 m + e <= 1023 ->
  let k := Zdigits2 m - 53 in
  exists m' j, binary_round_aux prec emax s m e l = S754_finite s m' (e + k + j) /\
    0 <= j <= 1 /\ 2 ^ 52 <= Z.pos m' < 2 ^ 53 /\
    m / 2 ^ k <= Z.pos m' * 2 ^ j <= m / 2 ^ k + 1.
Proof.
  intros Hm Hd He Hhi k.
  assert (Hk : 0 <= k) by (unfold k; lia).
  unfold binary_round_aux, shr_fexp. rewrite fexp_eq.
  replace (Z.max (Zdigits2 m + e - 53) (-1074) - e) with k by (unfold k; lia).
  destruct (shr_m_spec (shr_record_of_loc m l) e k) as [Hm1 He1];
    [rewrite shr_m_record_of_loc; lia|].
  destruct (shr (shr_record_of_loc m l) e k) as [mrs1 e1]. cbn [fst snd] in Hm1, He1.
  rewrite shr_m_record_of_loc, Z.max_r in Hm1 by lia. rewrite Z.max_r in He1 by lia. subst e1.
  pose proof (round_nearest_even_bounds (shr_m mrs1) (loc_of_shr_record mrs1)) as Hr.
  pose proof (top_bits m Hm Hd) as Htop. fold k in Htop.
  set (m2 := round_nearest_even (shr_m mrs1) (loc_of_shr_record mrs1)) in *.
  rewrite Hm1 in Hr.
  rewrite fexp_eq.
  destruct (Z.eq_dec m2 (2 ^ 53)) as [Heq|Hne].
  - assert (Hd2 : Zdigits2 m2 = 54) by (rewrite Heq; reflexivity).
    rewrite Hd2. replace (Z.max (54 + (e + k) - 53) (-1074) - (e + k)) with 1 by lia.
    rewrite Heq. exists 4503599627370496%positive, 1.
    assert (Hle : (e + k + 1 <=? 971) = true) by (apply Z.leb_le; unfold k; lia).
    split.
    { cbn [shr_record_of_loc shr shr_1 shr_m shr_r shr_s iter_pos fst snd Z.pow Z.pow_pos
           Pos.iter Z.mul Pos.mul].
      change (emax - prec) with 971. rewrite Hle. reflexivity. }
    split; [lia|]. split; [split; reflexivity|].
    change (4503599627370496 * 2 ^ 1) with (2 ^ 53). lia.
  - assert (Hd2 : Zdigits2 m2 = 53) by (apply (Zdigits2_eq m2 52); lia).
    rewrite Hd2. replace (Z.max (53 + (e + k) - 53) (-1074) - (e + k)) with 0 by lia.
    cbn [shr_record_of_loc shr shr_m fst snd].
    destruct m2 as [|p|p] eqn:Hm2; try lia.
    change (emax - prec) with 971.
    assert (Hle : (e + k <=? 971) = true) by (apply Z.leb_le; unfold k; lia).
    rewrite Hle. exists p, 0.
    split; [rewrite Z.add_0_r; reflexivity|]. split; [lia|]. split; [lia|].
    rewrite Z.mul_1_r. lia.
Qed.

(** The rounded mantissa against the exact quotient, in integers. *)
Lemma quotient_near w h E A B q Q my :
  0 < h -> 0 < A -> 1 <= B ->
  q * h <= w * E * (A * B) < (q + 1) * h ->
  Q * A <= q < (Q + 1) * A ->
  Q <= my * B <= Q + 1 ->
  (my - 1) * h <= w * E < (my + 1) * h.
Proof.
  intros Hh HA HB [Hq1 Hq2] [HQ1 HQ2] [Hm1 Hm2].
  assert (HAB : 0 < A * B) by (apply Z.mul_pos_pos; lia).
  split.
  - apply (Z.mul_le_mono_pos_r _ _ (A * B) HAB).
    apply Z.le_trans with (q * h); [|exact Hq1].
    replace ((my - 1) * h * (A * B)) with ((my - 1) * B * A * h) by ring.
    apply Z.mul_le_mono_nonneg_r; [lia|].
    apply Z.le_trans with (Q * A); [|exact HQ1].
    apply Z.mul_le_mono_nonneg_r; [lia|].
    replace ((my - 1) * B) with (my * B - B) by ring. lia.
  - apply (Z.mul_lt_mono_pos_r (A * B) _ _ HAB).
    apply Z.lt_le_trans with ((q + 1) * h); [exact Hq2|].
    replace ((my + 1) * h * (A * B)) with ((my + 1) * B * A * h) by ring.
    apply Z.mul_le_mono_nonneg_r; [lia|].
    apply Z.le_trans with ((Q + 1) * A); [lia|].
    apply Z.mul_le_mono_nonneg_r; [lia|].
    replace ((my + 1) * B) with (my * B + B) by ring. lia.
Qed.

(** [w / h] on two sizes below [2 ^ 32]: a normal float whose mantissa is
    within one unit of the exact quotient. *)
Lemma int_true_divide_near w h :
  0 < w < 2 ^ 32 -> 0 < h < 2 ^ 32 ->
  exists my ey, int_true_divide w h = inr (S754_finite false my ey) /\
    2 ^ 52 <= Z.pos my < 2 ^ 53 /\ -1022 <= ey <= -20 /\
    (Z.pos my - 1) * h <= w * 2 ^ (- ey) < (Z.pos my + 1) * h.
Proof.
  intros [Hw Hwb] [Hh Hhb]. unfold int_true_divide.
  assert (Hh0 : (h =? 0) = false) by (apply Z.eqb_neq; lia).
  assert (Hw0 : (w =? 0) = false) by (apply Z.eqb_neq; lia).
  assert (Hhs : (h <? 0) = false) by (apply Z.ltb_ge; lia).
  assert (Hws : (w <? 0) = false) by (apply Z.ltb_ge; lia).
  rewrite Hh0, Hw0, Hhs, Hws. cbn [xorb].
  rewrite !Z.abs_eq by lia. unfold SFdiv_core_binary. rewrite fexp_eq.
  pose proof (Zdigits2_pos w Hw) as Hd1. pose proof (Zdigits2_pos h Hh) as Hd2.
  assert (Hdw : Zdigits2 w <= 32) by (apply Zdigits2_le_of_lt; lia).
  assert (Hdh : Zdigits2 h <= 32) by (apply Zdigits2_le_of_lt; lia).
  destruct (Zdigits2_bounds w Hw) as [Hwl Hwu]. destruct (Zdigits2_bounds h Hh) as [Hhl Hhu].
  set (dw := Zdigits2 w) in *. set (dh := Zdigits2 h) in *.
  replace (Z.min (Z.max (dw + 0 - (dh + 0) - 53) (-1074)) (0 - 0)) with (dw - dh - 53) by lia.
  set (e' := dw - dh - 53).
  set (m' := match 0 - 0 - e' with Z.pos _ => Z.shiftl w (0 - 0 - e') | 0 => w | Z.neg _ => 0 end).
  assert (Hm' : m' = w * 2 ^ (- e')).
  { unfold m'. replace (0 - 0 - e') with (- e') by lia.
    destruct (- e') as [|p|p] eqn:Hs; [rewrite Z.mul_1_r; reflexivity | | lia].
    rewrite Z.shiftl_mul_pow2 by lia. reflexivity. }
  assert (Hq : fst (Z.div_eucl m' h) = m' / h) by reflexivity.
  assert (Hr : snd (Z.div_eucl m' h) = m' mod h) by reflexivity.
  destruct (Z.div_eucl m' h) as [q r]. cbn [fst snd] in Hq, Hr.
  assert (Hlo : 2 ^ 52 * h <= m').
  { rewrite Hm'. replace (- e') with (52 + dh - (dw - 1)) by (unfold e'; lia).
    assert (Hp : 2 ^ (52 + dh) = 2 ^ (52 + dh - (dw - 1)) * 2 ^ (dw - 1))
      by (rewrite <- Z.pow_add_r by lia; f_equal; lia).
    assert (Hp2 : 2 ^ (52 + dh) = 2 ^ 52 * 2 ^ dh) by (apply Z.pow_add_r; lia).
    assert (0 < 2 ^ (52 + dh - (dw - 1))) by (apply Z.pow_pos_nonneg; lia).
    nia. }
  assert (Hup : m' < 2 ^ 54 * h).
  { rewrite Hm'. replace (- e') with (53 + dh - dw) by (unfold e'; lia).
    assert (Hp : 2 ^ (53 + dh) = 2 ^ (53 + dh - dw) * 2 ^ dw)
      by (rewrite <- Z.pow_add_r by lia; f_equal; lia).
    assert (Hp2 : 2 ^ (53 + dh) = 2 ^ 54 * 2 ^ (dh - 1))
      by (rewrite <- Z.pow_add_r by lia; f_equal; lia).
    assert (0 < 2 ^ (53 + dh - dw)) by (apply Z.pow_pos_nonneg; lia).
    nia. }
  assert (Hqlo : 2 ^ 52 <= q) by (rewrite Hq; apply Z.div_le_lower_bound; lia).
  assert (Hqup : q < 2 ^ 54) by (rewrite Hq; apply Z.div_lt_upper_bound; lia).
  assert (Hqh : q * h <= m' < (q + 1) * h).
  { rewrite Hq. pose proof (Z.mul_div_le m' h Hh). pose proof (Z.mul_succ_div_gt m' h Hh). lia. }
  assert (Hdq : Zdigits2 q = 53 \/ Zdigits2 q = 54).
  { destruct (Z_lt_le_dec q (2 ^ 53)); [left; apply (Zdigits2_eq q 52) | right; apply (Zdigits2_eq q 53)];
      lia. }
  destruct (binary_round_aux_near false q e' (new_location h r))
    as (my & j & Hres & Hj & Hmy & Hnear); try (unfold e'; lia).
  rewrite Hres. set (k := Zdigits2 q - 53) in *.
  exists my, (e' + k + j). split; [reflexivity|]. split; [exact Hmy|].
  split; [unfold e', k; lia|].
  set (A := 2 ^ k). set (B := 2 ^ j). set (E := 2 ^ (- (e' + k + j))).
  assert (HA : 0 < A) by (apply Z.pow_pos_nonneg; unfold k; lia).
  assert (HB : 1 <= B) by (assert (0 < B) by (apply Z.pow_pos_nonneg; lia); lia).
  assert (HE : 0 < E) by (apply Z.pow_pos_nonneg; unfold e', k; lia).
  assert (Hm'' : m' = w * E * (A * B)).
  { rewrite Hm'. unfold A, B, E. rewrite <- Z.mul_assoc, <- !Z.pow_add_r by (unfold e', k; lia).
    do 2 f_equal. lia. }
  fold A B in Hnear.
  assert (HQ : q / A * A <= q < (q / A + 1) * A).
  { pose proof (Z.mul_div_le q A HA). pose proof (Z.mul_succ_div_gt q A HA). lia. }
  rewrite Hm'' in Hqh.
  exact (quotient_near w h E A B q (q / A) (Z.pos my) Hh HA HB Hqh HQ Hnear).
Qed.

(** Rounding to 53 digits moves a value by at most one unit of its last
    kept digit. *)
Lemma rnd_near P :
  0 < P -> 53 <= Zdigits2 P ->
  P - 2 ^ (Zdigits2 P - 53) < rnd P <= P + 2 ^ (Zdigits2 P - 53).
Proof.
  intros HP Hd. rewrite rnd_large by exact Hd.
  pose proof (rne_bounds P (Zdigits2 P - 53)) as Hb.
  set (D := 2 ^ (Zdigits2 P - 53)) in *.
  assert (HD : 0 < D) by (apply Z.pow_pos_nonneg; lia).
  pose proof (Z.mul_div_le P D HD). pose proof (Z.mul_succ_div_gt P D HD). nia.
Qed.

(** [int(x)] of a non-negative float is the integer part of its value. *)
Lemma int_of_float_floor ms es n e :
  e <= es -> e <= 0 -> Z.pos ms * 2 ^ (es - e) = n ->
  exists t, int_of_float (S754_finite false ms es) = inr t /\
            t * 2 ^ (- e) <= n < (t + 1) * 2 ^ (- e).
Proof.
  intros Hes He Hv. unfold int_of_float. cbn [cond_Zopp].
  eexists; split; [reflexivity|].
  assert (HE : 0 < 2 ^ (- e)) by (apply Z.pow_pos_nonneg; lia).
  destruct es as [|p|p].
  - rewrite Z.pow_0_r, Z.mul_1_r. rewrite Z.sub_0_l in Hv. nia.
  - replace (Z.pos p - e) with (Z.pos p + - e) in Hv by lia.
    rewrite Z.pow_add_r in Hv by lia. nia.
  - set (F := 2 ^ Z.pos p). assert (HF : 0 < F) by (apply Z.pow_pos_nonneg; lia).
    assert (HEF : 2 ^ (- e) = F * 2 ^ (Z.neg p - e)).
    { unfold F. rewrite <- Z.pow_add_r by lia. f_equal. lia. }
    assert (HG : 0 < 2 ^ (Z.neg p - e)) by (apply Z.pow_pos_nonneg; lia).
    pose proof (Z.mul_div_le (Z.pos ms) F HF). pose proof (Z.mul_succ_div_gt (Z.pos ms) F HF).
    rewrite HEF. nia.
Qed.

(** The errors of the quotient, of the product, of [int] and of the step
    to an even number, added up. *)
Lemma width_near th w h my E D R t tw :
  0 < h -> 0 < th -> 0 < D -> 0 < E -> th + D < E ->
  (my - 1) * h <= w * E < (my + 1) * h ->
  th * my - D < R <= th * my + D ->
  t * E <= R < (t + 1) * E ->
  t <= tw <= t + 1 ->
  th * w - 2 * h < h * tw < th * w + 2 * h.
Proof.
  intros Hh Hth HD HE Hsmall [Hn1 Hn2] [HR1 HR2] [Ht1 Ht2] [Hw1 Hw2].
  assert (Hslack : h * (th + D) < h * E) by (apply Z.mul_lt_mono_pos_l; lia).
  assert (HP1 : th * ((my - 1) * h) <= th * (w * E))
    by (apply Z.mul_le_mono_nonneg_l; lia).
  assert (HP2 : th * (w * E) < th * ((my + 1) * h))
    by (apply Z.mul_lt_mono_pos_l; lia).
  assert (HtwE1 : t * E <= tw * E) by (apply Z.mul_le_mono_nonneg_r; lia).
  assert (HtwE2 : tw * E <= (t + 1) * E) by (apply Z.mul_le_mono_nonneg_r; lia).
  assert (Hh1 : h * (R - E + 1) <= h * (tw * E)) by (apply Z.mul_le_mono_nonneg_l; lia).
  assert (Hh2 : h * (tw * E) <= h * (R + E)) by (apply Z.mul_le_mono_nonneg_l; lia).
  assert (Hh3 : h * (th * my - D + 1) <= h * R) by (apply Z.mul_le_mono_nonneg_l; lia).
  assert (Hh4 : h * R <= h * (th * my + D)) by (apply Z.mul_le_mono_nonneg_l; lia).
  split.
  - apply (Z.mul_lt_mono_pos_r E _ _ HE).
    replace (h * tw * E) with (h * (tw * E)) by ring.
    apply Z.lt_le_trans with (h * (R - E + 1)); [|exact Hh1].
    replace (h * (R - E + 1)) with (h * R - h * E + h) by ring.
    replace ((th * w - 2 * h) * E) with (th * (w * E) - 2 * (h * E)) by ring.
    replace (h * (th * my - D + 1)) with (th * ((my + 1) * h) - h * (th + D) + h) in Hh3 by ring.
    lia.
  - apply (Z.mul_lt_mono_pos_r E _ _ HE).
    replace (h * tw * E) with (h * (tw * E)) by ring.
    apply Z.le_lt_trans with (h * (R + E)); [exact Hh2|].
    replace (h * (R + E)) with (h * R + h * E) by ring.
    replace ((th * w + 2 * h) * E) with (th * (w * E) + 2 * (h * E)) by ring.
    replace (h * (th * my + D)) with (th * ((my - 1) * h) + h * (th + D)) in Hh4 by ring.
    lia.
Qed.

(** X13.  For an original width and height above 0 and below [2 ^ 32]
    and a supported resolution of nominal height [th],
    [calculate_video_dimensions] returns a width that differs from the
    exact proportional width [th * w / h] by less than 2: the two float
    roundings, the truncation of [int] and the step up to an even number
    together stay within two pixels of the aspect ratio. *)
Theorem scaled_width_is_within_two_pixels w h res th :
  0 < w < 2 ^ 32 -> 0 < h < 2 ^ 32 ->
  lookup res target_heights = Some th ->
  exists tw, calculate_video_dimensions w h res = inr (tw, th) /\
             th * w - 2 * h < h * tw < th * w + 2 * h.
Proof.
  intros Hw Hh Hl.
  assert (Hth : exists mth eth,
             float_of_int th = inr (S754_finite false mth eth) /\ -52 <= eth /\
             Z.pos mth * 2 ^ (eth + 52) = th * 2 ^ 52 /\ 0 < th <= 720 /\ th mod 2 = 0).
  { unfold target_heights in Hl. cbn [lookup] in Hl.
    destruct (String.eqb res "720p");
      [|destruct (String.eqb res "480p"); [|destruct (String.eqb res "360p"); [|discriminate]]];
      injection Hl as <-; do 2 eexists; (split; [vm_compute; reflexivity|]);
      (split; [lia|]); (split; [reflexivity|]); (split; [lia | reflexivity]). }
  destruct Hth as (mth & eth & Hf & Heth & Hmth & Hth & Hev).
  destruct (int_true_divide_near w h Hw Hh) as (my & ey & Hdiv & Hmy & Hey & Hnear).
  unfold calculate_video_dimensions. rewrite Hl, Hdiv. cbn [bind_exc].
  unfold int_mul_float. rewrite Hf. cbn [bind_exc].
  pose proof (float_mul_scaled false mth eth th my ey ltac:(lia) Heth Hmth Hmy ltac:(lia)) as Hs.
  set (P := th * Z.pos my) in *.
  assert (HP : 2 ^ 52 <= P < 2 ^ 63).
  { unfold P. change (2 ^ 63) with (1024 * 2 ^ 53). nia. }
  assert (HdP : 53 <= Zdigits2 P <= 63).
  { split.
    - change 53 with (Zdigits2 (2 ^ 52)). apply Zdigits2_mono. lia.
    - apply Zdigits2_le_of_lt; lia. }
  pose proof (rnd_near P ltac:(lia) ltac:(lia)) as HR.
  assert (HD : 0 < 2 ^ (Zdigits2 P - 53) <= 1024).
  { split; [apply Z.pow_pos_nonneg; lia|]. change 1024 with (2 ^ 10).
    apply Z.pow_le_mono_r; lia. }
  set (D := 2 ^ (Zdigits2 P - 53)) in *. set (R := rnd P) in *.
  assert (HE : 2 ^ 20 <= 2 ^ (- ey)) by (apply Z.pow_le_mono_r; lia).
  set (E := 2 ^ (- ey)) in *.
  destruct (float_mul (S754_finite false mth eth) (S754_finite false my ey))
    as [z|s| |s ms es]; try contradiction.
  - exfalso. destruct Hs as [_ Ho].
    assert (Zdigits2 R <= 64); [|lia].
    apply Zdigits2_le_of_lt; [lia|]. change (2 ^ 64) with (2 ^ 63 + 2 ^ 63). lia.
  - destruct Hs as (-> & Hes & Hv & _).
    destruct (int_of_float_floor ms es R ey Hes ltac:(lia) Hv) as (t & Ht & Hfl).
    rewrite Ht. cbn [bind_exc]. rewrite Hev. cbn [Z.eqb negb].
    eexists; split; [reflexivity|]. fold E in Hfl.
    set (tw := if negb (t mod 2 =? 0) then t + 1 else t).
    assert (Htw : t <= tw <= t + 1) by (unfold tw; destruct (negb (t mod 2 =? 0)); lia).
    change (2 ^ 20) with 1048576 in HE.
    exact (width_near th w h (Z.pos my) E D R t tw ltac:(lia) ltac:(lia) ltac:(lia) ltac:(lia)
             ltac:(lia) Hnear HR Hfl Htw).
Qed.

Lemma scaled_width_is_within_two_pixels_witness :
  0 < 1920 < 2 ^ 32 /\ 0 < 1080 < 2 ^ 32 /\
  lookup "720p" target_heights = Some 720 /\
  exists tw, calculate_video_dimensions 1920 1080 "720p" = inr (tw, 720) /\
             720 * 1920 - 2 * 1080 < 1080 * tw < 720 * 1920 + 2 * 1080.
Proof.
  assert (H1 : 0 < 1920 < 2 ^ 32) by (split; reflexivity).
  assert (H2 : 0 < 1080 < 2 ^ 32) by (split; reflexivity).
  assert (H3 : lookup "720p" target_heights = Some 720) by reflexivity.
  exact (conj H1 (conj H2 (conj H3
    (scaled_width_is_within_two_pixels 1920 1080 "720p" 720 H1 H2 H3)))).
Defined.

End DimensionsAccuracy.
